(** * DefinitionGenerator: the OpenAPI document-assembly engine

    A shallow embedding of [src/DefinitionGenerator.ts].  JavaScript object
    graphs become a tree type [value]; an object is an insertion-ordered list
    of key/value pairs whose keys are kept distinct by [set].  Code that can
    throw returns a [Result]; the one place where the engine mutates objects
    it does not own by construction (the model objects of its configuration)
    is modelled over an explicit store of model cells. *)

From Stdlib Require Import List String Ascii ZArith Bool Arith Lia.
Import ListNotations.
Open Scope string_scope.
Set Warnings "-register-all".

(** ** JavaScript values *)

(** The values the engine handles are JSON-like.  Numbers stand for the
    integers; an absent key is [None] at the place it is read, there is no
    [undefined] value.  An object lists its keys in insertion order (the
    engine never depends on the order in which keys are enumerated). *)

Inductive value : Type :=
| VNull
| VBool (b : bool)
| VNum (n : Z)
| VStr (s : string)
| VArr (items : list value)
| VObj (fields : list (string * value)).

(** [if (v)]: JavaScript truthiness. *)
Definition truthy (v : value) : bool :=
  match v with
  | VNull => false
  | VBool b => b
  | VNum n => negb (n =? 0)%Z
  | VStr s => negb (s =? "")
  | VArr _ => true
  | VObj _ => true
  end.

(** String-keyed records ([Record<string, A>], object literals). *)
Definition dict (A : Type) : Type := list (string * A).

Section Dict.
Context {A : Type}.

(** [o[k]]; [None] stands for [undefined]. *)
Fixpoint get (k : string) (o : dict A) : option A :=
  match o with
  | [] => None
  | (k', v) :: rest => if k =? k' then Some v else get k rest
  end.

(** [o[k] = v]: overwrites in place, or appends a new key. *)
Fixpoint set (k : string) (v : A) (o : dict A) : dict A :=
  match o with
  | [] => [(k, v)]
  | (k', v') :: rest =>
      if k =? k' then (k, v) :: rest else (k', v') :: set k v rest
  end.

(** [delete o[k]]. *)
Fixpoint remove (k : string) (o : dict A) : dict A :=
  match o with
  | [] => []
  | (k', v) :: rest =>
      if k =? k' then remove k rest else (k', v) :: remove k rest
  end.

(** [Object.keys(o)]. *)
Definition keys (o : dict A) : list string := map fst o.
End Dict.

(** [v.k] on an arbitrary value: only objects carry keys here. *)
Definition prop (k : string) (v : value) : option value :=
  match v with
  | VObj fields => get k fields
  | _ => None
  end.

(** [x || d] on an optional string: the empty string is falsy. *)
Definition strOr (x : option string) (d : string) : string :=
  match x with
  | Some s => if s =? "" then d else s
  | None => d
  end.

(** [a ?? b]. *)
Definition orElse {A} (a b : option A) : option A :=
  match a with
  | Some x => Some x
  | None => b
  end.

(** [x || false] on an optional boolean. *)
Definition boolOr (x : option bool) : bool :=
  match x with Some b => b | None => false end.

(** [s.startsWith(p)]. *)
Definition startsWith (p s : string) : bool := String.prefix p s.

Definition lowerAscii (c : ascii) : ascii :=
  let n := nat_of_ascii c in
  if ((65 <=? n) && (n <=? 90))%nat then ascii_of_nat (n + 32) else c.

(** [s.toLowerCase()] on the ASCII letters (method names are ASCII). *)
Fixpoint toLowerCase (s : string) : string :=
  match s with
  | EmptyString => EmptyString
  | String c rest => String (lowerAscii c) (toLowerCase rest)
  end.

(** ** Exceptions *)

Inductive exn : Type :=
| TypeError (what : string)
| Error (message : string).

Definition Result (A : Type) : Type := (exn + A)%type.

Definition ok {A} (a : A) : Result A := inr a.
Definition throw {A} (e : exn) : Result A := inl e.

Definition bind {A B} (c : Result A) (k : A -> Result B) : Result B :=
  match c with
  | inl e => inl e
  | inr a => k a
  end.

Notation "x <- c ;; k" := (bind c (fun x => k))
  (at level 61, c at next level, right associativity).

(** [for (const x of xs) acc = body(acc, x)], stopping at the first throw. *)
Fixpoint forEach {A S} (body : S -> A -> Result S) (xs : list A) (acc : S)
  : Result S :=
  match xs with
  | [] => ok acc
  | x :: rest => acc' <- body acc x ;; forEach body rest acc'
  end.

(** ** utils *)

Module Utils.

(** Modelled from the spec: [merge] of [./utils], whose source is not part
    of the tree.  "For two objects sharing a key, values are merged
    key-by-key recursively; a key present in only one side is preserved;
    scalar/array leaf values from the later merge replace those from the
    earlier one."  The function returns the new contents of the target,
    which the source updates in place. *)
Fixpoint merge (target source : value) {struct source} : value :=
  match source with
  | VObj sfields =>
      match target with
      | VObj tfields =>
          VObj ((fix mergeKeys (src : list (string * value))
                     (acc : dict value) {struct src} : dict value :=
                   match src with
                   | [] => acc
                   | (k, sv) :: rest =>
                       mergeKeys rest
                         (set k (match get k acc with
                                 | Some tv => merge tv sv
                                 | None => sv
                                 end) acc)
                   end) sfields tfields)
      | _ => source
      end
  | _ => source
  end.

(** Modelled from the spec: [clone] of [./utils], a deep copy.  Values
    are immutable trees here, so the copy of a tree is the tree; the copy
    of a configuration, which owns mutable model objects, is
    [cloneConfig] below. *)
Definition clone (v : value) : value := v.

End Utils.

(** One key of [merge]'s loop over the source object. *)
Definition mergeKey (acc : dict value) (kv : string * value) : dict value :=
  set (fst kv)
      (match get (fst kv) acc with
       | Some tv => Utils.merge tv (snd kv)
       | None => snd kv
       end) acc.

(** ** cleanSchema *)

(** Lines 114-125.  Reading [.$schema] off [null] is a TypeError; off any
    other non-object it is [undefined]. *)
Definition cleanSchema (schema : value) : Result value :=
  let cleanedSchema := Utils.clone schema in
  match cleanedSchema with
  | VNull => throw (TypeError "Cannot read properties of null (reading '$schema')")
  | VObj fields =>
      match get "$schema" fields with
      | Some s => if truthy s then ok (VObj (remove "$schema" fields))
                  else ok cleanedSchema
      | None => ok cleanedSchema
      end
  | _ => ok cleanedSchema
  end.

(** ** Input declarations ([./types]) *)

(** One entry of [pathParams], [queryParams], [requestHeaders] or
    [cookieParams].  An optional field is [None] when the key is absent. *)
Record IParameter : Type := {
  param_name : string;
  param_description : option string;
  param_required : option bool;
  param_allowEmptyValue : option bool;
  param_allowReserved : option bool;
  param_deprecated : option bool;
  param_style : option string;
  param_explode : option bool;
  param_schema : option value;
  param_examples : option value;
  param_content : option value
}.

Record IBodyDoc : Type := { body_description : option string }.

Record IResponseHeader : Type := {
  header_name : string;
  header_description : option string;
  header_schema : option value
}.

Record IMethodResponse : Type := {
  statusCode : string;
  responseBody : option IBodyDoc;
  responseModels : option (dict string);
  responseHeaders : option (list IResponseHeader)
}.

Record IEventDocumentation : Type := {
  operationId : option string;
  summary : option string;
  description : option string;
  tags : option (list string);
  deprecated : option bool;
  requestBody : option IBodyDoc;
  requestModels : option (dict string);
  pathParams : option (list IParameter);
  queryParams : option (list IParameter);
  requestHeaders : option (list IParameter);
  cookieParams : option (list IParameter);
  methodResponses : option (list IMethodResponse);
  security : option (list string)
}.

(** [authorizer]: a name, or an object with an optional [name]. *)
Inductive Authorizer : Type :=
| AuthorizerName (name : string)
| AuthorizerObject (name : option string).

Record OperationConfig : Type := {
  path : string;
  method : string;
  authorizer : option Authorizer;
  documentation : option IEventDocumentation
}.

Record IServerlessFunctionEvent : Type := {
  http : option OperationConfig;
  httpApi : option OperationConfig
}.

Record IServerlessFunctionConfig : Type := {
  _functionName : string;
  events : list IServerlessFunctionEvent
}.

Record ITsSchema : Type := { filePath : string; typeName : string }.

Record IModel : Type := {
  model_name : string;
  model_schema : option value;
  model_tsSchema : option ITsSchema;
  model_examples : option value
}.

(** A security definition: [{ authorizerName, name, ...rest }]. *)
Record ISecurity : Type := {
  security_authorizerName : option string;
  security_name : string;
  security_rest : dict value
}.

(** The configuration as the builders read it.  [M] is the representation
    of a model: a store address for the object a caller hands over, the
    model record once it is read. *)
Record IDefinitionConfig (M : Type) : Type := {
  config_title : option string;
  config_description : option string;
  config_version : option string;
  config_servers : option value;
  config_security : option (list ISecurity);
  config_models : option (list M)
}.
Arguments config_title {M}.
Arguments config_description {M}.
Arguments config_version {M}.
Arguments config_servers {M}.
Arguments config_security {M}.
Arguments config_models {M}.

(** ** getParametersFromConfig *)

(** Lines 209-249, the body of the inner loop: the parameter object pushed
    for one declaration of the block of location [type]. *)
Definition parameterConfigOf (type : string) (parameter : IParameter)
  : Result value :=
  let parameterConfig : dict value :=
    [ ("name", VStr (param_name parameter));
      ("in", VStr type);
      ("description", VStr (strOr (param_description parameter) ""));
      ("required", VBool (boolOr (param_required parameter))) ] in
  let parameterConfig :=
    if type =? "path" then
      set "required" (VBool true) parameterConfig
    else if type =? "query" then
      let parameterConfig :=
        set "allowEmptyValue"
            (VBool (boolOr (param_allowEmptyValue parameter))) parameterConfig in
      match param_allowReserved parameter with
      | Some _ =>
          set "allowReserved"
              (VBool (boolOr (param_allowReserved parameter))) parameterConfig
      | None => parameterConfig
      end
    else parameterConfig in
  let parameterConfig :=
    match param_deprecated parameter with
    | Some d => set "deprecated" (VBool d) parameterConfig
    | None => parameterConfig
    end in
  let parameterConfig :=
    match param_style parameter with
    | Some style =>
        let parameterConfig := set "style" (VStr style) parameterConfig in
        set "explode"
            (VBool (if boolOr (param_explode parameter)
                    then boolOr (param_explode parameter)
                    else style =? "form"))
            parameterConfig
    | None => parameterConfig
    end in
  parameterConfig <-
    (match param_schema parameter with
     | Some schema =>
         if truthy schema then
           cleaned <- cleanSchema schema ;;
           ok (set "schema" cleaned parameterConfig)
         else ok parameterConfig
     | None => ok parameterConfig
     end) ;;
  let parameterConfig :=
    match param_examples parameter with
    | Some (VArr items) => set "examples" (VArr items) parameterConfig
    | _ => parameterConfig
    end in
  let parameterConfig :=
    match param_content parameter with
    | Some content =>
        if truthy content then set "content" content parameterConfig
        else parameterConfig
    | None => parameterConfig
    end in
  ok (VObj parameterConfig).

(** Lines 193-205: the block of one location, [None] for [continue]. *)
Definition paramBlock (documentationConfig : IEventDocumentation)
  (type : string) : option (list IParameter) :=
  if type =? "path" then pathParams documentationConfig
  else if type =? "query" then queryParams documentationConfig
  else if type =? "header" then requestHeaders documentationConfig
  else if type =? "cookie" then cookieParams documentationConfig
  else None.

(** Lines 189-254. *)
Definition getParametersFromConfig (documentationConfig : IEventDocumentation)
  : Result (list value) :=
  forEach
    (fun (parameters : list value) type =>
       match paramBlock documentationConfig type with
       | Some block =>
           forEach
             (fun parameters parameter =>
                parameterConfig <- parameterConfigOf type parameter ;;
                ok (parameters ++ [parameterConfig])%list)
             block parameters
       | None => ok parameters
       end)
    ["path"; "query"; "header"; "cookie"] [].

(** ** Request bodies and responses *)

(** [xs.pop()]: the last element, [None] on the empty array. *)
Fixpoint pop {A} (xs : list A) : option A :=
  match xs with
  | [] => None
  | [x] => Some x
  | _ :: rest => pop rest
  end.

(** [this.config.models], a TypeError to dereference when undefined. *)
Definition configModels (cfg : IDefinitionConfig IModel)
  : Result (list IModel) :=
  match config_models cfg with
  | Some models => ok models
  | None => throw (TypeError "Cannot read properties of undefined (models)")
  end.

Definition schemaRef (modelName : string) : value :=
  VObj [("schema", VObj [("$ref", VStr ("#/components/schemas/" ++ modelName))])].

(** Lines 303-307; returns the new contents of [config]. *)
Definition attachExamples (target : IModel) (config : value) : value :=
  match model_examples target with
  | Some examples =>
      if truthy examples
      then Utils.merge config (VObj [("examples", Utils.clone examples)])
      else config
  | None => config
  end.

(** Lines 260-301.  The message of the error also prints the block. *)
Definition getRequestBodiesFromConfig (cfg : IDefinitionConfig IModel)
  (documentationConfig : IEventDocumentation) : Result value :=
  match requestModels documentationConfig with
  | None => throw (Error "Required requestModels")
  | Some models =>
      forEach
        (fun requestBodies (entry : string * string) =>
           let (requestModelType, modelName) := entry in
           declared <- configModels cfg ;;
           match pop (filter (fun model => model_name model =? modelName)
                             declared) with
           | Some requestModel =>
               let reqModelConfig :=
                 attachExamples requestModel (schemaRef modelName) in
               let reqBodyConfig : dict value :=
                 [("content", VObj [(requestModelType, reqModelConfig)])] in
               let reqBodyConfig :=
                 match requestBody documentationConfig with
                 | Some body =>
                     match body_description body with
                     | Some d => set "description" (VStr d) reqBodyConfig
                     | None => reqBodyConfig
                     end
                 | None => reqBodyConfig
                 end in
               ok (Utils.merge requestBodies (VObj reqBodyConfig))
           | None => ok requestBodies
           end)
        models (VObj [])
  end.

(** Lines 346-366.  [Object.keys(undefined)] is a TypeError. *)
Definition getResponseContent (cfg : IDefinitionConfig IModel)
  (response : option (dict string)) : Result value :=
  match response with
  | None => throw (TypeError "Cannot convert undefined or null to object")
  | Some response =>
      forEach
        (fun content (entry : string * string) =>
           let (responseKey, modelName) := entry in
           declared <- configModels cfg ;;
           match find (fun model => model_name model =? modelName)
                      declared with
           | Some responseModel =>
               let resModelConfig :=
                 attachExamples responseModel (schemaRef modelName) in
               ok (Utils.merge content (VObj [(responseKey, resModelConfig)]))
           | None => ok content
           end)
        response (VObj [])
  end.

(** Lines 325-335: the [headers] object of one method response. *)
Definition responseHeadersOf (declared : list IResponseHeader)
  : Result (dict value) :=
  forEach
    (fun (headers : dict value) header =>
       let entry : dict value :=
         [("description",
           VStr (strOr (header_description header)
                       (header_name header ++ " header")))] in
       entry <-
         (match header_schema header with
          | Some schema =>
              if truthy schema then
                cleaned <- cleanSchema schema ;;
                ok (set "schema" cleaned entry)
              else ok entry
          | None => ok entry
          end) ;;
       ok (set (header_name header) (VObj entry) headers))
    declared [].

(** Lines 317-335: the entry built for one method response. *)
Definition methodResponseConfigOf (cfg : IDefinitionConfig IModel)
  (response : IMethodResponse) : Result value :=
  let described :=
    match responseBody response with
    | Some body =>
        match body_description body with
        | Some d => d
        | None => "Status " ++ statusCode response ++ " Response"
        end
    | None => "Status " ++ statusCode response ++ " Response"
    end in
  content <- getResponseContent cfg (responseModels response) ;;
  let methodResponseConfig : dict value :=
    [("description", VStr described); ("content", content)] in
  match responseHeaders response with
  | Some declared =>
      headers <- responseHeadersOf declared ;;
      ok (VObj (set "headers" (VObj headers) methodResponseConfig))
  | None => ok (VObj methodResponseConfig)
  end.

(** Lines 313-344. *)
Definition getResponsesFromConfig (cfg : IDefinitionConfig IModel)
  (documentationConfig : IEventDocumentation) : Result value :=
  match methodResponses documentationConfig with
  | Some declared =>
      forEach
        (fun responses response =>
           methodResponseConfig <- methodResponseConfigOf cfg response ;;
           ok (Utils.merge responses
                 (VObj [(statusCode response, methodResponseConfig)])))
        declared (VObj [])
  | None => ok (VObj [])
  end.

(** ** getOperationFromConfig *)

(** [if (config.authorizer)]: a non-empty name, or any object. *)
Definition truthyAuthorizer (a : option Authorizer) : bool :=
  match a with
  | Some (AuthorizerName name) => negb (name =? "")
  | Some (AuthorizerObject _) => true
  | None => false
  end.

(** Lines 165-168. *)
Definition authorizerNameOf (a : Authorizer) : option string :=
  match a with
  | AuthorizerName name => Some name
  | AuthorizerObject name => name
  end.

(** [a === b] on optional strings: [undefined === undefined] holds. *)
Definition sameName (a b : option string) : bool :=
  match a, b with
  | Some x, Some y => x =? y
  | None, None => true
  | _, _ => false
  end.

(** [{ [security.name]: [] }]. *)
Definition requirement (s : ISecurity) : value :=
  VObj [(security_name s, VArr [])].

(** [names.includes(x)]. *)
Definition includes (names : list string) (x : string) : bool :=
  existsb (fun n => n =? x) names.

(** Lines 134-183. *)
Definition getOperationFromConfig (cfg : IDefinitionConfig IModel)
  (funcName : string) (config : OperationConfig) : Result value :=
  match documentation config with
  | None => throw (TypeError "Cannot read properties of undefined (documentation)")
  | Some documentationConfig =>
      let operationObj : dict value := [("operationId", VStr funcName)] in
      let operationObj :=
        match summary documentationConfig with
        | Some s => if s =? "" then operationObj
                    else set "summary" (VStr s) operationObj
        | None => operationObj
        end in
      let operationObj :=
        match description documentationConfig with
        | Some s => if s =? "" then operationObj
                    else set "description" (VStr s) operationObj
        | None => operationObj
        end in
      let operationObj :=
        match tags documentationConfig with
        | Some ts => set "tags" (VArr (map VStr ts)) operationObj
        | None => operationObj
        end in
      let operationObj :=
        if boolOr (deprecated documentationConfig)
        then set "deprecated" (VBool true) operationObj
        else operationObj in
      operationObj <-
        (match requestModels documentationConfig with
         | Some _ =>
             body <- getRequestBodiesFromConfig cfg documentationConfig ;;
             ok (set "requestBody" body operationObj)
         | None => ok operationObj
         end) ;;
      parameters <- getParametersFromConfig documentationConfig ;;
      let operationObj := set "parameters" (VArr parameters) operationObj in
      responses <- getResponsesFromConfig cfg documentationConfig ;;
      let operationObj := set "responses" responses operationObj in
      let operationObj :=
        match config_security cfg with
        | Some declared =>
            if truthyAuthorizer (authorizer config) then
              let authorizerName :=
                match authorizer config with
                | Some a => authorizerNameOf a
                | None => None
                end in
              match find (fun s => sameName (security_authorizerName s)
                                              authorizerName)
                         declared with
              | Some security =>
                  set "security" (VArr [requirement security]) operationObj
              | None => operationObj
              end
            else operationObj
        | None => operationObj
        end in
      match security documentationConfig with
      | Some names =>
          match config_security cfg with
          | None => throw (TypeError "Cannot read properties of undefined (reading 'filter')")
          | Some declared =>
              let securities :=
                filter (fun s => includes names (security_name s)) declared in
              if (0 <? List.length securities)%nat
              then ok (VObj (set "security" (VArr (map requirement securities))
                                 operationObj))
              else ok (VObj operationObj)
          end
      | None => ok (VObj operationObj)
      end
  end.

(** ** readFunctions *)

(** Lines 368-370. *)
Definition getHttpEvents (funcConfig : list IServerlessFunctionEvent)
  : list IServerlessFunctionEvent :=
  filter (fun event =>
            match http event, httpApi event with
            | None, None => false
            | _, _ => true
            end) funcConfig.

(** Line 93. *)
Definition pathKey (p : string) : string :=
  if startsWith "/" p then p else "/" ++ p.

(** [merge(this.definition.paths, pathConfig)].  Without a [paths] object
    (before [parse]) there is no target to update. *)
Definition mergePaths (definition pathConfig : value) : value :=
  match definition with
  | VObj fields =>
      match get "paths" fields with
      | Some paths => VObj (set "paths" (Utils.merge paths pathConfig) fields)
      | None => definition
      end
  | _ => definition
  end.

(** Lines 89-105: one http event of [funcConfig]. *)
Definition readEvent (cfg : IDefinitionConfig IModel)
  (funcConfig : IServerlessFunctionConfig) (definition : value)
  (httpEvent : IServerlessFunctionEvent) : Result value :=
  match orElse (http httpEvent) (httpApi httpEvent) with
  | Some httpEventConfig =>
      match documentation httpEventConfig with
      | Some doc =>
          let path := pathKey (path httpEventConfig) in
          operation <-
            getOperationFromConfig cfg
              (match operationId doc with
               | Some id => id
               | None => _functionName funcConfig
               end)
              httpEventConfig ;;
          let pathConfig :=
            VObj [(path,
                   VObj [(toLowerCase (method httpEventConfig), operation)])] in
          ok (mergePaths definition pathConfig)
      | None => ok definition
      end
  | None => ok definition
  end.

(** Lines 84-108, on the engine's [definition]. *)
Definition readFunctions (cfg : IDefinitionConfig IModel)
  (definition : value) (config : list IServerlessFunctionConfig)
  : Result value :=
  forEach
    (fun definition funcConfig =>
       forEach (readEvent cfg funcConfig)
               (getHttpEvents (events funcConfig)) definition)
    config definition.

(** ** The engine and its model objects *)

(** The engine writes to the model objects of its configuration
    ([model.schema = ...], [delete model.tsSchema]).  These objects live in
    a store; a configuration holds their addresses, so that two
    configurations can share a model object or not. *)
Definition loc : Type := nat.
Definition store : Type := list IModel.

(** Computations that read and write the store and may throw.  The store
    survives a throw, as the heap does. *)
Definition M (A : Type) : Type := store -> store * Result A.

Definition retM {A} (a : A) : M A := fun h => (h, ok a).
Definition liftM {A} (r : Result A) : M A := fun h => (h, r).

Definition bindM {A B} (c : M A) (k : A -> M B) : M B :=
  fun h =>
    match c h with
    | (h', inl e) => (h', inl e)
    | (h', inr a) => k a h'
    end.

Notation "x <~ c ;; k" := (bindM c (fun x => k))
  (at level 61, c at next level, right associativity).

Fixpoint forEachM {A S} (body : S -> A -> M S) (xs : list A) (acc : S)
  : M S :=
  match xs with
  | [] => retM acc
  | x :: rest => acc' <~ body acc x ;; forEachM body rest acc'
  end.

(** Reading the object at an address. *)
Definition readModel (l : loc) : M IModel :=
  fun h =>
    match nth_error h l with
    | Some model => (h, ok model)
    | None => (h, throw (TypeError "no object at this address"))
    end.

Fixpoint update {A} (n : nat) (x : A) (xs : list A) : list A :=
  match xs, n with
  | [], _ => []
  | _ :: rest, O => x :: rest
  | y :: rest, S n' => y :: update n' x rest
  end.

(** Overwriting the object at an address (a property assignment). *)
Definition writeModel (l : loc) (model : IModel) : M unit :=
  fun h => (update l model h, ok tt).

(** The objects a list of addresses points to. *)
Definition deref (h : store) (ls : list loc) : list IModel :=
  flat_map (fun l => match nth_error h l with
                     | Some model => [model]
                     | None => []
                     end) ls.

Definition withModels {M1 M2} (config : IDefinitionConfig M1)
  (models : option (list M2)) : IDefinitionConfig M2 :=
  {| config_title := config_title config;
     config_description := config_description config;
     config_version := config_version config;
     config_servers := config_servers config;
     config_security := config_security config;
     config_models := models |}.

(** The configuration as the builders read it off the store. *)
Definition loadConfig (h : store) (config : IDefinitionConfig loc)
  : IDefinitionConfig IModel :=
  withModels config (option_map (deref h) (config_models config)).

(** Modelled from the spec: [clone] of [./utils] on a configuration, "a
    defensive deep-copy of the input configuration": every model object is
    copied to a fresh address and the copy of the configuration points to
    the copies. *)
Definition cloneConfig (config : IDefinitionConfig loc)
  : store -> store * IDefinitionConfig loc :=
  fun h =>
    match config_models config with
    | Some ls =>
        let copies := deref h ls in
        (h ++ copies,
         withModels config
           (Some (seq (List.length h) (List.length copies))))%list
    | None => (h, config)
    end.

Record DefinitionGenerator : Type := {
  version : string;
  definition : value;
  config : IDefinitionConfig loc
}.

Definition withDefinition (this : DefinitionGenerator) (d : value)
  : DefinitionGenerator :=
  {| version := version this; definition := d; config := config this |}.

(** Lines 21-37: the field initialisers, then the constructor body. *)
Definition constructor (config : IDefinitionConfig loc)
  : store -> store * DefinitionGenerator :=
  fun h =>
    let (h', copy) := cloneConfig config h in
    (h', {| version := "3.0.0";
            definition := VObj [("openapi", VStr "3.0.0");
                                ("components", VObj [])];
            config := copy |}).

(** Lines 49-56: the [reduce] over the security definitions. *)
Definition securitySchemesOf (declared : list ISecurity) : dict value :=
  fold_left
    (fun result s =>
       set (security_name s)
           (VObj (("name", VStr (security_name s)) :: security_rest s))
           result)
    declared [].

(** [definition.components.schemas[name] = schema]. *)
Definition setSchema (name : string) (schema : value) (definition : value)
  : Result value :=
  match definition with
  | VObj fields =>
      match get "components" fields with
      | Some (VObj components) =>
          match get "schemas" components with
          | Some (VObj schemas) =>
              ok (VObj (set "components"
                          (VObj (set "schemas"
                                   (VObj (set name schema schemas))
                                   components))
                          fields))
          | _ => throw (TypeError "Cannot set properties of schemas")
          end
      | _ => throw (TypeError "Cannot read properties of components")
      end
  | _ => throw (TypeError "Cannot read properties of definition")
  end.

Section Collaborators.

(** The external collaborators: the type-to-schema deriver (applied to the
    resolved file and the type name), the [$ref] dereferencer and the
    identifier generator. *)
Variable generateSchema : string -> string -> value.
Variable dereference : value -> value.
Variable uuid_v4 : string.

(** Lines 61-74: one model of the loop, at address [l]. *)
Definition parseModel (definition : value) (l : loc) : M value :=
  model <~ readModel l ;;
  match model_tsSchema model with
  | Some tsSchema =>
      let schema :=
        generateSchema (filePath tsSchema) (typeName tsSchema) in
      _ <~ writeModel l {| model_name := model_name model;
                           model_schema := Some schema;
                           model_tsSchema := None;
                           model_examples := model_examples model |} ;;
      liftM (cleaned <- cleanSchema (dereference schema) ;;
             setSchema (model_name model) cleaned definition)
  | None =>
      match model_schema model with
      | Some schema =>
          if truthy schema then
            liftM (cleaned <- cleanSchema (dereference schema) ;;
                   setSchema (model_name model) cleaned definition)
          else retM definition
      | None => retM definition
      end
  end.

(** Lines 39-78.  [isIterable(models)] holds of a declared list. *)
Definition parse (this : DefinitionGenerator) : M DefinitionGenerator :=
  let title := match config_title (config this) with
               | Some t => t | None => "" end in
  let description := match config_description (config this) with
                     | Some d => d | None => "" end in
  let version' := match config_version (config this) with
                  | Some v => v | None => uuid_v4 end in
  let servers := match config_servers (config this) with
                 | Some s => s | None => VArr [] end in
  let security := match config_security (config this) with
                  | Some s => s | None => [] end in
  let definition :=
    Utils.merge (definition this)
      (VObj [("openapi", VStr (version this));
             ("info", VObj [("title", VStr title);
                            ("description", VStr description);
                            ("version", VStr version')]);
             ("servers", servers);
             ("paths", VObj []);
             ("components",
              VObj [("schemas", VObj []);
                    ("securitySchemes", VObj (securitySchemesOf security))])])
  in
  match config_models (config this) with
  | Some models =>
      definition <~ forEachM parseModel models definition ;;
      retM (withDefinition this definition)
  | None => retM (withDefinition this definition)
  end.

End Collaborators.

(** [readFunctions] as a method: reads [this.config] off the store and
    updates [this.definition]. *)
Definition readFunctionsOf (this : DefinitionGenerator)
  (functions : list IServerlessFunctionConfig) : M DefinitionGenerator :=
  fun h =>
    (h, definition <- readFunctions (loadConfig h (config this))
                                    (definition this) functions ;;
        ok (withDefinition this definition)).

(** * Vocabulary of the statements *)

(** The inner loop of [getParametersFromConfig] block by block: the object
    literal and the location rules (lines 209-225), then one function for
    each later [if]. *)
Definition located (type : string) (parameter : IParameter) : dict value :=
  let parameterConfig : dict value :=
    [ ("name", VStr (param_name parameter));
      ("in", VStr type);
      ("description", VStr (strOr (param_description parameter) ""));
      ("required", VBool (boolOr (param_required parameter))) ] in
  if type =? "path" then
    set "required" (VBool true) parameterConfig
  else if type =? "query" then
    let parameterConfig :=
      set "allowEmptyValue"
          (VBool (boolOr (param_allowEmptyValue parameter))) parameterConfig in
    match param_allowReserved parameter with
    | Some _ =>
        set "allowReserved"
            (VBool (boolOr (param_allowReserved parameter))) parameterConfig
    | None => parameterConfig
    end
  else parameterConfig.

Definition withDeprecated (parameter : IParameter) (o : dict value)
  : dict value :=
  match param_deprecated parameter with
  | Some d => set "deprecated" (VBool d) o
  | None => o
  end.

Definition withStyle (parameter : IParameter) (o : dict value) : dict value :=
  match param_style parameter with
  | Some style =>
      set "explode"
          (VBool (if boolOr (param_explode parameter)
                  then boolOr (param_explode parameter)
                  else style =? "form"))
          (set "style" (VStr style) o)
  | None => o
  end.

Definition withSchema (parameter : IParameter) (o : dict value)
  : Result (dict value) :=
  match param_schema parameter with
  | Some schema =>
      if truthy schema then
        cleaned <- cleanSchema schema ;; ok (set "schema" cleaned o)
      else ok o
  | None => ok o
  end.

Definition withExamples (parameter : IParameter) (o : dict value)
  : dict value :=
  match param_examples parameter with
  | Some (VArr items) => set "examples" (VArr items) o
  | _ => o
  end.

Definition withContent (parameter : IParameter) (o : dict value)
  : dict value :=
  match param_content parameter with
  | Some content => if truthy content then set "content" content o else o
  | None => o
  end.


(** The object pushed for a declaration, and the objects of one block. *)
Definition emitted (type : string) (parameter : IParameter) : value :=
  match parameterConfigOf type parameter with
  | inr parameterConfig => parameterConfig
  | inl _ => VNull
  end.

Definition emittedBlock (documentationConfig : IEventDocumentation)
  (type : string) : list value :=
  match paramBlock documentationConfig type with
  | Some block => map (emitted type) block
  | None => []
  end.

(** Sample declarations, with every optional key absent. *)
Definition plainParameter (name : string) : IParameter :=
  {| param_name := name; param_description := None; param_required := None;
     param_allowEmptyValue := None; param_allowReserved := None;
     param_deprecated := None; param_style := None; param_explode := None;
     param_schema := None; param_examples := None; param_content := None |}.

Definition plainDocumentation : IEventDocumentation :=
  {| operationId := None; summary := None; description := None; tags := None;
     deprecated := None; requestBody := None; requestModels := None;
     pathParams := None; queryParams := None; requestHeaders := None;
     cookieParams := None; methodResponses := None; security := None |}.

(** [getOperationFromConfig] block by block: the operation metadata (lines
    136-154), the request body (156-158), the authorizer rule (164-173) and
    the documented security list (175-182). *)
Definition headline (funcName : string)
  (documentationConfig : IEventDocumentation) : dict value :=
  let operationObj : dict value := [("operationId", VStr funcName)] in
  let operationObj :=
    match summary documentationConfig with
    | Some s => if s =? "" then operationObj
                else set "summary" (VStr s) operationObj
    | None => operationObj
    end in
  let operationObj :=
    match description documentationConfig with
    | Some s => if s =? "" then operationObj
                else set "description" (VStr s) operationObj
    | None => operationObj
    end in
  let operationObj :=
    match tags documentationConfig with
    | Some ts => set "tags" (VArr (map VStr ts)) operationObj
    | None => operationObj
    end in
  if boolOr (deprecated documentationConfig)
  then set "deprecated" (VBool true) operationObj
  else operationObj.

Definition withRequestBody (cfg : IDefinitionConfig IModel)
  (documentationConfig : IEventDocumentation) (o : dict value)
  : Result (dict value) :=
  match requestModels documentationConfig with
  | Some _ =>
      body <- getRequestBodiesFromConfig cfg documentationConfig ;;
      ok (set "requestBody" body o)
  | None => ok o
  end.

Definition withAuthorizer (cfg : IDefinitionConfig IModel)
  (config : OperationConfig) (o : dict value) : dict value :=
  match config_security cfg with
  | Some declared =>
      if truthyAuthorizer (authorizer config) then
        match find (fun s => sameName (security_authorizerName s)
                                      (match authorizer config with
                                       | Some a => authorizerNameOf a
                                       | None => None
                                       end))
                   declared with
        | Some security => set "security" (VArr [requirement security]) o
        | None => o
        end
      else o
  | None => o
  end.

Definition withSecurity (cfg : IDefinitionConfig IModel)
  (documentationConfig : IEventDocumentation) (o : dict value)
  : Result value :=
  match security documentationConfig with
  | Some names =>
      match config_security cfg with
      | None => throw (TypeError "Cannot read properties of undefined (reading 'filter')")
      | Some declared =>
          let securities :=
            filter (fun s => includes names (security_name s)) declared in
          if (0 <? List.length securities)%nat
          then ok (VObj (set "security" (VArr (map requirement securities)) o))
          else ok (VObj o)
      end
  | None => ok (VObj o)
  end.

(** The two resolution rules of the security requirement, as relations
    between an event and a declared security definition. *)
Definition authorizerRule (cfg : IDefinitionConfig IModel)
  (config : OperationConfig) (s : ISecurity) : Prop :=
  exists declared a,
    config_security cfg = Some declared
    /\ authorizer config = Some a
    /\ truthyAuthorizer (Some a) = true
    /\ In s declared
    /\ security_authorizerName s = authorizerNameOf a.

Definition documentedRule (cfg : IDefinitionConfig IModel)
  (documentationConfig : IEventDocumentation) (s : ISecurity) : Prop :=
  exists declared names,
    config_security cfg = Some declared
    /\ security documentationConfig = Some names
    /\ In s declared
    /\ In (security_name s) names.

(** The inputs on which no property of [undefined] is read: the model list
    is declared wherever a model name is looked up, every method response
    carries [responseModels], and the security definitions are declared
    when the block lists security names. *)
Definition modelsDeclared (cfg : IDefinitionConfig IModel) : bool :=
  match config_models cfg with Some _ => true | None => false end.

Definition contentBuildable (cfg : IDefinitionConfig IModel)
  (response : option (dict string)) : bool :=
  match response with
  | None => false
  | Some [] => true
  | Some (_ :: _) => modelsDeclared cfg
  end.

Definition buildable (cfg : IDefinitionConfig IModel)
  (documentationConfig : IEventDocumentation) : bool :=
  match requestModels documentationConfig with
  | Some (_ :: _) => modelsDeclared cfg
  | _ => true
  end
  && match methodResponses documentationConfig with
     | Some declared =>
         forallb (fun response =>
                    contentBuildable cfg (responseModels response)) declared
     | None => true
     end
  && match security documentationConfig, config_security cfg with
     | Some _, None => false
     | _, _ => true
     end.

Definition isTypeError (e : exn) : Prop := exists what, e = TypeError what.

Definition isObject (v : value) : Prop := exists fields, v = VObj fields.

(** The definition the authorizer rule selects, and the definitions the
    documented list selects, as the code computes them. *)
Definition authorizerMatch (cfg : IDefinitionConfig IModel)
  (config : OperationConfig) : option ISecurity :=
  match config_security cfg with
  | Some declared =>
      if truthyAuthorizer (authorizer config) then
        find (fun s => sameName (security_authorizerName s)
                                (match authorizer config with
                                 | Some a => authorizerNameOf a
                                 | None => None
                                 end))
             declared
      else None
  | None => None
  end.

Definition documentedMatches (cfg : IDefinitionConfig IModel)
  (documentationConfig : IEventDocumentation) : list ISecurity :=
  match security documentationConfig, config_security cfg with
  | Some names, Some declared =>
      filter (fun s => includes names (security_name s)) declared
  | _, _ => []
  end.

(** Sample configurations and events. *)
Definition configOf (security : option (list ISecurity))
  (models : option (list IModel)) : IDefinitionConfig IModel :=
  {| config_title := Some "api"; config_description := None;
     config_version := Some "1"; config_servers := None;
     config_security := security; config_models := models |}.

Definition jwtScheme : ISecurity :=
  {| security_authorizerName := Some "auth"; security_name := "jwt";
     security_rest := [("type", VStr "http")] |}.

Definition apiKeyScheme : ISecurity :=
  {| security_authorizerName := Some "keys"; security_name := "apiKey";
     security_rest := [("type", VStr "apiKey")] |}.

Definition securedDocumentation (names : list string) : IEventDocumentation :=
  {| operationId := None; summary := None; description := None; tags := None;
     deprecated := None; requestBody := None; requestModels := None;
     pathParams := None; queryParams := None; requestHeaders := None;
     cookieParams := None; methodResponses := None; security := Some names |}.

Definition eventOf (p m : string) (a : option Authorizer)
  (documentationConfig : IEventDocumentation) : OperationConfig :=
  {| path := p; method := m; authorizer := a;
     documentation := Some documentationConfig |}.

(** The documented events of a list of function configurations, in the
    order [readFunctions] visits them, and what each one merges into the
    definition. *)
Definition contribution : Type :=
  (IServerlessFunctionConfig * OperationConfig * IEventDocumentation)%type.

Definition documentedOf (funcConfig : IServerlessFunctionConfig)
  : list contribution :=
  flat_map
    (fun httpEvent =>
       match orElse (http httpEvent) (httpApi httpEvent) with
       | Some config =>
           match documentation config with
           | Some doc => [(funcConfig, config, doc)]
           | None => []
           end
       | None => []
       end)
    (events funcConfig).

Definition documented (functions : list IServerlessFunctionConfig)
  : list contribution :=
  flat_map documentedOf functions.

Definition operationName (funcConfig : IServerlessFunctionConfig)
  (doc : IEventDocumentation) : string :=
  match operationId doc with
  | Some id => id
  | None => _functionName funcConfig
  end.

Definition built (cfg : IDefinitionConfig IModel) (c : contribution)
  : Result value :=
  let '(funcConfig, config, doc) := c in
  getOperationFromConfig cfg (operationName funcConfig doc) config.

Definition pathConfigOf (config : OperationConfig) (operation : value)
  : value :=
  VObj [(pathKey (path config),
         VObj [(toLowerCase (method config), operation)])].

Definition contribute (cfg : IDefinitionConfig IModel) (definition : value)
  (c : contribution) : Result value :=
  operation <- built cfg c ;;
  ok (mergePaths definition (pathConfigOf (snd (fst c)) operation)).

(** [definition.paths[p][m]]. *)
Definition entryAt (definition : value) (p m : string) : option value :=
  match prop "paths" definition with
  | Some paths =>
      match prop p paths with
      | Some methods => prop m methods
      | None => None
      end
  | None => None
  end.

Definition atPlace (p m : string) (c : contribution) : bool :=
  (pathKey (path (snd (fst c))) =? p)
  && (toLowerCase (method (snd (fst c))) =? m).

Definition operationOf (cfg : IDefinitionConfig IModel) (c : contribution)
  : value :=
  match built cfg c with
  | inr operation => operation
  | inl _ => VNull
  end.

(** What a place holds after one more operation is merged into it. *)
Definition accumulate (old : option value) (operation : value)
  : option value :=
  Some (match old with
        | Some earlier => Utils.merge earlier operation
        | None => operation
        end).

(** [definition.paths[p]]. *)
Definition pathItem (definition : value) (p : string) : option value :=
  match prop "paths" definition with
  | Some paths => prop p paths
  | None => None
  end.

(** An upper-case ASCII letter. *)
Definition isUpper (c : ascii) : bool :=
  ((65 <=? nat_of_ascii c) && (nat_of_ascii c <=? 90))%nat.

(** Two functions, one documented event each. *)
Definition getPet : IServerlessFunctionConfig :=
  {| _functionName := "getPet";
     events := [ {| http := Some (eventOf "pets/{id}" "GET" None
                                    plainDocumentation);
                    httpApi := None |} ] |}.

Definition createPet : IServerlessFunctionConfig :=
  {| _functionName := "createPet";
     events := [ {| http := None;
                    httpApi := Some (eventOf "/pets/{id}" "Post" None
                                       plainDocumentation) |} ] |}.

Definition emptyPaths : value := VObj [("paths", VObj [])].

(** A model name that the declared models resolve. *)
Definition resolves (declared : list IModel) (name : string) : Prop :=
  In name (map model_name declared).

(** Where a content type of the response entry of [status] can come from:
    a method response of that status that maps it to a resolved name. *)
Definition contentSource (declared : list IModel)
  (responses : list IMethodResponse) (status key : string) : Prop :=
  exists response models name,
    In response responses
    /\ statusCode response = status
    /\ responseModels response = Some models
    /\ In (key, name) models
    /\ resolves declared name.

Definition petModel : IModel :=
  {| model_name := "Pet";
     model_schema := Some (VObj [("type", VStr "object")]);
     model_tsSchema := None; model_examples := None |}.

Definition respondsWith (status : string) (models : dict string)
  : IMethodResponse :=
  {| statusCode := status; responseBody := None;
     responseModels := Some models; responseHeaders := None |}.

Definition respondingDocumentation (responses : list IMethodResponse)
  : IEventDocumentation :=
  {| operationId := None; summary := None; description := None; tags := None;
     deprecated := None; requestBody := None; requestModels := None;
     pathParams := None; queryParams := None; requestHeaders := None;
     cookieParams := None; methodResponses := Some responses;
     security := None |}.

(** The invariant of the loop of [getResponsesFromConfig]: every entry of
    the responses object has a content object whose keys have a source
    among the method responses read so far. *)
Definition wellSourced (declared : list IModel)
  (processed : list IMethodResponse) (responses : dict value) : Prop :=
  forall status entry,
    get status responses = Some entry ->
    exists e c,
      entry = VObj e
      /\ get "content" e = Some (VObj c)
      /\ forall key,
           get key c <> None -> contentSource declared processed status key.

(** A block that documents a request body and no request models. *)
Definition bodyOnlyDocumentation : IEventDocumentation :=
  {| operationId := None; summary := None; description := None; tags := None;
     deprecated := None;
     requestBody := Some {| body_description := Some "A pet" |};
     requestModels := None;
     pathParams := None; queryParams := None; requestHeaders := None;
     cookieParams := None; methodResponses := None; security := None |}.

Definition putPet : IServerlessFunctionConfig :=
  {| _functionName := "putPet";
     events := [ {| http := Some (eventOf "/pets" "put" None
                                    bodyOnlyDocumentation);
                    httpApi := None |} ] |}.

(** The block with its [requestBody] key removed. *)
Definition withoutRequestBody (doc : IEventDocumentation)
  : IEventDocumentation :=
  {| operationId := operationId doc; summary := summary doc;
     description := description doc; tags := tags doc;
     deprecated := deprecated doc; requestBody := None;
     requestModels := requestModels doc; pathParams := pathParams doc;
     queryParams := queryParams doc; requestHeaders := requestHeaders doc;
     cookieParams := cookieParams doc;
     methodResponses := methodResponses doc; security := security doc |}.

Definition withDocumentation (config : OperationConfig)
  (doc : IEventDocumentation) : OperationConfig :=
  {| path := path config; method := method config;
     authorizer := authorizer config; documentation := Some doc |}.

(** A caller's configuration over a store, and stand-ins for the external
    collaborators: a deriver that yields an object schema and a
    dereferencer that finds nothing to inline. *)
Definition callerConfig (models : list loc) : IDefinitionConfig loc :=
  {| config_title := Some "api"; config_description := None;
     config_version := Some "1"; config_servers := None;
     config_security := None; config_models := Some models |}.

Definition typedModel : IModel :=
  {| model_name := "Owner"; model_schema := None;
     model_tsSchema := Some {| filePath := "owner.ts"; typeName := "Owner" |};
     model_examples := None |}.

Definition emptySchemaModel : IModel :=
  {| model_name := "Pet";
     model_schema := Some (VObj [("$schema", VStr "");
                                 ("type", VStr "object")]);
     model_tsSchema := None; model_examples := None |}.

Definition derive (file type : string) : value :=
  VObj [("$schema", VStr "http://json-schema.org/draft-07/schema#");
        ("title", VStr type)].

Definition inlineNothing (schema : value) : value := schema.

(** [definition.components.schemas[name]]. *)
Definition schemaOf (definition : value) (name : string) : option value :=
  match prop "components" definition with
  | Some components =>
      match prop "schemas" components with
      | Some schemas => prop name schemas
      | None => None
      end
  | None => None
  end.

(** A value without a truthy [$schema] key. *)
Definition stripped (v : value) : Prop :=
  forall s, prop "$schema" v = Some s -> truthy s = false.

(** A block that is not declared has no entries. *)
Definition orEmpty {A} (block : option (list A)) : list A :=
  match block with
  | Some entries => entries
  | None => []
  end.

(** A query parameter that declares every optional key. *)
Definition fullParameter : IParameter :=
  {| param_name := "limit"; param_description := Some "Page size";
     param_required := Some true; param_allowEmptyValue := Some true;
     param_allowReserved := Some false; param_deprecated := Some false;
     param_style := None; param_explode := Some true;
     param_schema :=
       Some (VObj [("$schema", VStr "http://json-schema.org/draft-07/schema#");
                   ("type", VStr "integer")]);
     param_examples := Some (VStr "10");
     param_content := Some VNull |}.

(** A block with every piece of operation metadata, and one with the
    values the code treats as absent. *)
Definition describedDocumentation : IEventDocumentation :=
  {| operationId := Some "listPets"; summary := Some "List pets";
     description := Some "All the pets"; tags := Some ["pets"];
     deprecated := Some true; requestBody := None;
     requestModels := Some []; pathParams := None; queryParams := None;
     requestHeaders := None; cookieParams := None; methodResponses := None;
     security := None |}.

Definition blankDocumentation : IEventDocumentation :=
  {| operationId := None; summary := Some ""; description := Some "";
     tags := None; deprecated := Some false; requestBody := None;
     requestModels := None; pathParams := None; queryParams := None;
     requestHeaders := None; cookieParams := None; methodResponses := None;
     security := None |}.

(** What a content type holds for a resolved model: the reference to its
    schema, with the examples of the model when it has any. *)
Definition wired (model : IModel) (modelName : string) : value :=
  attachExamples model (schemaRef modelName).

(** The content a map of model names yields, entry by entry; [lookup]
    resolves a name. *)
Definition wiredEntries (lookup : string -> option IModel)
  (models : dict string) : dict value :=
  flat_map (fun entry : string * string =>
              match lookup (snd entry) with
              | Some model => [(fst entry, wired model (snd entry))]
              | None => []
              end) models.

(** The first and the last declared model of a name. *)
Definition firstNamed (declared : list IModel) (name : string)
  : option IModel :=
  find (fun model => model_name model =? name) declared.

Definition lastNamed (declared : list IModel) (name : string)
  : option IModel :=
  pop (filter (fun model => model_name model =? name) declared).

(** The [description] a request body is given. *)
Definition bodyDescription (documentationConfig : IEventDocumentation)
  : dict value :=
  match requestBody documentationConfig with
  | Some body =>
      match body_description body with
      | Some d => [("description", VStr d)]
      | None => []
      end
  | None => []
  end.

(** Two models of one name, with different examples. *)
Definition firstPet : IModel :=
  {| model_name := "Pet";
     model_schema := Some (VObj [("type", VStr "object")]);
     model_tsSchema := None;
     model_examples := Some (VArr [VStr "first"]) |}.

Definition lastPet : IModel :=
  {| model_name := "Pet";
     model_schema := Some (VObj [("type", VStr "object")]);
     model_tsSchema := None;
     model_examples := Some (VArr [VStr "last"]) |}.

Definition postingDocumentation (models : dict string)
  : IEventDocumentation :=
  {| operationId := None; summary := None; description := None; tags := None;
     deprecated := None;
     requestBody := Some {| body_description := Some "A pet" |};
     requestModels := Some models;
     pathParams := None; queryParams := None; requestHeaders := None;
     cookieParams := None; methodResponses := None; security := None |}.

(** A request body object: nothing at all without entries, else the
    content and the description. *)
Definition bodyOf (entries described : dict value) : dict value :=
  match entries with
  | [] => []
  | _ :: _ => ("content", VObj entries) :: described
  end.


Definition retryHeader : IResponseHeader :=
  {| header_name := "Retry-After"; header_description := None;
     header_schema :=
       Some (VObj [("$schema", VStr "http://json-schema.org/draft-07/schema#");
                   ("type", VStr "integer")]) |}.

Definition overridingHeader : IResponseHeader :=
  {| header_name := "Retry-After";
     header_description := Some "Seconds to wait";
     header_schema := None |}.

(** Lines 327-334: one header of the loop of [responseHeadersOf]. *)
Definition headerStep (headers : dict value) (header : IResponseHeader)
  : Result (dict value) :=
  let entry : dict value :=
    [("description",
      VStr (strOr (header_description header)
                  (header_name header ++ " header")))] in
  entry <-
    (match header_schema header with
     | Some schema =>
         if truthy schema then
           cleaned <- cleanSchema schema ;;
           ok (set "schema" cleaned entry)
         else ok entry
     | None => ok entry
     end) ;;
  ok (set (header_name header) (VObj entry) headers).


(** An event whose [http] is not documented while its [httpApi] is, and a
    function with no http event at all. *)
Definition shadowedEvent : IServerlessFunctionEvent :=
  {| http := Some {| path := "/pets"; method := "get"; authorizer := None;
                     documentation := None |};
     httpApi := Some (eventOf "/pets" "get" None plainDocumentation) |}.

Definition scheduled : IServerlessFunctionConfig :=
  {| _functionName := "nightly";
     events := [ {| http := None; httpApi := None |}; shadowedEvent ] |}.

Definition unbuildable : IServerlessFunctionConfig :=
  {| _functionName := "secured";
     events := [ {| http := Some (eventOf "/pets" "get" None
                                    (securedDocumentation ["jwt"]));
                    httpApi := None |} ] |}.


(** [definition.components.securitySchemes[name]]. *)
Definition securitySchemeOf (definition : value) (name : string)
  : option value :=
  match prop "components" definition with
  | Some components =>
      match prop "securitySchemes" components with
      | Some schemes => prop name schemes
      | None => None
      end
  | None => None
  end.

(** Lines 50-54: the entry of one security definition, [{ name, ...rest }]. *)
Definition schemeEntry (s : ISecurity) : value :=
  VObj (("name", VStr (security_name s)) :: security_rest s).

Definition lastScheme (declared : list ISecurity) (name : string)
  : option ISecurity :=
  pop (filter (fun s => security_name s =? name) declared).

(** A second definition of the scheme [jwt], for another authorizer. *)
Definition renamedScheme : ISecurity :=
  {| security_authorizerName := Some "other"; security_name := "jwt";
     security_rest := [("type", VStr "apiKey"); ("in", VStr "header")] |}.

Definition securedConfig (declared : list ISecurity)
  : IDefinitionConfig loc :=
  {| config_title := None; config_description := Some "Pets";
     config_version := None; config_servers := None;
     config_security := Some declared; config_models := None |}.

(** A destructuring default, [{ key = d }]: taken when the key is absent
    only. *)
Definition orDefault (x : option string) (d : string) : string :=
  match x with
  | Some s => s
  | None => d
  end.

(** The document [parse] merges into the definition of a new engine (lines
    40-58), before the models are read. *)
Definition seeded (uuid_v4 : string) (supplied : IDefinitionConfig loc)
  : value :=
  VObj [("openapi", VStr "3.0.0");
        ("components",
         VObj [("schemas", VObj []);
               ("securitySchemes",
                VObj (securitySchemesOf (orEmpty (config_security supplied))))]);
        ("info",
         VObj [("title", VStr (orDefault (config_title supplied) ""));
               ("description", VStr (orDefault (config_description supplied) ""));
               ("version", VStr (orDefault (config_version supplied) uuid_v4))]);
        ("servers", match config_servers supplied with
                    | Some servers => servers
                    | None => VArr []
                    end);
        ("paths", VObj [])].

Section Sourced.

Variable generateSchema : string -> string -> value.
Variable dereference : value -> value.

(** Lines 62-72: the schema the loop goes on with for a model -- the one
    derived from its [tsSchema], else its own [schema] when that is truthy
    -- or none when the model is skipped. *)
Definition sourceSchema (model : IModel) : option value :=
  match model_tsSchema model with
  | Some tsSchema =>
      Some (generateSchema (filePath tsSchema) (typeName tsSchema))
  | None =>
      match model_schema model with
      | Some schema => if truthy schema then Some schema else None
      | None => None
      end
  end.

(** Lines 65-72: the model object once the loop has passed it. *)
Definition derived (model : IModel) : IModel :=
  match model_tsSchema model with
  | Some tsSchema =>
      {| model_name := model_name model;
         model_schema :=
           Some (generateSchema (filePath tsSchema) (typeName tsSchema));
         model_tsSchema := None;
         model_examples := model_examples model |}
  | None => model
  end.

(** Line 73, for a model that is not skipped. *)
Definition registerModel (definition : value) (model : IModel)
  : Result value :=
  match sourceSchema model with
  | Some schema =>
      cleaned <- cleanSchema (dereference schema) ;;
      setSchema (model_name model) cleaned definition
  | None => ok definition
  end.

(** The schema a model is registered with. *)
Definition registered (model : IModel) : option value :=
  match sourceSchema model with
  | Some schema =>
      match cleanSchema (dereference schema) with
      | inr cleaned => Some cleaned
      | inl _ => None
      end
  | None => None
  end.

Definition isSourced (model : IModel) : bool :=
  match sourceSchema model with
  | Some _ => true
  | None => false
  end.

(** The last model of a name that the loop does not skip. *)
Definition lastSourced (declared : list IModel) (name : string)
  : option IModel :=
  pop (filter (fun model => (model_name model =? name) && isSourced model)
              declared).

(** A model the loop gets past: one it skips, or one whose dereferenced
    schema is not [null]. *)
Definition registrable (model : IModel) : bool :=
  match sourceSchema model with
  | Some schema =>
      match dereference schema with
      | VNull => false
      | _ => true
      end
  | None => true
  end.

End Sourced.

(** A definition that has a schema registry. *)
Definition hasRegistry (definition : value) : Prop :=
  exists fields components schemas,
    definition = VObj fields
    /\ get "components" fields = Some (VObj components)
    /\ get "schemas" components = Some (VObj schemas).

(** A deriver that finds no type, and two models of one name. *)
Definition deriveNothing (file type : string) : value := VNull.

Definition typedPet : IModel :=
  {| model_name := "Pet"; model_schema := Some (VStr "stale");
     model_tsSchema := Some {| filePath := "pet.ts"; typeName := "Pet" |};
     model_examples := None |}.

Definition skippedPet : IModel :=
  {| model_name := "Pet"; model_schema := Some VNull;
     model_tsSchema := None; model_examples := None |}.
(** * Properties *)

(** ** Objects *)

Section DictFacts.
Context {A : Type}.
Implicit Types (o : dict A) (k : string) (v : A).

Lemma get_set_same k v o : get k (set k v o) = Some v.
Proof.
  induction o as [|[k' v'] o IH]; simpl.
  - now rewrite String.eqb_refl.
  - destruct (k =? k') eqn:E; simpl; rewrite ?E, ?String.eqb_refl; auto.
Qed.

Lemma get_set_other k k' v o : k <> k' -> get k' (set k v o) = get k' o.
Proof.
  intros Hne. induction o as [|[k0 v0] o IH]; simpl.
  - destruct (k' =? k) eqn:E; auto.
    apply String.eqb_eq in E. congruence.
  - destruct (k =? k0) eqn:E; simpl.
    + apply String.eqb_eq in E. subst k0.
      destruct (k' =? k) eqn:E'; auto.
      apply String.eqb_eq in E'. congruence.
    + now rewrite IH.
Qed.

Lemma get_remove_same k o : get k (remove k o) = None.
Proof.
  induction o as [|[k' v'] o IH]; simpl; auto.
  destruct (k =? k') eqn:E; simpl; rewrite ?E; auto.
Qed.

Lemma get_remove_other k k' o : k <> k' -> get k' (remove k o) = get k' o.
Proof.
  intros Hne. induction o as [|[k0 v0] o IH]; simpl; auto.
  destruct (k =? k0) eqn:E; simpl.
  - apply String.eqb_eq in E. subst k0.
    destruct (k' =? k) eqn:E'; auto.
    apply String.eqb_eq in E'. congruence.
  - now rewrite IH.
Qed.

Lemma get_set k k' v o :
  get k' (set k v o) = if k' =? k then Some v else get k' o.
Proof.
  destruct (k' =? k) eqn:E.
  - apply String.eqb_eq in E. subst. apply get_set_same.
  - apply get_set_other. intros ->. now rewrite String.eqb_refl in E.
Qed.

End DictFacts.


(** ** Parameters *)

Lemma cleanSchema_truthy schema :
  truthy schema = true -> exists cleaned, cleanSchema schema = inr cleaned.
Proof.
  unfold cleanSchema, Utils.clone.
  destruct schema as [| | | | |fields]; simpl; try discriminate; eauto.
  intros _.
  destruct (get "$schema" fields) as [s|]; [destruct (truthy s)|]; eauto.
Qed.

Lemma parameterConfigOf_blocks type parameter :
  parameterConfigOf type parameter =
    (o <- withSchema parameter
            (withStyle parameter (withDeprecated parameter
                                    (located type parameter))) ;;
     ok (VObj (withContent parameter (withExamples parameter o)))).
Proof. reflexivity. Qed.

Lemma withSchema_returns parameter o :
  exists o', withSchema parameter o = inr o'
    /\ forall k, k <> "schema" -> get k o' = get k o.
Proof.
  unfold withSchema.
  destruct (param_schema parameter) as [schema|]; [|eauto].
  destruct (truthy schema) eqn:Hschema; [|eauto].
  destruct (cleanSchema_truthy _ Hschema) as [cleaned ->]. simpl.
  eexists; split; [reflexivity|].
  intros k Hk. apply get_set_other. congruence.
Qed.

Lemma get_withDeprecated parameter o k :
  k <> "deprecated" -> get k (withDeprecated parameter o) = get k o.
Proof.
  intros Hk. unfold withDeprecated.
  destruct (param_deprecated parameter); auto using get_set_other.
Qed.

Lemma get_withExamples parameter o k :
  k <> "examples" -> get k (withExamples parameter o) = get k o.
Proof.
  intros Hk. unfold withExamples.
  destruct (param_examples parameter) as [[]|]; auto using get_set_other.
Qed.

Lemma get_withContent parameter o k :
  k <> "content" -> get k (withContent parameter o) = get k o.
Proof.
  intros Hk. unfold withContent.
  destruct (param_content parameter) as [c|]; [destruct (truthy c)|];
    auto using get_set_other.
Qed.

Lemma get_withStyle parameter o k :
  k <> "style" -> k <> "explode" -> get k (withStyle parameter o) = get k o.
Proof.
  intros Hs He. unfold withStyle.
  destruct (param_style parameter); auto.
  rewrite !get_set_other by congruence. reflexivity.
Qed.

Lemma get_explode_withStyle parameter o :
  get "explode" o = None ->
  get "explode" (withStyle parameter o) =
    match param_style parameter with
    | Some style =>
        Some (VBool (match param_explode parameter with
                     | Some true => true
                     | _ => style =? "form"
                     end))
    | None => None
    end.
Proof.
  intros Ho. unfold withStyle.
  destruct (param_style parameter) as [style|]; auto.
  rewrite get_set_same. now destruct (param_explode parameter) as [[]|].
Qed.

Lemma get_located type parameter :
  get "name" (located type parameter) = Some (VStr (param_name parameter))
  /\ get "in" (located type parameter) = Some (VStr type)
  /\ get "required" (located type parameter) =
       Some (VBool (if type =? "path" then true
                    else boolOr (param_required parameter)))
  /\ get "explode" (located type parameter) = None.
Proof.
  unfold located.
  destruct (type =? "path"), (type =? "query"),
    (param_allowReserved parameter); repeat split; reflexivity.
Qed.

(** Every declaration yields a parameter object, with these keys. *)
Lemma parameterConfigOf_returns type parameter :
  exists fields, parameterConfigOf type parameter = inr (VObj fields)
    /\ get "name" fields = Some (VStr (param_name parameter))
    /\ get "in" fields = Some (VStr type)
    /\ get "required" fields =
         Some (VBool (if type =? "path" then true
                      else boolOr (param_required parameter)))
    /\ get "explode" fields =
         match param_style parameter with
         | Some style =>
             Some (VBool (match param_explode parameter with
                          | Some true => true
                          | _ => style =? "form"
                          end))
         | None => None
         end.
Proof.
  rewrite parameterConfigOf_blocks.
  destruct (withSchema_returns parameter
              (withStyle parameter (withDeprecated parameter
                                      (located type parameter))))
    as (o & -> & Ho).
  destruct (get_located type parameter) as (Hn & Hi & Hr & He).
  simpl. eexists; split; [reflexivity|].
  repeat split;
    rewrite get_withContent, get_withExamples, Ho by discriminate.
  - rewrite get_withStyle, get_withDeprecated by discriminate. exact Hn.
  - rewrite get_withStyle, get_withDeprecated by discriminate. exact Hi.
  - rewrite get_withStyle, get_withDeprecated by discriminate. exact Hr.
  - apply get_explode_withStyle.
    rewrite get_withDeprecated by discriminate. exact He.
Qed.

Lemma parameterConfigOf_emitted type parameter :
  parameterConfigOf type parameter = inr (emitted type parameter).
Proof.
  unfold emitted.
  destruct (parameterConfigOf_returns type parameter) as (fields & -> & _).
  reflexivity.
Qed.

Lemma push_block type block : forall acc,
  forEach
    (fun parameters parameter =>
       parameterConfig <- parameterConfigOf type parameter ;;
       inr (parameters ++ [parameterConfig])%list)
    block acc
  = inr (acc ++ map (emitted type) block)%list.
Proof.
  induction block as [|parameter block IH]; intros acc; simpl.
  - now rewrite app_nil_r.
  - rewrite parameterConfigOf_emitted. simpl. rewrite IH.
    now rewrite <- app_assoc.
Qed.

(** The parameters come out block by block, in declaration order. *)
Lemma getParametersFromConfig_blocks documentationConfig :
  getParametersFromConfig documentationConfig =
    inr (emittedBlock documentationConfig "path"
         ++ emittedBlock documentationConfig "query"
         ++ emittedBlock documentationConfig "header"
         ++ emittedBlock documentationConfig "cookie")%list.
Proof.
  unfold getParametersFromConfig, emittedBlock, ok. simpl forEach.
  repeat match goal with
         | |- context [paramBlock ?d ?t] =>
             destruct (paramBlock d t) as [?block|]
         end;
    repeat (simpl bind; rewrite ?push_block);
    rewrite ?app_nil_r, <- ?app_assoc; reflexivity.
Qed.

Lemma emitted_keys type parameter :
  exists fields, emitted type parameter = VObj fields
    /\ get "name" fields = Some (VStr (param_name parameter))
    /\ get "in" fields = Some (VStr type)
    /\ get "required" fields =
         Some (VBool (if type =? "path" then true
                      else boolOr (param_required parameter))).
Proof.
  unfold emitted.
  destruct (parameterConfigOf_returns type parameter)
    as (fields & -> & Hn & Hi & Hr & _).
  eauto.
Qed.

Lemma in_emittedBlock documentationConfig type fields :
  In (VObj fields) (emittedBlock documentationConfig type) ->
  get "in" fields = Some (VStr type)
  /\ (type = "path" -> get "required" fields = Some (VBool true)).
Proof.
  unfold emittedBlock.
  destruct (paramBlock documentationConfig type) as [block|]; [|intros []].
  rewrite in_map_iff. intros (parameter & Hp & _).
  destruct (emitted_keys type parameter) as (fields' & He & _ & Hi & Hr).
  rewrite He in Hp. injection Hp as <-. split; [exact Hi|].
  intros ->. exact Hr.
Qed.

(** C5.  For every entry of [pathParams] the emitted parameter object has
    [required: true], whatever [required] the declaration carries: the
    builder returns, its [i]-th object is the one of the [i]-th path
    declaration (same [name], [in: 'path'], [required: true]), and every
    emitted object located in the path has [required: true]. *)
Theorem path_parameters_are_required
  (documentationConfig : IEventDocumentation) (declared : list IParameter) :
  pathParams documentationConfig = Some declared ->
  exists parameters,
    getParametersFromConfig documentationConfig = inr parameters
    /\ (forall i parameter,
          nth_error declared i = Some parameter ->
          exists fields,
            nth_error parameters i = Some (VObj fields)
            /\ get "name" fields = Some (VStr (param_name parameter))
            /\ get "in" fields = Some (VStr "path")
            /\ get "required" fields = Some (VBool true))
    /\ (forall fields,
          In (VObj fields) parameters ->
          get "in" fields = Some (VStr "path") ->
          get "required" fields = Some (VBool true)).
Proof.
  intros Hpath. rewrite getParametersFromConfig_blocks.
  eexists; split; [reflexivity|]. split.
  - intros i parameter Hi.
    destruct (emitted_keys "path" parameter) as (fields & He & Hn & Hin & Hr).
    exists fields. repeat split; auto.
    unfold emittedBlock at 1.
    change (paramBlock documentationConfig "path")
      with (pathParams documentationConfig).
    rewrite Hpath.
    rewrite nth_error_app1
      by (rewrite length_map; apply nth_error_Some; congruence).
    rewrite nth_error_map, Hi. simpl. now rewrite He.
  - intros fields Hin Hloc.
    rewrite !in_app_iff in Hin.
    destruct Hin as [H|[H|[H|H]]];
      apply in_emittedBlock in H; destruct H as [Hi Hr];
      try (rewrite Hi in Hloc; discriminate).
    now apply Hr.
Qed.

Lemma path_parameters_are_required_witness :
  exists parameters,
    getParametersFromConfig
      {| operationId := None; summary := None; description := None;
         tags := None; deprecated := None; requestBody := None;
         requestModels := None;
         pathParams :=
           Some [ {| param_name := "id"; param_description := None;
                     param_required := Some false;
                     param_allowEmptyValue := None;
                     param_allowReserved := None; param_deprecated := None;
                     param_style := None; param_explode := None;
                     param_schema := None; param_examples := None;
                     param_content := None |} ];
         queryParams := Some [plainParameter "limit"];
         requestHeaders := None; cookieParams := None;
         methodResponses := None; security := None |}
    = inr parameters
    /\ nth_error parameters 0 =
         Some (VObj [("name", VStr "id"); ("in", VStr "path");
                     ("description", VStr ""); ("required", VBool true)]).
Proof.
  destruct (path_parameters_are_required
              {| operationId := None; summary := None; description := None;
                 tags := None; deprecated := None; requestBody := None;
                 requestModels := None;
                 pathParams :=
                   Some [ {| param_name := "id"; param_description := None;
                             param_required := Some false;
                             param_allowEmptyValue := None;
                             param_allowReserved := None;
                             param_deprecated := None;
                             param_style := None; param_explode := None;
                             param_schema := None; param_examples := None;
                             param_content := None |} ];
                 queryParams := Some [plainParameter "limit"];
                 requestHeaders := None; cookieParams := None;
                 methodResponses := None; security := None |}
              _ eq_refl) as (parameters & Hr & _).
  exists parameters. split; [exact Hr|].
  vm_compute in Hr. injection Hr as <-. reflexivity.
Defined.

(** C2.  A query parameter declared with [style: 'form'] and an explicit
    [explode: false] is emitted with [explode: true]: the conditional of
    line 234 tests the truthiness of [parameter.explode], so a declared
    [false] falls through to the default of the style. *)
Theorem explicit_explode_false_is_overridden :
  getParametersFromConfig
    {| operationId := None; summary := None; description := None;
       tags := None; deprecated := None; requestBody := None;
       requestModels := None; pathParams := None;
       queryParams :=
         Some [ {| param_name := "ids"; param_description := None;
                   param_required := None; param_allowEmptyValue := None;
                   param_allowReserved := None; param_deprecated := None;
                   param_style := Some "form"; param_explode := Some false;
                   param_schema := None; param_examples := None;
                   param_content := None |} ];
       requestHeaders := None; cookieParams := None;
       methodResponses := None; security := None |}
  = inr [ VObj [("name", VStr "ids"); ("in", VStr "query");
                ("description", VStr ""); ("required", VBool false);
                ("allowEmptyValue", VBool false);
                ("style", VStr "form"); ("explode", VBool true)] ].
Proof. reflexivity. Qed.

(** The rule the code follows for [explode], for every declaration that
    specifies [style]: [true] when the declared [explode] is [true],
    otherwise [style === 'form']. *)
Lemma explode_rule type parameter style :
  param_style parameter = Some style ->
  exists fields,
    parameterConfigOf type parameter = inr (VObj fields)
    /\ get "explode" fields =
         Some (VBool (match param_explode parameter with
                      | Some true => true
                      | _ => style =? "form"
                      end)).
Proof.
  intros Hs.
  destruct (parameterConfigOf_returns type parameter)
    as (fields & Hr & _ & _ & _ & He).
  rewrite Hs in He. eauto.
Qed.

(** ** The merge law *)

Lemma merge_objects t s :
  Utils.merge (VObj t) (VObj s) = VObj (fold_left mergeKey s t).
Proof.
  simpl. f_equal. revert t.
  induction s as [|[k sv] s IH]; intros t; simpl; [reflexivity|].
  now rewrite IH.
Qed.

Lemma merge_leaf tv sv :
  (forall s, sv <> VObj s) -> Utils.merge tv sv = sv.
Proof.
  intros Hleaf. destruct sv as [| | | | |s]; try reflexivity.
  now destruct (Hleaf s).
Qed.

Lemma merge_over_leaf tv sv :
  (forall t, tv <> VObj t) -> Utils.merge tv sv = sv.
Proof.
  intros Hleaf. destruct sv as [| | | | |s]; try reflexivity.
  destruct tv as [| | | | |t]; try reflexivity. now destruct (Hleaf t).
Qed.

Lemma get_mergeKey acc k k' sv :
  get k (mergeKey acc (k', sv)) =
    if k =? k'
    then Some (match get k' acc with
               | Some tv => Utils.merge tv sv
               | None => sv
               end)
    else get k acc.
Proof. unfold mergeKey. simpl. apply get_set. Qed.

(** A key of the target that the source does not have is preserved. *)
Lemma get_merge_target_only s : forall t k,
  ~ In k (keys s) -> get k (fold_left mergeKey s t) = get k t.
Proof.
  induction s as [|[k' sv] s IH]; intros t k Hk; simpl; [reflexivity|].
  simpl in Hk. rewrite IH by tauto. rewrite get_mergeKey.
  destruct (k =? k') eqn:E; [|reflexivity].
  apply String.eqb_eq in E. subst. tauto.
Qed.

(** A key of the source ends up merged with the target's value for it, or
    copied when the target has none. *)
Lemma get_merge_source s : forall t k sv,
  NoDup (keys s) -> In (k, sv) s ->
  get k (fold_left mergeKey s t) =
    Some (match get k t with
          | Some tv => Utils.merge tv sv
          | None => sv
          end).
Proof.
  induction s as [|[k' sv'] s IH]; intros t k sv Hnd Hin; simpl; [easy|].
  simpl in Hnd. inversion Hnd as [|? ? Hnotin Hnd']; subst.
  destruct Hin as [Heq|Hin].
  - injection Heq as -> ->.
    rewrite get_merge_target_only by assumption.
    rewrite get_mergeKey, String.eqb_refl. reflexivity.
  - rewrite (IH _ _ _ Hnd' Hin). rewrite get_mergeKey.
    destruct (k =? k') eqn:E; [|reflexivity].
    apply String.eqb_eq in E. subst. exfalso. apply Hnotin.
    unfold keys. apply in_map_iff. now exists (k', sv).
Qed.

Lemma merge_single t k sv :
  Utils.merge (VObj t) (VObj [(k, sv)]) =
    VObj (set k (match get k t with
                 | Some tv => Utils.merge tv sv
                 | None => sv
                 end) t).
Proof. reflexivity. Qed.

Lemma merge_is_object tv s :
  exists fields, Utils.merge tv (VObj s) = VObj fields.
Proof. destruct tv; eexists; reflexivity. Qed.

(** ** Loops *)

Lemma forEach_app {A S} (body : S -> A -> Result S) xs ys acc :
  forEach body (xs ++ ys) acc =
    (acc' <- forEach body xs acc ;; forEach body ys acc').
Proof.
  revert acc. induction xs as [|x xs IH]; intros acc; simpl; [reflexivity|].
  destruct (body acc x); simpl; auto.
Qed.

(** A loop whose body returns on every element returns. *)
Lemma forEach_returns {A S} (body : S -> A -> Result S) xs :
  (forall acc x, In x xs -> exists acc', body acc x = inr acc') ->
  forall acc, exists acc', forEach body xs acc = inr acc'.
Proof.
  induction xs as [|x xs IH]; intros Hbody acc; simpl; [eexists; reflexivity|].
  destruct (Hbody acc x (or_introl eq_refl)) as [acc' ->]. simpl.
  apply IH. intros ? ? ?. apply Hbody. now right.
Qed.

(** A loop throws only what its body throws. *)
Lemma forEach_throws {A S} (body : S -> A -> Result S) (P : exn -> Prop) xs :
  (forall acc x e, In x xs -> body acc x = inl e -> P e) ->
  forall acc e, forEach body xs acc = inl e -> P e.
Proof.
  induction xs as [|x xs IH]; intros Hbody acc e; simpl; [discriminate|].
  destruct (body acc x) as [e'|acc'] eqn:Hx; simpl.
  - intros [= <-]. eapply Hbody; [now left|exact Hx].
  - apply IH. intros ? ? ? ?. apply Hbody. now right.
Qed.

(** An invariant of the accumulator survives the loop. *)
Lemma forEach_invariant {A S} (body : S -> A -> Result S) (I : S -> Prop) xs :
  (forall acc x acc', In x xs -> I acc -> body acc x = inr acc' -> I acc') ->
  forall acc acc', I acc -> forEach body xs acc = inr acc' -> I acc'.
Proof.
  induction xs as [|x xs IH]; intros Hbody acc acc' Hacc; simpl.
  - now intros [= <-].
  - destruct (body acc x) as [e|acc1] eqn:Hx; simpl; [discriminate|].
    apply IH.
    + intros ? ? ? ?. apply Hbody. now right.
    + eapply Hbody; [now left|exact Hacc|exact Hx].
Qed.

(** ** Operations *)

Lemma getOperationFromConfig_blocks cfg funcName config :
  getOperationFromConfig cfg funcName config =
    match documentation config with
    | None =>
        throw (TypeError "Cannot read properties of undefined (documentation)")
    | Some documentationConfig =>
        o <- withRequestBody cfg documentationConfig
               (headline funcName documentationConfig) ;;
        parameters <- getParametersFromConfig documentationConfig ;;
        responses <- getResponsesFromConfig cfg documentationConfig ;;
        withSecurity cfg documentationConfig
          (withAuthorizer cfg config
             (set "responses" responses
                (set "parameters" (VArr parameters) o)))
    end.
Proof. reflexivity. Qed.

(** A loop whose body succeeds or throws according to a test of the element
    alone succeeds exactly when every element passes the test. *)
Lemma forEach_decide {A S} (body : S -> A -> Result S) (good : A -> bool)
  (I : S -> Prop) (P : exn -> Prop) xs :
  (forall acc x, In x xs -> I acc ->
     if good x then exists acc', body acc x = inr acc' /\ I acc'
     else exists e, body acc x = inl e /\ P e) ->
  forall acc, I acc ->
    if forallb good xs then exists acc', forEach body xs acc = inr acc' /\ I acc'
    else exists e, forEach body xs acc = inl e /\ P e.
Proof.
  induction xs as [|x xs IH]; intros Hbody acc Hacc; simpl; [eauto|].
  pose proof (Hbody acc x (or_introl eq_refl) Hacc) as Hx.
  destruct (good x); simpl.
  - destruct Hx as (acc' & -> & Hacc'). simpl.
    apply IH; [|exact Hacc'].
    intros ? ? ?. apply Hbody. now right.
  - destruct Hx as (e & -> & He). simpl. eauto.
Qed.

Lemma forallb_const {A} (b : bool) (x : A) xs :
  forallb (fun _ => b) (x :: xs) = b.
Proof.
  destruct b; simpl; [|reflexivity].
  induction xs; simpl; auto.
Qed.

Lemma attachExamples_object target s : isObject (attachExamples target (VObj s)).
Proof.
  unfold attachExamples.
  destruct (model_examples target) as [examples|]; [|now exists s].
  destruct (truthy examples); [|now exists s].
  apply merge_is_object.
Qed.

Lemma getRequestBodiesFromConfig_decide cfg documentationConfig models :
  requestModels documentationConfig = Some models ->
  if match models with [] => true | _ :: _ => modelsDeclared cfg end
  then exists body,
      getRequestBodiesFromConfig cfg documentationConfig = inr body
      /\ isObject body
  else exists e,
      getRequestBodiesFromConfig cfg documentationConfig = inl e
      /\ isTypeError e.
Proof.
  intros Hm. unfold getRequestBodiesFromConfig. rewrite Hm.
  destruct models as [|entry models];
    [simpl; eexists; split; eauto; now exists []|].
  set (body := fun requestBodies (entry : string * string) => _).
  rewrite <- (forallb_const (modelsDeclared cfg) entry models).
  apply (forEach_decide body (fun _ => modelsDeclared cfg)
           isObject isTypeError); [|now exists []].
  intros acc [requestModelType modelName] _ Hacc.
  unfold body, modelsDeclared, configModels.
  destruct (config_models cfg) as [declared|]; simpl.
  - destruct (pop _) as [requestModel|]; [|eauto].
    eexists; split; [reflexivity|]. apply merge_is_object.
  - eexists; split; [reflexivity|]. now eexists.
Qed.

Lemma getResponseContent_decide cfg response :
  if contentBuildable cfg response
  then exists content,
      getResponseContent cfg response = inr content /\ isObject content
  else exists e, getResponseContent cfg response = inl e /\ isTypeError e.
Proof.
  unfold getResponseContent, contentBuildable.
  destruct response as [[|entry response]|];
    [simpl; eexists; split; eauto; now exists []| |
     eexists; split; [reflexivity|now eexists]].
  set (body := fun content (entry : string * string) => _).
  rewrite <- (forallb_const (modelsDeclared cfg) entry response).
  apply (forEach_decide body (fun _ => modelsDeclared cfg)
           isObject isTypeError); [|now exists []].
  intros acc [responseKey modelName] _ Hacc.
  unfold body, modelsDeclared, configModels.
  destruct (config_models cfg) as [declared|]; simpl.
  - destruct (find _ declared) as [responseModel|]; [|eauto].
    eexists; split; [reflexivity|]. apply merge_is_object.
  - eexists; split; [reflexivity|]. now eexists.
Qed.

Lemma responseHeadersOf_returns declared :
  exists headers, responseHeadersOf declared = inr headers.
Proof.
  unfold responseHeadersOf. apply forEach_returns.
  intros headers header _.
  destruct (header_schema header) as [schema|]; [|eexists; reflexivity].
  destruct (truthy schema) eqn:Hs; [|eexists; reflexivity].
  destruct (cleanSchema_truthy _ Hs) as [cleaned ->]. eexists; reflexivity.
Qed.

Lemma methodResponseConfigOf_decide cfg response :
  if contentBuildable cfg (responseModels response)
  then exists entry content,
      methodResponseConfigOf cfg response = inr (VObj entry)
      /\ getResponseContent cfg (responseModels response) = inr content
      /\ get "content" entry = Some content
  else exists e, methodResponseConfigOf cfg response = inl e /\ isTypeError e.
Proof.
  unfold methodResponseConfigOf.
  pose proof (getResponseContent_decide cfg (responseModels response)) as Hc.
  destruct (contentBuildable cfg (responseModels response)).
  - destruct Hc as (content & -> & _). simpl.
    destruct (responseHeaders response) as [declared|].
    + destruct (responseHeadersOf_returns declared) as [headers ->]. simpl.
      do 2 eexists; repeat split; reflexivity.
    + do 2 eexists; repeat split; reflexivity.
  - destruct Hc as (e & -> & He). simpl. eauto.
Qed.

Lemma getResponsesFromConfig_decide cfg documentationConfig :
  if match methodResponses documentationConfig with
     | Some declared =>
         forallb (fun response =>
                    contentBuildable cfg (responseModels response)) declared
     | None => true
     end
  then exists responses,
      getResponsesFromConfig cfg documentationConfig = inr responses
      /\ isObject responses
  else exists e,
      getResponsesFromConfig cfg documentationConfig = inl e /\ isTypeError e.
Proof.
  unfold getResponsesFromConfig.
  destruct (methodResponses documentationConfig) as [declared|];
    [|eexists; split; eauto; now exists []].
  apply (forEach_decide _ _ isObject isTypeError); [|now exists []].
  intros acc response _ Hacc.
  pose proof (methodResponseConfigOf_decide cfg response) as Hr.
  destruct (contentBuildable cfg (responseModels response)).
  - destruct Hr as (entry & content & -> & _). simpl.
    eexists; split; [reflexivity|]. apply merge_is_object.
  - destruct Hr as (e & -> & He). simpl. eauto.
Qed.

Lemma withSecurity_decide cfg documentationConfig o :
  if match security documentationConfig, config_security cfg with
     | Some _, None => false
     | _, _ => true
     end
  then exists fields, withSecurity cfg documentationConfig o = inr (VObj fields)
  else exists e, withSecurity cfg documentationConfig o = inl e /\ isTypeError e.
Proof.
  unfold withSecurity.
  destruct (security documentationConfig) as [names|]; [|eauto].
  destruct (config_security cfg) as [declared|].
  - destruct (0 <? _)%nat; eauto.
  - eexists; split; [reflexivity|]. now eexists.
Qed.

(** Operation construction returns an object exactly on the buildable
    inputs, and throws a TypeError on the others. *)
Lemma getOperationFromConfig_decide cfg funcName config documentationConfig :
  documentation config = Some documentationConfig ->
  if buildable cfg documentationConfig
  then exists fields,
      getOperationFromConfig cfg funcName config = inr (VObj fields)
  else exists e,
      getOperationFromConfig cfg funcName config = inl e /\ isTypeError e.
Proof.
  intros Hdoc. rewrite getOperationFromConfig_blocks, Hdoc.
  unfold buildable, withRequestBody.
  rewrite getParametersFromConfig_blocks.
  pose proof (getResponsesFromConfig_decide cfg documentationConfig) as Hr.
  assert (Hb : if match requestModels documentationConfig with
                  | Some (_ :: _) => modelsDeclared cfg
                  | _ => true
                  end
               then exists o,
                   match requestModels documentationConfig with
                   | Some _ =>
                       body <- getRequestBodiesFromConfig cfg
                                 documentationConfig ;;
                       ok (set "requestBody" body
                             (headline funcName documentationConfig))
                   | None => ok (headline funcName documentationConfig)
                   end = inr o
               else exists e,
                   match requestModels documentationConfig with
                   | Some _ =>
                       body <- getRequestBodiesFromConfig cfg
                                 documentationConfig ;;
                       ok (set "requestBody" body
                             (headline funcName documentationConfig))
                   | None => ok (headline funcName documentationConfig)
                   end = inl e /\ isTypeError e).
  { destruct (requestModels documentationConfig) as [models|] eqn:Hm; [|eauto].
    pose proof (getRequestBodiesFromConfig_decide cfg _ _ Hm) as Hq.
    destruct models as [|entry models].
    - destruct Hq as (body & -> & _). simpl. eauto.
    - destruct (modelsDeclared cfg).
      + destruct Hq as (body & -> & _). simpl. eauto.
      + destruct Hq as (e & -> & He). simpl. eauto. }
  destruct (match requestModels documentationConfig with
            | Some (_ :: _) => modelsDeclared cfg
            | _ => true
            end); simpl andb.
  2: { destruct Hb as (e & -> & He). simpl. eauto. }
  destruct Hb as (o & ->). simpl bind.
  destruct (match methodResponses documentationConfig with
            | Some declared => forallb _ declared
            | None => true
            end); simpl andb.
  2: { destruct Hr as (e & -> & He). simpl. eauto. }
  destruct Hr as (responses & -> & _). simpl bind.
  apply withSecurity_decide.
Qed.

(** ** Security resolution *)

Lemma sameName_eq a b : sameName a b = true <-> a = b.
Proof.
  destruct a as [x|], b as [y|]; simpl; split; try congruence; try easy.
  - intros H. apply String.eqb_eq in H. congruence.
  - intros [= ->]. apply String.eqb_refl.
Qed.

Lemma includes_In names x : includes names x = true <-> In x names.
Proof.
  unfold includes. rewrite existsb_exists. split.
  - intros (n & Hn & E). apply String.eqb_eq in E. now subst.
  - intros H. exists x. split; [exact H|apply String.eqb_refl].
Qed.

Lemma authorizerMatch_Some cfg config s :
  authorizerMatch cfg config = Some s -> authorizerRule cfg config s.
Proof.
  unfold authorizerMatch, authorizerRule.
  destruct (config_security cfg) as [declared|]; [|discriminate].
  destruct (authorizer config) as [a|] eqn:Ha; [|discriminate].
  destruct (truthyAuthorizer (Some a)) eqn:Ht; [|discriminate].
  intros Hf. apply find_some in Hf. destruct Hf as [Hin Hs].
  apply sameName_eq in Hs. exists declared, a. auto.
Qed.

Lemma documentedMatches_In cfg documentationConfig s :
  In s (documentedMatches cfg documentationConfig)
  <-> documentedRule cfg documentationConfig s.
Proof.
  unfold documentedMatches, documentedRule.
  destruct (security documentationConfig) as [names|].
  - destruct (config_security cfg) as [declared|].
    + rewrite filter_In, includes_In. split.
      * intros [Hin Hn]. exists declared, names. auto.
      * intros (? & ? & [= <-] & [= <-] & Hin & Hn). auto.
    + split; [intros []|]. intros (? & ? & H & _). discriminate.
  - split; [intros []|]. intros (? & ? & _ & H & _). discriminate.
Qed.

Lemma get_headline funcName documentationConfig k :
  k <> "operationId" -> k <> "summary" -> k <> "description" ->
  k <> "tags" -> k <> "deprecated" ->
  get k (headline funcName documentationConfig) = None.
Proof.
  intros H1 H2 H3 H4 H5. unfold headline.
  destruct (boolOr _); [rewrite get_set_other by congruence|];
    (destruct (tags _); [rewrite get_set_other by congruence|]);
    (destruct (description _) as [d|];
     [destruct (d =? ""); [|rewrite get_set_other by congruence]|]);
    (destruct (summary _) as [s|];
     [destruct (s =? ""); [|rewrite get_set_other by congruence]|]);
    simpl; (destruct (k =? "operationId") eqn:E; [|reflexivity]);
    apply String.eqb_eq in E; congruence.
Qed.

Lemma withRequestBody_frame cfg documentationConfig o o' k :
  withRequestBody cfg documentationConfig o = inr o' ->
  k <> "requestBody" -> get k o' = get k o.
Proof.
  unfold withRequestBody.
  destruct (requestModels documentationConfig); [|now intros [= <-]].
  destruct (getRequestBodiesFromConfig _ _); simpl; [discriminate|].
  intros [= <-] Hk. now apply get_set_other.
Qed.

Lemma get_security_withAuthorizer cfg config o :
  get "security" o = None ->
  get "security" (withAuthorizer cfg config o) =
    option_map (fun s => VArr [requirement s]) (authorizerMatch cfg config).
Proof.
  intros Ho. unfold withAuthorizer, authorizerMatch.
  destruct (config_security cfg) as [declared|]; [|exact Ho].
  destruct (truthyAuthorizer _); [|exact Ho].
  destruct (find _ declared); [apply get_set_same|exact Ho].
Qed.

(** The security requirement of a built operation: the documented matches
    when there are any, else the authorizer's match, else nothing. *)
Lemma security_of_operation cfg funcName config documentationConfig operation :
  documentation config = Some documentationConfig ->
  getOperationFromConfig cfg funcName config = inr operation ->
  prop "security" operation =
    match documentedMatches cfg documentationConfig with
    | [] => option_map (fun s => VArr [requirement s])
                       (authorizerMatch cfg config)
    | securities => Some (VArr (map requirement securities))
    end.
Proof.
  intros Hdoc. rewrite getOperationFromConfig_blocks, Hdoc.
  destruct (withRequestBody _ _ _) as [|o] eqn:Ho; simpl; [discriminate|].
  destruct (getParametersFromConfig _) as [|parameters];
    simpl; [discriminate|].
  destruct (getResponsesFromConfig _ _) as [|responses];
    simpl; [discriminate|].
  assert (Hbase : get "security"
                    (withAuthorizer cfg config
                       (set "responses" responses
                          (set "parameters" (VArr parameters) o)))
                  = option_map (fun s => VArr [requirement s])
                      (authorizerMatch cfg config)).
  { apply get_security_withAuthorizer.
    rewrite !get_set_other by discriminate.
    rewrite (withRequestBody_frame _ _ _ _ _ Ho) by discriminate.
    apply get_headline; discriminate. }
  unfold withSecurity, documentedMatches.
  destruct (security documentationConfig) as [names|];
    [|intros [= <-]; exact Hbase].
  destruct (config_security cfg) as [declared|] eqn:Hsec; [|discriminate].
  destruct (filter _ declared) as [|s securities]; simpl.
  - intros [= <-]. exact Hbase.
  - intros [= <-]. simpl. apply get_set_same.
Qed.

Lemma requirement_inj s s' :
  requirement s = requirement s' -> security_name s = security_name s'.
Proof. unfold requirement. congruence. Qed.

Lemma NoDup_requirements (keep : ISecurity -> bool) declared :
  NoDup (map security_name declared) ->
  NoDup (map requirement (filter keep declared)).
Proof.
  induction declared as [|s declared IH]; simpl; [constructor|].
  intros Hnd. inversion Hnd as [|? ? Hnotin Hnd']; subst.
  destruct (keep s); simpl; [|auto].
  constructor; [|auto].
  rewrite in_map_iff. intros (s' & Heq & Hin).
  apply filter_In in Hin. destruct Hin as [Hin _].
  apply Hnotin. apply requirement_inj in Heq. rewrite <- Heq.
  now apply in_map.
Qed.

(** C3.  On every operation the builder returns: when an authorizer of the
    event matches a security definition and the documented [security] list
    names at least one declared definition, the operation's [security] is
    the documented one alone -- one [{name: []}] entry for each declared
    definition the list names, and no other entry; entries are distinct
    when the definitions' names are.  When neither rule matches, the
    operation has no [security] key. *)
Theorem documented_security_replaces_authorizer
  (cfg : IDefinitionConfig IModel) (funcName : string)
  (config : OperationConfig) (documentationConfig : IEventDocumentation)
  (operation : value) :
  documentation config = Some documentationConfig ->
  getOperationFromConfig cfg funcName config = inr operation ->
  ((exists s, authorizerRule cfg config s) ->
   (exists s, documentedRule cfg documentationConfig s) ->
   exists entries,
     prop "security" operation = Some (VArr entries)
     /\ (forall e, In e entries <->
           exists s, documentedRule cfg documentationConfig s
                     /\ e = VObj [(security_name s, VArr [])])
     /\ (forall declared names,
           config_security cfg = Some declared ->
           security documentationConfig = Some names ->
           entries =
             map requirement
               (filter (fun s => includes names (security_name s)) declared)
           /\ (NoDup (map security_name declared) -> NoDup entries)))
  /\ ((forall s, ~ authorizerRule cfg config s) ->
      (forall s, ~ documentedRule cfg documentationConfig s) ->
      prop "security" operation = None).
Proof.
  intros Hdoc Hop.
  pose proof (security_of_operation _ _ _ _ _ Hdoc Hop) as Hsec.
  split.
  - intros _ [s Hs]. apply documentedMatches_In in Hs.
    destruct (documentedMatches cfg documentationConfig)
      as [|s0 securities] eqn:Hm; [destruct Hs|].
    exists (map requirement (s0 :: securities)). split; [exact Hsec|]. split.
    + intros e. rewrite in_map_iff. split.
      * intros (s' & <- & Hin). exists s'. split; [|reflexivity].
        apply documentedMatches_In. now rewrite Hm.
      * intros (s' & Hr & ->). exists s'. split; [reflexivity|].
        apply documentedMatches_In in Hr. now rewrite Hm in Hr.
    + intros declared names Hd Hn. unfold documentedMatches in Hm.
      rewrite Hd, Hn in Hm. rewrite <- Hm. split; [reflexivity|].
      apply NoDup_requirements.
  - intros Ha Hd. rewrite Hsec.
    destruct (documentedMatches cfg documentationConfig)
      as [|s0 securities] eqn:Hm.
    + destruct (authorizerMatch cfg config) as [s|] eqn:Hs; [|reflexivity].
      apply authorizerMatch_Some in Hs. now destruct (Ha s).
    + destruct (Hd s0). apply documentedMatches_In. rewrite Hm. now left.
Qed.

(** C10.  A block that lists [security] names under a configuration with
    no [security] definitions makes operation construction throw a
    TypeError: line 176 calls [filter] on [undefined]. *)
Theorem documented_security_without_definitions_throws
  (cfg : IDefinitionConfig IModel) (funcName : string)
  (config : OperationConfig) (documentationConfig : IEventDocumentation)
  (names : list string) :
  documentation config = Some documentationConfig ->
  security documentationConfig = Some names ->
  config_security cfg = None ->
  exists what,
    getOperationFromConfig cfg funcName config = inl (TypeError what).
Proof.
  intros Hdoc Hnames Hsec.
  pose proof (getOperationFromConfig_decide cfg funcName _ _ Hdoc) as H.
  replace (buildable cfg documentationConfig) with false in H.
  - destruct H as (e & He & what & ->). eauto.
  - unfold buildable. rewrite Hnames, Hsec.
    now rewrite andb_false_r.
Qed.

Lemma documented_security_replaces_authorizer_witness :
  exists operation,
    getOperationFromConfig
      (configOf (Some [jwtScheme; apiKeyScheme]) None) "listPets"
      (eventOf "/pets" "get" (Some (AuthorizerName "auth"))
         (securedDocumentation ["apiKey"]))
    = inr operation
    /\ prop "security" operation = Some (VArr [VObj [("apiKey", VArr [])]]).
Proof.
  eexists. split; [reflexivity|].
  assert (Ha : exists s,
             authorizerRule (configOf (Some [jwtScheme; apiKeyScheme]) None)
               (eventOf "/pets" "get" (Some (AuthorizerName "auth"))
                  (securedDocumentation ["apiKey"])) s).
  { exists jwtScheme, [jwtScheme; apiKeyScheme], (AuthorizerName "auth").
    repeat split; simpl; auto. }
  assert (Hd : exists s,
             documentedRule (configOf (Some [jwtScheme; apiKeyScheme]) None)
               (securedDocumentation ["apiKey"]) s).
  { exists apiKeyScheme, [jwtScheme; apiKeyScheme], ["apiKey"].
    repeat split; simpl; auto. }
  destruct (proj1 (documented_security_replaces_authorizer
                     (configOf (Some [jwtScheme; apiKeyScheme]) None)
                     "listPets"
                     (eventOf "/pets" "get" (Some (AuthorizerName "auth"))
                        (securedDocumentation ["apiKey"]))
                     (securedDocumentation ["apiKey"]) _ eq_refl eq_refl)
                  Ha Hd)
    as (entries & Hsec & _ & Hexact).
  destruct (Hexact _ _ eq_refl eq_refl) as [-> _]. exact Hsec.
Defined.

Lemma documented_security_without_definitions_throws_witness :
  exists what,
    getOperationFromConfig (configOf None None) "listPets"
      (eventOf "/pets" "get" None (securedDocumentation ["apiKey"]))
    = inl (TypeError what).
Proof.
  exact (documented_security_without_definitions_throws
           (configOf None None) "listPets"
           (eventOf "/pets" "get" None (securedDocumentation ["apiKey"]))
           (securedDocumentation ["apiKey"]) ["apiKey"]
           eq_refl eq_refl eq_refl).
Defined.

(** ** The path tree *)

Lemma readEvents_contribute cfg funcConfig httpEvents : forall definition,
  forEach (readEvent cfg funcConfig) (getHttpEvents httpEvents) definition =
    forEach (contribute cfg)
      (flat_map
         (fun httpEvent =>
            match orElse (http httpEvent) (httpApi httpEvent) with
            | Some config =>
                match documentation config with
                | Some doc => [(funcConfig, config, doc)]
                | None => []
                end
            | None => []
            end) httpEvents)
      definition.
Proof.
  induction httpEvents as [|httpEvent httpEvents IH]; intros definition;
    [reflexivity|].
  simpl flat_map. rewrite forEach_app. simpl getHttpEvents.
  assert (Hev : forall d,
             readEvent cfg funcConfig d httpEvent =
               forEach (contribute cfg)
                 match orElse (http httpEvent) (httpApi httpEvent) with
                 | Some config =>
                     match documentation config with
                     | Some doc => [(funcConfig, config, doc)]
                     | None => []
                     end
                 | None => []
                 end d).
  { intros d. unfold readEvent.
    destruct (orElse (http httpEvent) (httpApi httpEvent)) as [config|];
      [|reflexivity].
    destruct (documentation config) as [doc|] eqn:Hdoc; [|reflexivity].
    simpl. unfold contribute, built, operationName, pathConfigOf. simpl.
    now destruct (getOperationFromConfig _ _ _). }
  destruct (http httpEvent) as [c|] eqn:Hh;
    [|destruct (httpApi httpEvent) as [c|] eqn:Ha].
  - simpl forEach at 1. rewrite Hev, ?Hh.
    destruct (forEach _ _ definition); simpl; auto.
  - simpl forEach at 1. rewrite Hev, ?Hh, ?Ha.
    destruct (forEach _ _ definition); simpl; auto.
  - simpl. apply IH.
Qed.

(** [readFunctions] merges the documented events one after the other. *)
Lemma readFunctions_contribute cfg functions : forall definition,
  readFunctions cfg definition functions =
    forEach (contribute cfg) (documented functions) definition.
Proof.
  unfold readFunctions, documented.
  induction functions as [|funcConfig functions IH]; intros definition;
    [reflexivity|].
  simpl. rewrite forEach_app. unfold documentedOf at 1.
  rewrite <- readEvents_contribute.
  destruct (forEach _ _ definition); simpl; auto.
Qed.

Lemma in_documented functions funcConfig config doc :
  In (funcConfig, config, doc) (documented functions) <->
  In funcConfig functions
  /\ exists httpEvent,
       In httpEvent (events funcConfig)
       /\ orElse (http httpEvent) (httpApi httpEvent) = Some config
       /\ documentation config = Some doc.
Proof.
  unfold documented, documentedOf. rewrite in_flat_map. split.
  - intros (fc & Hfc & Hin). rewrite in_flat_map in Hin.
    destruct Hin as (httpEvent & Hev & Hin).
    destruct (orElse _ _) as [c|] eqn:Hc; [|destruct Hin].
    destruct (documentation c) as [d|] eqn:Hd; [|destruct Hin].
    destruct Hin as [[= <- <- <-]|[]]. eauto.
  - intros (Hfc & httpEvent & Hev & Hc & Hd).
    exists funcConfig. split; [exact Hfc|]. rewrite in_flat_map.
    exists httpEvent. split; [exact Hev|]. rewrite Hc, Hd. now left.
Qed.

Lemma built_object cfg c operation :
  built cfg c = inr operation -> isObject operation.
Proof.
  destruct c as [[funcConfig config] doc]. unfold built.
  destruct (documentation config) as [d|] eqn:Hd.
  - pose proof (getOperationFromConfig_decide cfg
                  (operationName funcConfig doc) _ _ Hd) as H.
    destruct (buildable cfg d).
    + destruct H as [fields ->]. intros [= <-]. now exists fields.
    + destruct H as (e & -> & _). discriminate.
  - rewrite getOperationFromConfig_blocks, Hd. discriminate.
Qed.

Lemma entryAt_mergePaths fields paths config operation p m :
  get "paths" fields = Some (VObj paths) ->
  entryAt (mergePaths (VObj fields) (pathConfigOf config operation)) p m =
    if (pathKey (path config) =? p) && (toLowerCase (method config) =? m)
    then accumulate (entryAt (VObj fields) p m) operation
    else entryAt (VObj fields) p m.
Proof.
  intros Hp. unfold mergePaths, pathConfigOf, entryAt. rewrite Hp.
  cbn [prop]. rewrite Hp, merge_single, get_set_same. cbn [prop].
  rewrite get_set, (String.eqb_sym p).
  destruct (pathKey (path config) =? p) eqn:Ep; [|reflexivity].
  apply String.eqb_eq in Ep. subst p. cbn [andb].
  destruct (get (pathKey (path config)) paths) as [methods|].
  - destruct methods as [| | | | |methods];
      try (cbn; rewrite (String.eqb_sym m);
           destruct (toLowerCase (method config) =? m); reflexivity).
    rewrite merge_single. cbn [prop]. rewrite get_set, (String.eqb_sym m).
    destruct (toLowerCase (method config) =? m) eqn:Em; [|reflexivity].
    apply String.eqb_eq in Em. subst m. reflexivity.
  - cbn. rewrite (String.eqb_sym m).
    destruct (toLowerCase (method config) =? m); reflexivity.
Qed.

(** One contribution: the definition keeps a [paths] object and its other
    keys, and only the place of the contribution changes. *)
Lemma contribute_step cfg definition c definition' paths :
  prop "paths" definition = Some (VObj paths) ->
  contribute cfg definition c = inr definition' ->
  (exists paths', prop "paths" definition' = Some (VObj paths'))
  /\ (forall k, k <> "paths" -> prop k definition' = prop k definition)
  /\ (forall p m,
        entryAt definition' p m =
          if atPlace p m c
          then accumulate (entryAt definition p m) (operationOf cfg c)
          else entryAt definition p m).
Proof.
  intros Hp. unfold contribute, operationOf.
  destruct (built cfg c) as [|operation]; simpl; [discriminate|].
  intros [= <-].
  destruct definition as [| | | | |fields]; try discriminate.
  simpl in Hp. repeat split.
  - unfold mergePaths, pathConfigOf. rewrite Hp, merge_single.
    cbn [prop]. rewrite get_set_same. eauto.
  - intros k Hk. unfold mergePaths. rewrite Hp. cbn [prop].
    apply get_set_other. congruence.
  - intros p m. unfold atPlace. now apply (entryAt_mergePaths _ paths).
Qed.

Lemma contributions_fold cfg contributions :
  forall definition definition' paths,
  prop "paths" definition = Some (VObj paths) ->
  forEach (contribute cfg) contributions definition = inr definition' ->
  (exists paths', prop "paths" definition' = Some (VObj paths'))
  /\ (forall k, k <> "paths" -> prop k definition' = prop k definition)
  /\ (forall p m,
        entryAt definition' p m =
          fold_left accumulate
            (map (operationOf cfg) (filter (atPlace p m) contributions))
            (entryAt definition p m)).
Proof.
  induction contributions as [|c contributions IH];
    intros definition definition' paths Hp; simpl.
  - intros [= <-]. eauto.
  - destruct (contribute cfg definition c) as [|d1] eqn:Hc;
      simpl; [discriminate|].
    intros Hrest.
    destruct (contribute_step _ _ _ _ _ Hp Hc) as ([paths1 Hp1] & Hk1 & He1).
    destruct (IH _ _ _ Hp1 Hrest) as (Hp' & Hk' & He').
    repeat split; [exact Hp'| |].
    + intros k Hk. rewrite Hk', Hk1; auto.
    + intros p m. rewrite He', He1.
      destruct (atPlace p m c); reflexivity.
Qed.

Lemma contributions_built cfg contributions :
  forall definition definition',
  forEach (contribute cfg) contributions definition = inr definition' ->
  forall c, In c contributions ->
  exists operation, built cfg c = inr operation.
Proof.
  induction contributions as [|c0 contributions IH];
    intros definition definition'; simpl; [intros _ ? []|].
  destruct (contribute cfg definition c0) as [|d1] eqn:Hc;
    simpl; [discriminate|].
  intros Hrest c [<-|Hin]; [|eauto].
  unfold contribute in Hc.
  destruct (built cfg c0); [discriminate|eauto].
Qed.

Lemma accumulate_objects operations : forall old,
  Forall isObject operations ->
  (operations <> [] \/ exists v, old = Some v /\ isObject v) ->
  exists fields, fold_left accumulate operations old = Some (VObj fields).
Proof.
  induction operations as [|operation operations IH]; intros old Hall Hne.
  - destruct Hne as [Hne|(v & -> & [fields ->])]; [easy|]. simpl. eauto.
  - inversion Hall as [|? ? [o ->] Hall']; subst. simpl.
    apply IH; [exact Hall'|]. right. unfold accumulate.
    destruct old as [earlier|].
    + destruct (merge_is_object earlier o) as [fields ->].
      eexists; split; [reflexivity|now exists fields].
    + eexists; split; [reflexivity|now exists o].
Qed.

Lemma startsWith_pathKey p : startsWith "/" (pathKey p) = true.
Proof.
  unfold pathKey. destruct (startsWith "/" p) eqn:E; [exact E|].
  now destruct p.
Qed.

Lemma length_toLowerCase s : String.length (toLowerCase s) = String.length s.
Proof. induction s; simpl; congruence. Qed.

Lemma get_toLowerCase s : forall i,
  String.get i (toLowerCase s) = option_map lowerAscii (String.get i s).
Proof.
  induction s as [|c s IH]; intros i; simpl; [reflexivity|].
  destruct i; [reflexivity|apply IH].
Qed.

Lemma lowerAscii_not_upper c : isUpper (lowerAscii c) = false.
Proof.
  unfold lowerAscii. fold (isUpper c).
  destruct (isUpper c) eqn:E; [|exact E].
  unfold isUpper in *. apply andb_true_iff in E. destruct E as [E1 E2].
  apply Nat.leb_le in E1, E2.
  rewrite nat_ascii_embedding by lia.
  apply andb_false_iff. right. apply Nat.leb_gt. lia.
Qed.

Lemma pathItem_contribute cfg definition c definition' paths p :
  prop "paths" definition = Some (VObj paths) ->
  contribute cfg definition c = inr definition' ->
  pathItem definition' p <> None ->
  pathItem definition p <> None \/ p = pathKey (path (snd (fst c))).
Proof.
  intros Hp. unfold contribute.
  destruct (built cfg c) as [|operation]; simpl; [discriminate|].
  intros [= <-].
  destruct definition as [| | | | |fields]; try discriminate.
  simpl in Hp. unfold pathItem, mergePaths, pathConfigOf.
  rewrite Hp, merge_single. cbn [prop]. rewrite get_set_same, Hp.
  cbn [prop]. rewrite get_set.
  destruct (p =? pathKey (path (snd (fst c)))) eqn:E; [|now left].
  apply String.eqb_eq in E. now right.
Qed.

Lemma pathItem_contributions cfg contributions :
  forall definition definition' paths p,
  prop "paths" definition = Some (VObj paths) ->
  forEach (contribute cfg) contributions definition = inr definition' ->
  pathItem definition' p <> None ->
  pathItem definition p <> None
  \/ exists c, In c contributions /\ p = pathKey (path (snd (fst c))).
Proof.
  induction contributions as [|c contributions IH];
    intros definition definition' paths p Hp; simpl.
  - intros [= <-]. now left.
  - destruct (contribute cfg definition c) as [|d1] eqn:Hc;
      simpl; [discriminate|].
    intros Hrest Hitem.
    destruct (contribute_step _ _ _ _ _ Hp Hc) as ([paths1 Hp1] & _).
    destruct (IH _ _ _ _ Hp1 Hrest Hitem) as [H1|(c' & Hin & ->)].
    + destruct (pathItem_contribute _ _ _ _ _ _ Hp Hc H1) as [H0| ->];
        [now left|].
      right. exists c. split; [now left|reflexivity].
    + right. exists c'. split; [now right|reflexivity].
Qed.

(** Every documented event ends up under its place, as an object. *)
Lemma contribution_present cfg definition functions definition' paths c :
  prop "paths" definition = Some (VObj paths) ->
  readFunctions cfg definition functions = inr definition' ->
  In c (documented functions) ->
  exists operation entry,
    built cfg c = inr (VObj operation)
    /\ entryAt definition' (pathKey (path (snd (fst c))))
         (toLowerCase (method (snd (fst c)))) = Some (VObj entry)
    /\ (entryAt definition (pathKey (path (snd (fst c))))
          (toLowerCase (method (snd (fst c)))) = None ->
        List.length
          (filter (atPlace (pathKey (path (snd (fst c))))
                     (toLowerCase (method (snd (fst c)))))
             (documented functions)) = 1%nat ->
        entry = operation).
Proof.
  intros Hp Hread Hin. rewrite readFunctions_contribute in Hread.
  destruct (contributions_built _ _ _ _ Hread c Hin) as [op Hop].
  destruct (built_object _ _ _ Hop) as [operation ->].
  destruct (contributions_fold _ _ _ _ _ Hp Hread) as (_ & _ & Hfold).
  set (p := pathKey (path (snd (fst c)))) in *.
  set (m := toLowerCase (method (snd (fst c)))) in *.
  assert (Hat : atPlace p m c = true)
    by (unfold atPlace, p, m; now rewrite !String.eqb_refl).
  assert (Hc : In c (filter (atPlace p m) (documented functions)))
    by (apply filter_In; auto).
  assert (Hobjects :
           Forall isObject
             (map (operationOf cfg)
                (filter (atPlace p m) (documented functions)))).
  { apply Forall_forall. intros v Hv. apply in_map_iff in Hv.
    destruct Hv as (c' & <- & Hc'). apply filter_In in Hc'.
    destruct (contributions_built _ _ _ _ Hread c' (proj1 Hc')) as [op' Hop'].
    unfold operationOf. rewrite Hop'. eapply built_object; eauto. }
  destruct (accumulate_objects _ (entryAt definition p m) Hobjects)
    as [entry Hentry].
  { left. intros Hnil. apply map_eq_nil in Hnil. now rewrite Hnil in Hc. }
  exists operation, entry. split; [exact Hop|]. split.
  - now rewrite Hfold.
  - intros Hnone Hone. rewrite Hnone in Hentry.
    destruct (filter (atPlace p m) (documented functions)) as [|c0 [|]];
      try discriminate.
    destruct Hc as [->|[]]. simpl in Hentry. unfold operationOf in Hentry.
    rewrite Hop in Hentry. unfold accumulate in Hentry. congruence.
Qed.

Lemma entryAt_Some definition p m operation :
  entryAt definition p m = Some operation ->
  exists paths methods,
    prop "paths" definition = Some (VObj paths)
    /\ get p paths = Some (VObj methods)
    /\ get m methods = Some operation.
Proof.
  unfold entryAt.
  destruct (prop "paths" definition) as [[| | | | |paths]|];
    try (cbn; discriminate).
  cbn [prop].
  destruct (get p paths) as [[| | | | |methods]|] eqn:Hm;
    try (cbn; discriminate).
  cbn [prop]. intros H. exists paths, methods. auto.
Qed.

(** C6.  After [readFunctions], every documented event is found in [paths]
    under a key that begins with [/] -- the declared path itself when it
    begins with [/], the declared path with one [/] put in front of it
    otherwise -- and under the lower-cased method: same length, each
    character the lower-case of the declared one, no upper-case letter
    left.  A path key of the final tree that the tree did not hold before
    begins with [/]. *)
Theorem documented_paths_are_rooted
  (cfg : IDefinitionConfig IModel) (definition definition' : value)
  (functions : list IServerlessFunctionConfig) (paths : dict value) :
  prop "paths" definition = Some (VObj paths) ->
  readFunctions cfg definition functions = inr definition' ->
  (forall funcConfig httpEvent config doc,
     In funcConfig functions ->
     In httpEvent (events funcConfig) ->
     orElse (http httpEvent) (httpApi httpEvent) = Some config ->
     documentation config = Some doc ->
     exists paths' methods operation,
       prop "paths" definition' = Some (VObj paths')
       /\ get (pathKey (path config)) paths' = Some (VObj methods)
       /\ get (toLowerCase (method config)) methods = Some (VObj operation)
       /\ startsWith "/" (pathKey (path config)) = true
       /\ pathKey (path config) =
            (if startsWith "/" (path config) then path config
             else String "/" (path config))
       /\ String.length (toLowerCase (method config)) =
            String.length (method config)
       /\ (forall i,
             String.get i (toLowerCase (method config)) =
               option_map lowerAscii (String.get i (method config)))
       /\ (forall i c,
             String.get i (toLowerCase (method config)) = Some c ->
             isUpper c = false))
  /\ (forall p,
        pathItem definition' p <> None ->
        pathItem definition p <> None \/ startsWith "/" p = true).
Proof.
  intros Hp Hread. split.
  - intros funcConfig httpEvent config doc Hf He Hc Hd.
    assert (Hin : In (funcConfig, config, doc) (documented functions))
      by (apply in_documented; eauto).
    destruct (contribution_present _ _ _ _ _ _ Hp Hread Hin)
      as (operation & entry & _ & Hentry & _).
    apply entryAt_Some in Hentry.
    destruct Hentry as (paths' & methods & Hp' & Hm & Ho).
    exists paths', methods, entry. repeat split; auto.
    + apply startsWith_pathKey.
    + apply length_toLowerCase.
    + apply get_toLowerCase.
    + intros i c. rewrite get_toLowerCase.
      destruct (String.get i (method config)); [|discriminate].
      intros [= <-]. apply lowerAscii_not_upper.
  - intros p Hitem. rewrite readFunctions_contribute in Hread.
    destruct (pathItem_contributions _ _ _ _ _ _ Hp Hread Hitem)
      as [H|(c & _ & ->)]; [now left|].
    right. apply startsWith_pathKey.
Qed.

Lemma documented_paths_are_rooted_witness :
  exists definition' paths' methods operation,
    readFunctions (configOf None None) emptyPaths [getPet; createPet]
    = inr definition'
    /\ prop "paths" definition' = Some (VObj paths')
    /\ get "/pets/{id}" paths' = Some (VObj methods)
    /\ get "get" methods = Some (VObj operation).
Proof.
  eexists.
  destruct (proj1 (documented_paths_are_rooted
                     (configOf None None) emptyPaths _
                     [getPet; createPet] [] eq_refl eq_refl)
              getPet
              {| http := Some (eventOf "pets/{id}" "GET" None
                                 plainDocumentation);
                 httpApi := None |}
              (eventOf "pets/{id}" "GET" None plainDocumentation)
              plainDocumentation
              (or_introl eq_refl) (or_introl eq_refl) eq_refl eq_refl)
    as (paths' & methods & operation & Hp & Hm & Ho & _).
  exists paths', methods, operation. repeat split; assumption.
Defined.

(** C4.  [readFunctions] accumulates the path tree by merging: what a place
    [paths[p][m]] holds in the end is the merge, in order, of the operations
    contributed there onto what it held before.  So every contribution is
    present at its place, whatever is contributed at other methods of the
    same path or at other paths, and a contribution that is alone at a place
    the tree did not hold is there as built.  The merge itself keeps a key
    of the target that the source lacks, copies a key only the source has,
    merges the two values of a shared key, and a later value that is not an
    object replaces the earlier one. *)
Theorem merge_keeps_every_contribution
  (cfg : IDefinitionConfig IModel) (definition definition' : value)
  (functions : list IServerlessFunctionConfig) (paths : dict value) :
  prop "paths" definition = Some (VObj paths) ->
  readFunctions cfg definition functions = inr definition' ->
  (forall p m,
     entryAt definition' p m =
       fold_left accumulate
         (map (operationOf cfg) (filter (atPlace p m) (documented functions)))
         (entryAt definition p m))
  /\ (forall funcConfig config doc,
        In (funcConfig, config, doc) (documented functions) ->
        exists operation entry,
          getOperationFromConfig cfg (operationName funcConfig doc) config
          = inr (VObj operation)
          /\ entryAt definition' (pathKey (path config))
               (toLowerCase (method config)) = Some (VObj entry)
          /\ (entryAt definition (pathKey (path config))
                (toLowerCase (method config)) = None ->
              List.length
                (filter (atPlace (pathKey (path config))
                           (toLowerCase (method config)))
                   (documented functions)) = 1%nat ->
              entry = operation))
  /\ (forall t s k,
        ~ In k (keys s) ->
        prop k (Utils.merge (VObj t) (VObj s)) = get k t)
  /\ (forall t s k sv,
        NoDup (keys s) -> In (k, sv) s -> get k t = None ->
        prop k (Utils.merge (VObj t) (VObj s)) = Some sv)
  /\ (forall t s k tv sv,
        NoDup (keys s) -> In (k, sv) s -> get k t = Some tv ->
        prop k (Utils.merge (VObj t) (VObj s)) = Some (Utils.merge tv sv))
  /\ (forall tv sv, (forall fields, sv <> VObj fields) ->
                    Utils.merge tv sv = sv).
Proof.
  intros Hp Hread. repeat split.
  - rewrite readFunctions_contribute in Hread.
    now destruct (contributions_fold _ _ _ _ _ Hp Hread) as (_ & _ & H).
  - intros funcConfig config doc Hin.
    exact (contribution_present _ _ _ _ _ _ Hp Hread Hin).
  - intros t s k Hk. rewrite merge_objects. cbn [prop].
    now apply get_merge_target_only.
  - intros t s k sv Hnd Hin Hnone. rewrite merge_objects. cbn [prop].
    rewrite (get_merge_source _ _ _ _ Hnd Hin). now rewrite Hnone.
  - intros t s k tv sv Hnd Hin Hsome. rewrite merge_objects. cbn [prop].
    rewrite (get_merge_source _ _ _ _ Hnd Hin). now rewrite Hsome.
  - intros tv sv. apply merge_leaf.
Qed.

Lemma merge_keeps_every_contribution_witness :
  exists definition',
    readFunctions (configOf None None) emptyPaths [getPet; createPet]
    = inr definition'
    /\ entryAt definition' "/pets/{id}" "get" =
         Some (VObj [("operationId", VStr "getPet");
                     ("parameters", VArr []); ("responses", VObj [])])
    /\ entryAt definition' "/pets/{id}" "post" =
         Some (VObj [("operationId", VStr "createPet");
                     ("parameters", VArr []); ("responses", VObj [])]).
Proof.
  eexists. split; [reflexivity|].
  destruct (merge_keeps_every_contribution
              (configOf None None) emptyPaths _
              [getPet; createPet] [] eq_refl eq_refl)
    as (Hfold & _).
  split; rewrite Hfold; reflexivity.
Defined.

(** ** Responses *)

Lemma find_model declared name :
  find (fun model => model_name model =? name) declared <> None
  <-> resolves declared name.
Proof.
  unfold resolves. induction declared as [|model declared IH]; simpl.
  - split; [congruence|intros []].
  - destruct (model_name model =? name) eqn:E.
    + apply String.eqb_eq in E. split; [now left|congruence].
    + rewrite IH. split; [now right|].
      intros [Heq|H]; [|exact H]. subst.
      now rewrite String.eqb_refl in E.
Qed.

Lemma get_all_None {A} (o : dict A) : (forall k, get k o = None) -> o = [].
Proof.
  destruct o as [|[k v] o]; [reflexivity|].
  intros H. specialize (H k). simpl in H.
  now rewrite String.eqb_refl in H.
Qed.

Lemma get_merge_keys s : forall t k,
  get k (fold_left mergeKey s t) <> None ->
  get k t <> None \/ In k (keys s).
Proof.
  induction s as [|[k' sv] s IH]; intros t k; simpl; [now left|].
  intros H. apply IH in H. destruct H as [H|H]; [|now right; right].
  rewrite get_mergeKey in H.
  destruct (k =? k') eqn:E; [|now left].
  apply String.eqb_eq in E. right. now left.
Qed.

(** The keys of a response content are content types of resolved names. *)
Lemma responseContent_keys cfg declared models :
  config_models cfg = Some declared ->
  forall acc content,
  forEach
    (fun content (entry : string * string) =>
       let (responseKey, modelName) := entry in
       declared <- configModels cfg ;;
       match find (fun model => model_name model =? modelName) declared with
       | Some responseModel =>
           ok (Utils.merge content
                 (VObj [(responseKey,
                         attachExamples responseModel (schemaRef modelName))]))
       | None => ok content
       end)
    models (VObj acc) = inr content ->
  exists c,
    content = VObj c
    /\ forall key,
         get key c <> None ->
         get key acc <> None
         \/ exists name, In (key, name) models /\ resolves declared name.
Proof.
  intros Hm. unfold configModels. rewrite Hm.
  induction models as [|[responseKey modelName] models IH];
    intros acc content; cbn [forEach bind ok].
  - intros [= <-]. exists acc. auto.
  - destruct (find _ declared) as [responseModel|] eqn:Hf;
      cbn [forEach bind ok].
    + rewrite merge_single. intros Hrest.
      destruct (IH _ _ Hrest) as (c & -> & Hc).
      exists c. split; [reflexivity|]. intros key Hkey.
      destruct (Hc key Hkey) as [H|(name & Hin & Hres)].
      * rewrite get_set in H.
        destruct (key =? responseKey) eqn:E; [|now left].
        apply String.eqb_eq in E. subst key. right. exists modelName.
        split; [now left|]. apply find_model. congruence.
      * right. exists name. split; [now right|exact Hres].
    + intros Hrest. destruct (IH _ _ Hrest) as (c & -> & Hc).
      exists c. split; [reflexivity|]. intros key Hkey.
      destruct (Hc key Hkey) as [H|(name & Hin & Hres)]; [now left|].
      right. exists name. split; [now right|exact Hres].
Qed.

Lemma getResponseContent_keys cfg declared models content :
  config_models cfg = Some declared ->
  getResponseContent cfg (Some models) = inr content ->
  exists c,
    content = VObj c
    /\ forall key,
         get key c <> None ->
         exists name, In (key, name) models /\ resolves declared name.
Proof.
  intros Hm Hc. unfold getResponseContent in Hc.
  destruct (responseContent_keys _ _ _ Hm _ _ Hc) as (c & -> & Hkeys).
  exists c. split; [reflexivity|]. intros key Hkey.
  destruct (Hkeys key Hkey) as [H|H]; [now destruct H|exact H].
Qed.

(** The entry built for one response. *)
Lemma methodResponseConfigOf_content cfg declared response models entry :
  config_models cfg = Some declared ->
  responseModels response = Some models ->
  methodResponseConfigOf cfg response = inr entry ->
  exists e c,
    entry = VObj e
    /\ NoDup (keys e)
    /\ get "content" e = Some (VObj c)
    /\ In ("content", VObj c) e
    /\ forall key,
         get key c <> None ->
         exists name, In (key, name) models /\ resolves declared name.
Proof.
  intros Hm Hr. unfold methodResponseConfigOf. rewrite Hr.
  destruct (getResponseContent cfg (Some models)) as [|content] eqn:Hc;
    simpl; [discriminate|].
  destruct (getResponseContent_keys _ _ _ _ Hm Hc) as (c & -> & Hkeys).
  destruct (responseHeaders response) as [headers|].
  - destruct (responseHeadersOf headers) as [|h]; simpl; [discriminate|].
    intros [= <-]. do 2 eexists. split; [reflexivity|]. simpl.
    repeat split; auto.
    repeat constructor; simpl; intuition discriminate.
  - intros [= <-]. do 2 eexists. split; [reflexivity|]. simpl.
    repeat split; auto.
    repeat constructor; simpl; intuition discriminate.
Qed.

Lemma in_keys_get {A} (o : dict A) k : In k (keys o) -> get k o <> None.
Proof.
  induction o as [|[k' v] o IH]; simpl; [intros []|].
  intros [<-|H]; [now rewrite String.eqb_refl|].
  destruct (k =? k'); [discriminate|auto].
Qed.

Lemma contentSource_more declared processed processed' status key :
  (forall r, In r processed -> In r processed') ->
  contentSource declared processed status key ->
  contentSource declared processed' status key.
Proof.
  intros Hsub (r & models & name & Hin & H). exists r, models, name.
  split; [auto|exact H].
Qed.

Lemma responses_loop cfg declared :
  config_models cfg = Some declared ->
  forall remaining processed acc result,
  wellSourced declared processed acc ->
  (forall r, In r processed -> get (statusCode r) acc <> None) ->
  forEach
    (fun responses response =>
       methodResponseConfig <- methodResponseConfigOf cfg response ;;
       ok (Utils.merge responses
             (VObj [(statusCode response, methodResponseConfig)])))
    remaining (VObj acc) = inr result ->
  exists result',
    result = VObj result'
    /\ wellSourced declared (processed ++ remaining) result'
    /\ (forall r, In r (processed ++ remaining) ->
                  get (statusCode r) result' <> None).
Proof.
  intros Hm.
  induction remaining as [|response remaining IH];
    intros processed acc result Hacc Hpresent; cbn [forEach bind ok].
  - intros [= <-]. exists acc. rewrite app_nil_r. auto.
  - destruct (methodResponseConfigOf cfg response) as [|entry] eqn:He;
      cbn [bind]; [discriminate|].
    rewrite merge_single. intros Hrest.
    destruct (responseModels response) as [models|] eqn:Hr;
      [|unfold methodResponseConfigOf in He; rewrite Hr in He;
        discriminate].
    destruct (methodResponseConfigOf_content _ _ _ _ _ Hm Hr He)
      as (e & c & -> & Hnd & Hc & Hcin & Hkeys).
    apply (IH (processed ++ [response])%list) in Hrest.
    + destruct Hrest as (result' & -> & Hs & Hp).
      rewrite <- app_assoc in Hs, Hp. eauto.
    + intros status entry. rewrite get_set.
      destruct (status =? statusCode response) eqn:E.
      * apply String.eqb_eq in E. subst status.
        destruct (get (statusCode response) acc) as [earlier|] eqn:Hget;
          intros Hentry; apply (f_equal (fun o => match o with
                                                  | Some v => v
                                                  | None => VNull
                                                  end)) in Hentry;
          cbv beta iota in Hentry; subst entry.
        -- destruct (Hacc _ _ Hget) as (e0 & c0 & Hearlier & Hc0 & Hkeys0).
           subst earlier. rewrite merge_objects.
           exists (fold_left mergeKey e e0), (fold_left mergeKey c c0).
           split; [reflexivity|]. split.
           ++ rewrite (get_merge_source _ _ _ _ Hnd Hcin), Hc0.
              now rewrite merge_objects.
           ++ intros key Hkey. apply get_merge_keys in Hkey.
              destruct Hkey as [Hkey|Hkey].
              ** eapply contentSource_more; [|apply Hkeys0, Hkey].
                 intros r Hin. apply in_app_iff. now left.
              ** apply in_keys_get, Hkeys in Hkey.
                 destruct Hkey as (name & Hin & Hres).
                 exists response, models, name. repeat split; auto.
                 apply in_app_iff. right. now left.
        -- exists e, c. repeat split; auto. intros key Hkey.
           destruct (Hkeys key Hkey) as (name & Hin & Hres).
           exists response, models, name. repeat split; auto.
           apply in_app_iff. right. now left.
      * intros Hget. destruct (Hacc _ _ Hget) as (e0 & c0 & -> & Hc0 & Hk0).
        exists e0, c0. repeat split; auto. intros key Hkey.
        eapply contentSource_more; [|apply Hk0, Hkey].
        intros r Hin. apply in_app_iff. now left.
    + intros r Hin. rewrite get_set.
      destruct (statusCode r =? statusCode response) eqn:E; [discriminate|].
      apply in_app_iff in Hin. destruct Hin as [Hin|[<-|[]]].
      * now apply Hpresent.
      * now rewrite String.eqb_refl in E.
Qed.

Lemma getResponsesFromConfig_sourced cfg declared documentationConfig
  responses result :
  config_models cfg = Some declared ->
  methodResponses documentationConfig = Some responses ->
  getResponsesFromConfig cfg documentationConfig = inr result ->
  exists result',
    result = VObj result'
    /\ wellSourced declared responses result'
    /\ (forall r, In r responses -> get (statusCode r) result' <> None).
Proof.
  intros Hm Hr. unfold getResponsesFromConfig. rewrite Hr. intros Hloop.
  apply (responses_loop _ _ Hm responses [] [] result) in Hloop;
    [exact Hloop| |intros r []].
  intros status entry. discriminate.
Qed.

(** With the models declared and every method response carrying its
    [responseModels], the responses builder returns -- also when a name is
    absent from the models.  Each method response has its status-code entry,
    with a [content] object; a content type is in that object only if a
    method response of that status maps it to a declared model, so a
    content type that only names absent models is omitted, and the object
    is empty when none of the names of that status resolves. *)
Lemma unresolved_response_models_are_omitted
  (cfg : IDefinitionConfig IModel) (declared : list IModel)
  (documentationConfig : IEventDocumentation)
  (responses : list IMethodResponse) :
  config_models cfg = Some declared ->
  methodResponses documentationConfig = Some responses ->
  (forall response, In response responses ->
                    responseModels response <> None) ->
  exists result,
    getResponsesFromConfig cfg documentationConfig = inr (VObj result)
    /\ forall response,
         In response responses ->
         exists entry content,
           get (statusCode response) result = Some (VObj entry)
           /\ get "content" entry = Some (VObj content)
           /\ (forall key,
                 ~ contentSource declared responses (statusCode response) key ->
                 get key content = None)
           /\ ((forall key,
                  ~ contentSource declared responses
                      (statusCode response) key) ->
               content = []).
Proof.
  intros Hm Hr Hmodels.
  pose proof (getResponsesFromConfig_decide cfg documentationConfig) as Hd.
  rewrite Hr in Hd.
  replace (forallb _ responses) with true in Hd.
  2: { symmetry. apply forallb_forall. intros response Hin.
       specialize (Hmodels response Hin). unfold contentBuildable.
       destruct (responseModels response) as [[|entry models]|];
         [reflexivity|unfold modelsDeclared; now rewrite Hm
         |now destruct Hmodels]. }
  destruct Hd as (result & Hres & _).
  destruct (getResponsesFromConfig_sourced _ _ _ _ _ Hm Hr Hres)
    as (result' & -> & Hs & Hp).
  exists result'. split; [exact Hres|]. intros response Hin.
  destruct (get (statusCode response) result') as [entry|] eqn:Hget;
    [|now destruct (Hp response Hin)].
  destruct (Hs _ _ Hget) as (e & c & -> & Hc & Hkeys).
  exists e, c. repeat split; auto.
  - intros key Hno. destruct (get key c) eqn:Hk; [|reflexivity].
    destruct Hno. apply Hkeys. congruence.
  - intros Hno. apply get_all_None. intros key.
    destruct (get key c) eqn:Hk; [|reflexivity].
    destruct (Hno key). apply Hkeys. congruence.
Qed.

Example unresolved_response_models_are_omitted_example :
  exists result entry,
    getResponsesFromConfig (configOf None (Some [petModel]))
      (respondingDocumentation
         [respondsWith "200" [("application/json", "Pet");
                              ("text/plain", "Ghost")];
          respondsWith "404" [("application/json", "Ghost")]])
    = inr (VObj result)
    /\ get "404" result = Some (VObj entry)
    /\ get "content" entry = Some (VObj []).
Proof.
  destruct (unresolved_response_models_are_omitted
              (configOf None (Some [petModel])) [petModel]
              (respondingDocumentation
                 [respondsWith "200" [("application/json", "Pet");
                                      ("text/plain", "Ghost")];
                  respondsWith "404" [("application/json", "Ghost")]])
              _ eq_refl eq_refl)
    as (result & Hres & Hall).
  { intros response [<-|[<-|[]]]; discriminate. }
  destruct (Hall (respondsWith "404" [("application/json", "Ghost")])
              (or_intror (or_introl eq_refl)))
    as (entry & content & He & Hc & _ & Hempty).
  exists result, entry. repeat split; auto.
  rewrite Hc, Hempty; [reflexivity|].
  intros key (r & models & name & Hin & Hs & Hr & Hk & Hname).
  destruct Hin as [<-|[<-|[]]]; simpl in *; try discriminate.
  injection Hr as <-. destruct Hk as [[= <- <-]|[]].
  destruct Hname as [H|[]]; discriminate.
Defined.

(** Without declared models the lookup itself throws: line 350 reads [find]
    off [this.config.models]. *)
Lemma undeclared_models_throw cfg key name rest :
  config_models cfg = None ->
  exists what,
    getResponseContent cfg (Some ((key, name) :: rest)) = inl (TypeError what).
Proof.
  intros Hm. unfold getResponseContent, configModels. cbn [forEach].
  rewrite Hm. cbn. eauto.
Qed.

(** C8.  Under a configuration without [models], a method response that
    maps a content type to a model name makes the responses builder throw a
    TypeError instead of leaving the content type out. *)
Theorem response_model_without_models_throws :
  getResponsesFromConfig (configOf None None)
    (respondingDocumentation
       [respondsWith "200" [("application/json", "Pet")]])
  = inl (TypeError "Cannot read properties of undefined (models)").
Proof. reflexivity. Qed.

(** ** Request bodies *)

Lemma getOperationFromConfig_throws cfg funcName config e :
  getOperationFromConfig cfg funcName config = inl e -> isTypeError e.
Proof.
  destruct (documentation config) as [doc|] eqn:Hdoc.
  - pose proof (getOperationFromConfig_decide cfg funcName _ _ Hdoc) as H.
    destruct (buildable cfg doc).
    + destruct H as [fields ->]. discriminate.
    + destruct H as (e' & -> & He). now intros [= <-].
  - rewrite getOperationFromConfig_blocks, Hdoc. intros [= <-]. now eexists.
Qed.

(** C1 (as the code has it).  On a block with [requestBody] and no
    [requestModels] the request-body builder is not called: line 156 gates
    it on [requestModels].  The operation is built exactly as for the block
    without [requestBody], it has no [requestBody] key, it is returned on
    every buildable input, and when construction throws it is a TypeError of
    another step, not the "Required requestModels" error.  That error is
    what the request-body builder throws when it is called on such a
    block. *)
Theorem request_body_is_gated_on_request_models
  (cfg : IDefinitionConfig IModel) (funcName : string)
  (config : OperationConfig) (doc : IEventDocumentation) (body : IBodyDoc) :
  documentation config = Some doc ->
  requestBody doc = Some body ->
  requestModels doc = None ->
  getRequestBodiesFromConfig cfg doc = inl (Error "Required requestModels")
  /\ getOperationFromConfig cfg funcName config =
       getOperationFromConfig cfg funcName
         (withDocumentation config (withoutRequestBody doc))
  /\ (forall operation,
        getOperationFromConfig cfg funcName config = inr operation ->
        prop "requestBody" operation = None)
  /\ (buildable cfg doc = true ->
      exists fields,
        getOperationFromConfig cfg funcName config = inr (VObj fields))
  /\ (forall e,
        getOperationFromConfig cfg funcName config = inl e ->
        isTypeError e).
Proof.
  intros Hdoc Hbody Hmodels. repeat split.
  - unfold getRequestBodiesFromConfig. now rewrite Hmodels.
  - rewrite !getOperationFromConfig_blocks. cbn [documentation withDocumentation].
    rewrite Hdoc. unfold withRequestBody.
    cbn [requestModels withoutRequestBody]. rewrite Hmodels. reflexivity.
  - intros operation. rewrite getOperationFromConfig_blocks, Hdoc.
    unfold withRequestBody. rewrite Hmodels. cbn [bind ok].
    destruct (getParametersFromConfig doc) as [|parameters];
      cbn [bind]; [discriminate|].
    destruct (getResponsesFromConfig cfg doc) as [|responses];
      cbn [bind]; [discriminate|].
    assert (Hbase : get "requestBody"
                      (withAuthorizer cfg config
                         (set "responses" responses
                            (set "parameters" (VArr parameters)
                               (headline funcName doc)))) = None).
    { unfold withAuthorizer.
      destruct (config_security cfg) as [declared|];
        [destruct (truthyAuthorizer _);
         [destruct (find _ declared)|]|];
        rewrite !get_set_other by discriminate;
        apply get_headline; discriminate. }
    unfold withSecurity.
    destruct (security doc) as [names|]; [|intros [= <-]; exact Hbase].
    destruct (config_security cfg) as [declared|]; [|discriminate].
    destruct (0 <? _)%nat; intros [= <-]; [|exact Hbase].
    cbn [prop]. now rewrite get_set_other by discriminate.
  - intros Hb.
    pose proof (getOperationFromConfig_decide cfg funcName _ _ Hdoc) as H.
    now rewrite Hb in H.
  - apply getOperationFromConfig_throws.
Qed.

Lemma request_body_is_gated_on_request_models_witness :
  getOperationFromConfig (configOf None None) "putPet"
    (eventOf "/pets" "put" None bodyOnlyDocumentation)
  = inr (VObj [("operationId", VStr "putPet"); ("parameters", VArr []);
               ("responses", VObj [])]).
Proof.
  destruct (request_body_is_gated_on_request_models
              (configOf None None) "putPet"
              (eventOf "/pets" "put" None bodyOnlyDocumentation)
              bodyOnlyDocumentation {| body_description := Some "A pet" |}
              eq_refl eq_refl eq_refl)
    as (_ & -> & _).
  reflexivity.
Defined.

(** C1 as stated fails: a function whose block has [requestBody] and no
    [requestModels] goes through [readFunctions], and the document has its
    operation. *)
Lemma request_body_without_models_is_not_fatal :
  ~ (forall cfg definition functions funcConfig config doc body,
       In (funcConfig, config, doc) (documented functions) ->
       requestBody doc = Some body ->
       requestModels doc = None ->
       exists e, readFunctions cfg definition functions = inl e).
Proof.
  intros Hfatal.
  destruct (Hfatal (configOf None None) emptyPaths [putPet] putPet
              (eventOf "/pets" "put" None bodyOnlyDocumentation)
              bodyOnlyDocumentation {| body_description := Some "A pet" |}
              (or_introl eq_refl) eq_refl eq_refl) as [e He].
  discriminate He.
Qed.

Example request_body_without_models_document :
  readFunctions (configOf None None) emptyPaths [putPet]
  = inr (VObj [("paths",
                VObj [("/pets",
                       VObj [("put",
                              VObj [("operationId", VStr "putPet");
                                    ("parameters", VArr []);
                                    ("responses", VObj [])])])])]).
Proof. reflexivity. Qed.

(** ** Schemas *)

(** [cleanSchema] removes a [$schema] key whose value is truthy, and only
    then. *)
Lemma cleanSchema_strips fields :
  exists cleaned,
    cleanSchema (VObj fields) = inr (VObj cleaned)
    /\ get "$schema" cleaned =
         match get "$schema" fields with
         | Some s => if truthy s then None else Some s
         | None => None
         end.
Proof.
  unfold cleanSchema, Utils.clone.
  destruct (get "$schema" fields) as [s|] eqn:Hs;
    [destruct (truthy s) eqn:Ht|]; eexists; (split; [reflexivity|]);
    auto using get_remove_same.
Qed.

(** C7.  A model whose literal schema carries [$schema: ''] is registered
    with the key still there: line 119 deletes [$schema] only when its value
    is truthy. *)
Theorem falsy_schema_key_is_not_stripped :
  exists h' this',
    (let (h, this) := constructor (callerConfig [0]) [emptySchemaModel] in
     parse derive inlineNothing "uuid" this h) = (h', inr this')
    /\ schemaOf (definition this') "Pet" =
         Some (VObj [("$schema", VStr ""); ("type", VStr "object")]).
Proof. do 2 eexists. split; reflexivity. Qed.

Lemma cleanSchema_stripped schema cleaned :
  cleanSchema schema = inr cleaned -> stripped cleaned.
Proof.
  destruct schema as [|b|n|s|items|fields];
    try (unfold cleanSchema, Utils.clone; cbn;
         intros [= <-]; intros s' Hs'; discriminate Hs').
  destruct (cleanSchema_strips fields) as (c & -> & Hc).
  intros [= <-] s Hs. cbn [prop] in Hs. rewrite Hc in Hs.
  destruct (get "$schema" fields) as [s0|]; [|discriminate].
  destruct (truthy s0) eqn:Ht; [discriminate|]. congruence.
Qed.

Lemma setSchema_sets name schema definition definition' :
  setSchema name schema definition = inr definition' ->
  (forall k, k <> "components" -> prop k definition' = prop k definition)
  /\ (forall n, schemaOf definition' n =
                  if n =? name then Some schema else schemaOf definition n).
Proof.
  unfold setSchema, schemaOf.
  destruct definition as [| | | | |fields]; try discriminate.
  cbn [prop].
  destruct (get "components" fields) as [[| | | | |components]|] eqn:Hc;
    try discriminate.
  destruct (get "schemas" components) as [[| | | | |schemas]|] eqn:Hs;
    try discriminate.
  intros [= <-]. split.
  - intros k Hk. cbn [prop]. apply get_set_other. congruence.
  - intros n. cbn [prop]. rewrite get_set_same. cbn [prop].
    rewrite get_set_same. cbn [prop]. rewrite get_set, Hs. reflexivity.
Qed.

Section Registry.
Variable generateSchema : string -> string -> value.
Variable dereference : value -> value.
Variable uuid_v4 : string.

(** What one model of the loop does to the definition: nothing, or one
    schema entry set to a cleaned schema. *)
Lemma parseModel_registers definition l h h' definition' :
  parseModel generateSchema dereference definition l h = (h', inr definition') ->
  (forall k, k <> "components" -> prop k definition' = prop k definition)
  /\ (forall n v, schemaOf definition' n = Some v ->
                  schemaOf definition n = Some v \/ stripped v).
Proof.
  assert (Hset : forall name schema d',
             (cleaned <- cleanSchema schema ;; setSchema name cleaned definition)
             = inr d' ->
             (forall k, k <> "components" -> prop k d' = prop k definition)
             /\ (forall n v, schemaOf d' n = Some v ->
                             schemaOf definition n = Some v \/ stripped v)).
  { intros name schema d'.
    destruct (cleanSchema schema) as [|cleaned] eqn:Hc; cbn [bind];
      [discriminate|].
    intros Hs. apply setSchema_sets in Hs. destruct Hs as [Hk Hn].
    split; [exact Hk|]. intros n v. rewrite Hn.
    destruct (n =? name); [|now left].
    intros [= <-]. right. eapply cleanSchema_stripped; eauto. }
  unfold parseModel, bindM, readModel, writeModel, liftM, retM, throw, ok.
  destruct (nth_error h l) as [model|]; cbn iota beta; [|discriminate].
  destruct (model_tsSchema model) as [tsSchema|]; cbn iota beta.
  - intros [= _ H]. eapply Hset; eauto.
  - destruct (model_schema model) as [schema|];
      [destruct (truthy schema)|].
    + intros [= _ H]. eapply Hset; eauto.
    + intros [= _ <-]. auto.
    + intros [= _ <-]. auto.
Qed.

Lemma parseModels_registers models : forall definition h h' definition',
  forEachM (parseModel generateSchema dereference) models definition h
  = (h', inr definition') ->
  (forall k, k <> "components" -> prop k definition' = prop k definition)
  /\ (forall n v, schemaOf definition' n = Some v ->
                  schemaOf definition n = Some v \/ stripped v).
Proof.
  induction models as [|l models IH]; intros definition h h' definition';
    simpl.
  - unfold retM. intros [= _ <-]. auto.
  - unfold bindM at 1.
    destruct (parseModel _ _ definition l h) as [h1 [e|d1]] eqn:Hone;
      [discriminate|].
    intros Hrest.
    destruct (parseModel_registers _ _ _ _ _ Hone) as [Hk1 Hn1].
    destruct (IH _ _ _ _ Hrest) as [Hk Hn]. split.
    + intros k Hne. rewrite Hk, Hk1; auto.
    + intros n v Hv. destruct (Hn n v Hv) as [H|H]; [auto|now right].
Qed.

(** After [parse] on a new engine the definition has an empty [paths]
    object, and no registered schema carries a truthy [$schema]. *)
Lemma parse_seeds supplied h h1 this h2 this' :
  constructor supplied h = (h1, this) ->
  parse generateSchema dereference uuid_v4 this h1 = (h2, inr this') ->
  prop "paths" (definition this') = Some (VObj [])
  /\ forall n v, schemaOf (definition this') n = Some v -> stripped v.
Proof.
  unfold constructor. destruct (cloneConfig supplied h) as [h0 copy].
  intros [= <- <-]. unfold parse. cbn [definition config version].
  set (seeded := Utils.merge _ _).
  assert (Hpaths : prop "paths" seeded = Some (VObj [])) by reflexivity.
  assert (Hnone : forall n, schemaOf seeded n = None) by reflexivity.
  destruct (config_models copy) as [models|].
  - unfold bindM.
    destruct (forEachM _ models seeded h0) as [h3 [e|d]] eqn:Hloop;
      unfold retM; [discriminate|].
    intros [= _ <-]. cbn [definition withDefinition].
    destruct (parseModels_registers _ _ _ _ _ Hloop) as [Hk Hn]. split.
    + rewrite Hk by discriminate. exact Hpaths.
    + intros n v Hv. destruct (Hn n v Hv) as [H|H]; [|exact H].
      rewrite Hnone in H. discriminate.
  - unfold retM. intros [= _ <-]. cbn [definition withDefinition]. split.
    + exact Hpaths.
    + intros n v Hv. rewrite Hnone in Hv. discriminate.
Qed.

End Registry.

(** ** The caller's configuration *)

Lemma length_update {A} n (x : A) xs :
  List.length (update n x xs) = List.length xs.
Proof.
  revert n. induction xs as [|y xs IH]; intros [|n]; simpl; auto.
Qed.

Lemma nth_error_update_other {A} n m (x : A) xs :
  m <> n -> nth_error (update n x xs) m = nth_error xs m.
Proof.
  revert n m.
  induction xs as [|y xs IH]; intros [|n] [|m] H; simpl;
    auto; try congruence.
Qed.

Section Frame.
Variable generateSchema : string -> string -> value.
Variable dereference : value -> value.
Variable uuid_v4 : string.

(** One model of the loop writes to the object at its address only. *)
Lemma parseModel_frame definition l h h' r :
  parseModel generateSchema dereference definition l h = (h', r) ->
  List.length h' = List.length h
  /\ forall m, m <> l -> nth_error h' m = nth_error h m.
Proof.
  unfold parseModel, bindM, readModel, writeModel, liftM, retM, throw, ok.
  destruct (nth_error h l) as [model|]; cbn iota beta;
    [|now intros [= <- <-]].
  destruct (model_tsSchema model) as [tsSchema|]; cbn iota beta.
  - intros [= <- <-]. split; [apply length_update|].
    intros m Hm. now apply nth_error_update_other.
  - destruct (model_schema model) as [schema|];
      [destruct (truthy schema)|]; now intros [= <- <-].
Qed.

Lemma parseModels_frame models : forall definition h h' r,
  forEachM (parseModel generateSchema dereference) models definition h
  = (h', r) ->
  List.length h' = List.length h
  /\ forall m, ~ In m models -> nth_error h' m = nth_error h m.
Proof.
  induction models as [|l models IH]; intros definition h h' r; simpl.
  - unfold retM. now intros [= <- <-].
  - unfold bindM at 1.
    destruct (parseModel _ _ definition l h) as [h1 [e|d1]] eqn:Hone;
      destruct (parseModel_frame _ _ _ _ _ Hone) as [Hlen Hframe].
    + intros [= <- <-]. split; [exact Hlen|].
      intros m Hm. apply Hframe. intros ->. apply Hm. now left.
    + intros Hrest. destruct (IH _ _ _ _ Hrest) as [Hlen' Hframe'].
      split; [congruence|].
      intros m Hm. rewrite Hframe' by (intros H; apply Hm; now right).
      apply Hframe. intros ->. apply Hm. now left.
Qed.

(** [parse] writes to the model objects of the engine's configuration
    only. *)
Lemma parse_frame this h h' r :
  parse generateSchema dereference uuid_v4 this h = (h', r) ->
  List.length h' = List.length h
  /\ forall m,
       (forall models, config_models (config this) = Some models ->
                       ~ In m models) ->
       nth_error h' m = nth_error h m.
Proof.
  unfold parse.
  destruct (config_models (config this)) as [models|];
    [|unfold retM; now intros [= <- <-]].
  unfold bindM.
  destruct (forEachM _ models _ h) as [h1 [e|d1]] eqn:Hloop;
    destruct (parseModels_frame _ _ _ _ _ Hloop) as [Hlen Hframe];
    unfold retM; intros [= <- <-]; (split; [exact Hlen|]);
    intros m Hm; apply Hframe; now apply Hm.
Qed.

End Frame.

Lemma deref_fresh (h : store) (copies : list IModel) : forall n,
  n = List.length h ->
  deref (h ++ copies)%list (seq n (List.length copies)) = copies.
Proof.
  revert h. induction copies as [|model copies IH]; intros h n ->;
    [reflexivity|].
  simpl. unfold deref in *. simpl.
  rewrite nth_error_app2, Nat.sub_diag by lia. simpl. f_equal.
  specialize (IH (h ++ [model])%list (S (List.length h))).
  rewrite <- app_assoc in IH. apply IH.
  rewrite length_app. simpl. lia.
Qed.

Lemma deref_frame h h' models :
  (forall l, In l models -> nth_error h' l = nth_error h l) ->
  deref h' models = deref h models.
Proof.
  unfold deref. induction models as [|l models IH]; intros H; simpl; auto.
  rewrite H by now left. f_equal. apply IH. intros ? ?. apply H. now right.
Qed.

(** The constructor leaves the existing objects alone and gives the engine
    fresh copies of the models. *)
Lemma constructor_copies supplied h h1 this :
  constructor supplied h = (h1, this) ->
  (forall l, l < List.length h -> nth_error h1 l = nth_error h l)
  /\ (forall models l,
        config_models (config this) = Some models ->
        In l models -> List.length h <= l)
  /\ loadConfig h1 (config this) = loadConfig h supplied.
Proof.
  unfold constructor, cloneConfig, loadConfig.
  destruct (config_models supplied) as [models|] eqn:Hm;
    cbn iota beta; intros Heq; injection Heq as H1 H2; subst h1 this;
    cbn [config config_models withModels option_map].
  - repeat split.
    + intros l Hl. now apply nth_error_app1.
    + intros ? l [= <-] Hin. apply in_seq in Hin. lia.
    + unfold withModels. cbn. now rewrite deref_fresh.
  - repeat split; [|now rewrite Hm].
    intros models l Hsome. congruence.
Qed.

(** C9.  The engine works on a private copy of the configuration: right
    after construction its configuration reads the same as the caller's,
    but its model objects are new ones; the constructor and [parse] --
    whether it returns or throws -- leave every object that existed before
    construction as it was, so a caller's configuration whose models are
    among them reads the same afterwards; [readFunctions] writes to no
    model object at all. *)
Theorem caller_configuration_is_never_mutated
  (generateSchema : string -> string -> value)
  (dereference : value -> value) (uuid_v4 : string)
  (supplied : IDefinitionConfig loc)
  (functions : list IServerlessFunctionConfig)
  (h h1 h2 : store) (this : DefinitionGenerator)
  (parsed : Result DefinitionGenerator) :
  constructor supplied h = (h1, this) ->
  parse generateSchema dereference uuid_v4 this h1 = (h2, parsed) ->
  loadConfig h1 (config this) = loadConfig h supplied
  /\ (forall models l,
        config_models (config this) = Some models ->
        In l models -> List.length h <= l)
  /\ (forall l, l < List.length h -> nth_error h1 l = nth_error h l)
  /\ (forall l, l < List.length h -> nth_error h2 l = nth_error h l)
  /\ (forall models,
        config_models supplied = Some models ->
        Forall (fun l => l < List.length h) models ->
        loadConfig h2 supplied = loadConfig h supplied)
  /\ (forall this' h3 r,
        parsed = inr this' ->
        readFunctionsOf this' functions h2 = (h3, r) ->
        h3 = h2).
Proof.
  intros Hnew Hparse.
  destruct (constructor_copies _ _ _ _ Hnew) as (Hold & Hfresh & Hcopy).
  destruct (parse_frame _ _ _ _ _ _ _ Hparse) as [_ Hframe].
  assert (Hkept : forall l, l < List.length h ->
                            nth_error h2 l = nth_error h l).
  { intros l Hl. rewrite Hframe; [now apply Hold|].
    intros models Hm Hin. specialize (Hfresh _ _ Hm Hin). lia. }
  repeat split; auto.
  - intros models Hm Hvalid. unfold loadConfig. rewrite Hm. cbn [option_map].
    f_equal. f_equal. apply deref_frame. intros l Hin. apply Hkept.
    rewrite Forall_forall in Hvalid. now apply Hvalid.
  - intros this' h3 r _. unfold readFunctionsOf. now intros [= <- _].
Qed.

Lemma caller_configuration_is_never_mutated_witness :
  exists h2 parsed,
    (let (h1, this) := constructor (callerConfig [0]) [typedModel] in
     parse derive inlineNothing "uuid" this h1) = (h2, parsed)
    /\ nth_error h2 0 = Some typedModel
    /\ nth_error h2 1 =
         Some {| model_name := "Owner";
                 model_schema := Some (derive "owner.ts" "Owner");
                 model_tsSchema := None; model_examples := None |}.
Proof.
  do 2 eexists. split; [reflexivity|]. split; [|reflexivity].
  destruct (caller_configuration_is_never_mutated
              derive inlineNothing "uuid" (callerConfig [0]) []
              [typedModel] _ _ _ _ eq_refl eq_refl)
    as (_ & _ & _ & Hkept & _).
  exact (Hkept 0 (le_n 1)).
Defined.

(** What the copy is for: an engine that held the caller's configuration
    itself would overwrite the caller's model object in [parse]. *)
Example parse_writes_the_models_it_holds :
  fst (parse derive inlineNothing "uuid"
         {| version := "3.0.0";
            definition := VObj [("openapi", VStr "3.0.0");
                                ("components", VObj [])];
            config := callerConfig [0] |}
         [typedModel])
  = [ {| model_name := "Owner";
         model_schema := Some (derive "owner.ts" "Owner");
         model_tsSchema := None; model_examples := None |} ].
Proof. reflexivity. Qed.

(** ** More on parameters *)

Lemma emittedBlock_names documentationConfig type :
  map (prop "name") (emittedBlock documentationConfig type) =
    map (fun parameter => Some (VStr (param_name parameter)))
        (orEmpty (paramBlock documentationConfig type))
  /\ map (prop "in") (emittedBlock documentationConfig type) =
       map (fun _ => Some (VStr type))
           (orEmpty (paramBlock documentationConfig type)).
Proof.
  unfold emittedBlock.
  destruct (paramBlock documentationConfig type) as [block|];
    [|split; reflexivity].
  cbn [orEmpty]. rewrite !map_map. split; apply map_ext; intros parameter;
    destruct (emitted_keys type parameter) as (fields & -> & Hn & Hi & _);
    assumption.
Qed.

(** X1.  [getParametersFromConfig] never throws, and the parameters come out
    location by location -- path, query, header, cookie -- and in
    declaration order inside a location: one object for each declaration,
    with its [name] and the location as [in]. *)
Theorem parameters_follow_locations
  (documentationConfig : IEventDocumentation) :
  exists parameters,
    getParametersFromConfig documentationConfig = inr parameters
    /\ map (prop "name") parameters =
         map (fun parameter => Some (VStr (param_name parameter)))
             (orEmpty (pathParams documentationConfig)
              ++ orEmpty (queryParams documentationConfig)
              ++ orEmpty (requestHeaders documentationConfig)
              ++ orEmpty (cookieParams documentationConfig))%list
    /\ map (prop "in") parameters =
         (map (fun _ => Some (VStr "path"))
              (orEmpty (pathParams documentationConfig))
          ++ map (fun _ => Some (VStr "query"))
                 (orEmpty (queryParams documentationConfig))
          ++ map (fun _ => Some (VStr "header"))
                 (orEmpty (requestHeaders documentationConfig))
          ++ map (fun _ => Some (VStr "cookie"))
                 (orEmpty (cookieParams documentationConfig)))%list.
Proof.
  rewrite getParametersFromConfig_blocks. eexists. split; [reflexivity|].
  rewrite !map_app.
  destruct (emittedBlock_names documentationConfig "path") as [Hn1 Hi1].
  destruct (emittedBlock_names documentationConfig "query") as [Hn2 Hi2].
  destruct (emittedBlock_names documentationConfig "header") as [Hn3 Hi3].
  destruct (emittedBlock_names documentationConfig "cookie") as [Hn4 Hi4].
  rewrite Hn1, Hn2, Hn3, Hn4, Hi1, Hi2, Hi3, Hi4. split; reflexivity.
Qed.

Lemma get_located_flags type parameter :
  get "allowEmptyValue" (located type parameter) =
    (if type =? "path" then None
     else if type =? "query"
          then Some (VBool (boolOr (param_allowEmptyValue parameter)))
          else None)
  /\ get "allowReserved" (located type parameter) =
       (if type =? "path" then None
        else if type =? "query"
             then option_map (fun _ => VBool (boolOr (param_allowReserved
                                                        parameter)))
                             (param_allowReserved parameter)
             else None)
  /\ get "description" (located type parameter) =
       Some (VStr (strOr (param_description parameter) ""))
  /\ get "deprecated" (located type parameter) = None
  /\ get "style" (located type parameter) = None
  /\ get "schema" (located type parameter) = None
  /\ get "examples" (located type parameter) = None
  /\ get "content" (located type parameter) = None.
Proof.
  unfold located.
  destruct (type =? "path"), (type =? "query"),
    (param_allowReserved parameter); repeat split; reflexivity.
Qed.

(** The keys of the emitted object, one by one. *)
Lemma parameterConfigOf_keys type parameter :
  exists fields,
    parameterConfigOf type parameter = inr (VObj fields)
    /\ get "allowEmptyValue" fields =
         (if type =? "path" then None
          else if type =? "query"
               then Some (VBool (boolOr (param_allowEmptyValue parameter)))
               else None)
    /\ get "allowReserved" fields =
         (if type =? "path" then None
          else if type =? "query"
               then option_map
                      (fun _ => VBool (boolOr (param_allowReserved parameter)))
                      (param_allowReserved parameter)
               else None)
    /\ get "description" fields =
         Some (VStr (strOr (param_description parameter) ""))
    /\ get "deprecated" fields =
         option_map VBool (param_deprecated parameter)
    /\ get "style" fields = option_map VStr (param_style parameter)
    /\ get "examples" fields =
         match param_examples parameter with
         | Some (VArr items) => Some (VArr items)
         | _ => None
         end
    /\ get "content" fields =
         match param_content parameter with
         | Some content => if truthy content then Some content else None
         | None => None
         end
    /\ get "schema" fields =
         match param_schema parameter with
         | Some schema =>
             if truthy schema
             then match cleanSchema schema with
                  | inr cleaned => Some cleaned
                  | inl _ => None
                  end
             else None
         | None => None
         end.
Proof.
  rewrite parameterConfigOf_blocks.
  destruct (get_located_flags type parameter)
    as (He & Hr & Hd & Hdep & Hst & Hsc & Hex & Hco).
  set (o := withStyle parameter (withDeprecated parameter
                                   (located type parameter))).
  assert (Ho : forall k, k <> "deprecated" -> k <> "style" ->
                         k <> "explode" ->
                         get k o = get k (located type parameter)).
  { intros k H1 H2 H3. unfold o.
    now rewrite get_withStyle, get_withDeprecated. }
  assert (Hdep' : get "deprecated" o
                  = option_map VBool (param_deprecated parameter)).
  { unfold o. rewrite get_withStyle by discriminate. unfold withDeprecated.
    destruct (param_deprecated parameter); [apply get_set_same|exact Hdep]. }
  assert (Hst' : get "style" o = option_map VStr (param_style parameter)).
  { unfold o, withStyle.
    destruct (param_style parameter).
    - rewrite get_set_other by discriminate. apply get_set_same.
    - rewrite get_withDeprecated by discriminate. exact Hst. }
  assert (Hs : exists o',
             withSchema parameter o = inr o'
             /\ (forall k, k <> "schema" -> get k o' = get k o)
             /\ get "schema" o' =
                  match param_schema parameter with
                  | Some schema =>
                      if truthy schema
                      then match cleanSchema schema with
                           | inr cleaned => Some cleaned
                           | inl _ => None
                           end
                      else None
                  | None => None
                  end).
  { unfold withSchema.
    assert (Hnone : get "schema" o = None)
      by (rewrite Ho by discriminate; exact Hsc).
    destruct (param_schema parameter) as [schema|]; [|eauto].
    destruct (truthy schema) eqn:Ht; [|eauto].
    destruct (cleanSchema_truthy _ Ht) as [cleaned ->]. cbn [bind ok].
    eexists; split; [reflexivity|]. split.
    - intros k Hk. apply get_set_other. congruence.
    - apply get_set_same. }
  destruct Hs as (o' & -> & Hframe & Hschema). cbn [bind ok].
  eexists; split; [reflexivity|].
  repeat split.
  - rewrite get_withContent, get_withExamples, Hframe, Ho by discriminate.
    exact He.
  - rewrite get_withContent, get_withExamples, Hframe, Ho by discriminate.
    exact Hr.
  - rewrite get_withContent, get_withExamples, Hframe, Ho by discriminate.
    exact Hd.
  - rewrite get_withContent, get_withExamples, Hframe by discriminate.
    exact Hdep'.
  - rewrite get_withContent, get_withExamples, Hframe by discriminate.
    exact Hst'.
  - rewrite get_withContent by discriminate. unfold withExamples.
    destruct (param_examples parameter) as [[| | | |items|]|];
      try (rewrite Hframe, Ho by discriminate; exact Hex).
    apply get_set_same.
  - unfold withContent.
    destruct (param_content parameter) as [content|];
      [destruct (truthy content); [apply get_set_same|]|];
      rewrite get_withExamples, Hframe, Ho by discriminate; exact Hco.
  - rewrite get_withContent, get_withExamples by discriminate.
    exact Hschema.
Qed.

Lemma paramBlock_type documentationConfig type block :
  paramBlock documentationConfig type = Some block ->
  type = "path" \/ type = "query" \/ type = "header" \/ type = "cookie".
Proof.
  unfold paramBlock.
  destruct (type =? "path") eqn:E1;
    [apply String.eqb_eq in E1; auto|].
  destruct (type =? "query") eqn:E2;
    [apply String.eqb_eq in E2; auto|].
  destruct (type =? "header") eqn:E3;
    [apply String.eqb_eq in E3; auto|].
  destruct (type =? "cookie") eqn:E4;
    [apply String.eqb_eq in E4; auto|discriminate].
Qed.

(** Every declaration of a declared block has its object among the
    parameters. *)
Lemma emitted_in_parameters documentationConfig type block parameter :
  paramBlock documentationConfig type = Some block ->
  In parameter block ->
  exists parameters fields,
    getParametersFromConfig documentationConfig = inr parameters
    /\ parameterConfigOf type parameter = inr (VObj fields)
    /\ In (VObj fields) parameters.
Proof.
  intros Hb Hin. rewrite getParametersFromConfig_blocks.
  destruct (parameterConfigOf_returns type parameter) as (fields & Hf & _).
  eexists. exists fields. split; [reflexivity|]. split; [exact Hf|].
  assert (Hblock : In (VObj fields) (emittedBlock documentationConfig type)).
  { unfold emittedBlock. rewrite Hb. apply in_map_iff. exists parameter.
    split; [|exact Hin]. unfold emitted. now rewrite Hf. }
  rewrite !in_app_iff.
  destruct (paramBlock_type _ _ _ Hb) as [-> | [-> | [-> | ->]]]; auto.
Qed.

(** X2.  The location rules: a declaration outside the path block keeps its
    declared [required] ([false] when absent); [allowEmptyValue] is emitted
    for every query parameter ([false] when absent) and for no other
    location; [allowReserved] is emitted only for a query parameter that
    declares it. *)
Theorem location_rules_of_parameters
  (documentationConfig : IEventDocumentation) (type : string)
  (block : list IParameter) (parameter : IParameter) :
  paramBlock documentationConfig type = Some block ->
  In parameter block ->
  exists parameters fields,
    getParametersFromConfig documentationConfig = inr parameters
    /\ In (VObj fields) parameters
    /\ get "name" fields = Some (VStr (param_name parameter))
    /\ get "in" fields = Some (VStr type)
    /\ (type <> "path" ->
        get "required" fields =
          Some (VBool (boolOr (param_required parameter))))
    /\ get "allowEmptyValue" fields =
         (if type =? "query"
          then Some (VBool (boolOr (param_allowEmptyValue parameter)))
          else None)
    /\ get "allowReserved" fields =
         (if type =? "query"
          then option_map
                 (fun _ => VBool (boolOr (param_allowReserved parameter)))
                 (param_allowReserved parameter)
          else None).
Proof.
  intros Hb Hin.
  destruct (emitted_in_parameters _ _ _ _ Hb Hin)
    as (parameters & fields & Hp & Hf & Hmem).
  exists parameters, fields. split; [exact Hp|]. split; [exact Hmem|].
  destruct (parameterConfigOf_returns type parameter)
    as (f1 & Hf1 & Hn & Hi & Hr & _).
  destruct (parameterConfigOf_keys type parameter)
    as (f2 & Hf2 & He & Ha & _).
  rewrite Hf in Hf1, Hf2. injection Hf1 as <-. injection Hf2 as <-.
  repeat split; auto.
  - intros Hne. rewrite Hr.
    destruct (type =? "path") eqn:E; [|reflexivity].
    apply String.eqb_eq in E. contradiction.
  - rewrite He. destruct (type =? "path") eqn:E; [|reflexivity].
    apply String.eqb_eq in E. now subst.
  - rewrite Ha. destruct (type =? "path") eqn:E; [|reflexivity].
    apply String.eqb_eq in E. now subst.
Qed.

Lemma location_rules_of_parameters_witness :
  exists parameters fields,
    getParametersFromConfig
      {| operationId := None; summary := None; description := None;
         tags := None; deprecated := None; requestBody := None;
         requestModels := None; pathParams := None;
         queryParams := None; requestHeaders := Some [fullParameter];
         cookieParams := None; methodResponses := None; security := None |}
    = inr parameters
    /\ In (VObj fields) parameters
    /\ get "required" fields = Some (VBool true)
    /\ get "allowEmptyValue" fields = None
    /\ get "allowReserved" fields = None.
Proof.
  destruct (location_rules_of_parameters
              {| operationId := None; summary := None; description := None;
                 tags := None; deprecated := None; requestBody := None;
                 requestModels := None; pathParams := None;
                 queryParams := None;
                 requestHeaders := Some [fullParameter];
                 cookieParams := None; methodResponses := None;
                 security := None |}
              "header" [fullParameter] fullParameter eq_refl
              (or_introl eq_refl))
    as (parameters & fields & Hp & Hin & _ & _ & Hr & He & Ha).
  exists parameters, fields. repeat split; auto.
  apply Hr. discriminate.
Defined.

(** X3.  The keys that are carried only when declared: [deprecated] and
    [style] are emitted exactly when the declaration has them, with the
    declared value; [explode] is emitted only together with [style], so an
    [explode] declared without a [style] is dropped; [description] is always
    emitted, empty when the declaration has none. *)
Theorem declared_keys_of_parameters
  (documentationConfig : IEventDocumentation) (type : string)
  (block : list IParameter) (parameter : IParameter) :
  paramBlock documentationConfig type = Some block ->
  In parameter block ->
  exists parameters fields,
    getParametersFromConfig documentationConfig = inr parameters
    /\ In (VObj fields) parameters
    /\ get "name" fields = Some (VStr (param_name parameter))
    /\ get "description" fields =
         Some (VStr (strOr (param_description parameter) ""))
    /\ get "deprecated" fields = option_map VBool (param_deprecated parameter)
    /\ get "style" fields = option_map VStr (param_style parameter)
    /\ (param_style parameter = None -> get "explode" fields = None).
Proof.
  intros Hb Hin.
  destruct (emitted_in_parameters _ _ _ _ Hb Hin)
    as (parameters & fields & Hp & Hf & Hmem).
  exists parameters, fields. split; [exact Hp|]. split; [exact Hmem|].
  destruct (parameterConfigOf_returns type parameter)
    as (f1 & Hf1 & Hn & _ & _ & Hx).
  destruct (parameterConfigOf_keys type parameter)
    as (f2 & Hf2 & _ & _ & Hd & Hdep & Hst & _).
  rewrite Hf in Hf1, Hf2. injection Hf1 as <-. injection Hf2 as <-.
  repeat split; auto.
  intros Hnone. now rewrite Hnone in Hx.
Qed.

Lemma declared_keys_of_parameters_witness :
  exists parameters fields,
    getParametersFromConfig
      {| operationId := None; summary := None; description := None;
         tags := None; deprecated := None; requestBody := None;
         requestModels := None; pathParams := None;
         queryParams := Some [fullParameter]; requestHeaders := None;
         cookieParams := None; methodResponses := None; security := None |}
    = inr parameters
    /\ In (VObj fields) parameters
    /\ get "deprecated" fields = Some (VBool false)
    /\ get "style" fields = None
    /\ get "explode" fields = None.
Proof.
  destruct (declared_keys_of_parameters
              {| operationId := None; summary := None; description := None;
                 tags := None; deprecated := None; requestBody := None;
                 requestModels := None; pathParams := None;
                 queryParams := Some [fullParameter];
                 requestHeaders := None;
                 cookieParams := None; methodResponses := None;
                 security := None |}
              "query" [fullParameter] fullParameter eq_refl
              (or_introl eq_refl))
    as (parameters & fields & Hp & Hin & _ & _ & Hd & Hs & He).
  exists parameters, fields. repeat split; auto.
Defined.

(** [cleanSchema] on an object: the result is an object without a truthy
    [$schema], every other key as it was, and cleaning it again changes
    nothing. *)
Lemma cleanSchema_object fields :
  exists cleaned,
    cleanSchema (VObj fields) = inr (VObj cleaned)
    /\ stripped (VObj cleaned)
    /\ (forall k, k <> "$schema" -> get k cleaned = get k fields)
    /\ cleanSchema (VObj cleaned) = inr (VObj cleaned).
Proof.
  unfold cleanSchema, Utils.clone, stripped. cbn [prop].
  destruct (get "$schema" fields) as [s|] eqn:Hs;
    [destruct (truthy s) eqn:Ht|].
  - exists (remove "$schema" fields). rewrite get_remove_same.
    repeat split; try discriminate.
    intros k Hk. apply get_remove_other. congruence.
  - exists fields. rewrite Hs, Ht. repeat split. congruence.
  - exists fields. rewrite Hs. repeat split. discriminate.
Qed.



(** X4.  The keys that are checked before they are carried: [examples] is
    emitted only when it is an array; [content] only when it is truthy;
    [schema] only when it is truthy, and an object schema is emitted as
    [cleanSchema] returns it: without a truthy [$schema], every other key as
    declared. *)
Theorem checked_keys_of_parameters
  (documentationConfig : IEventDocumentation) (type : string)
  (block : list IParameter) (parameter : IParameter) :
  paramBlock documentationConfig type = Some block ->
  In parameter block ->
  exists parameters fields,
    getParametersFromConfig documentationConfig = inr parameters
    /\ In (VObj fields) parameters
    /\ get "name" fields = Some (VStr (param_name parameter))
    /\ get "examples" fields =
         match param_examples parameter with
         | Some (VArr items) => Some (VArr items)
         | _ => None
         end
    /\ get "content" fields =
         match param_content parameter with
         | Some content => if truthy content then Some content else None
         | None => None
         end
    /\ (param_schema parameter = None -> get "schema" fields = None)
    /\ (forall schema,
          param_schema parameter = Some schema ->
          truthy schema = false ->
          get "schema" fields = None)
    /\ (forall schema,
          param_schema parameter = Some (VObj schema) ->
          exists cleaned,
            get "schema" fields = Some (VObj cleaned)
            /\ stripped (VObj cleaned)
            /\ forall k, k <> "$schema" -> get k cleaned = get k schema).
Proof.
  intros Hb Hin.
  destruct (emitted_in_parameters _ _ _ _ Hb Hin)
    as (parameters & fields & Hp & Hf & Hmem).
  exists parameters, fields. split; [exact Hp|]. split; [exact Hmem|].
  destruct (parameterConfigOf_returns type parameter)
    as (f1 & Hf1 & Hn & _).
  destruct (parameterConfigOf_keys type parameter)
    as (f2 & Hf2 & _ & _ & _ & _ & _ & Hex & Hco & Hsc).
  rewrite Hf in Hf1, Hf2. injection Hf1 as <-. injection Hf2 as <-.
  repeat split; auto.
  - intros Hnone. now rewrite Hnone in Hsc.
  - intros schema Hs Ht. now rewrite Hs, Ht in Hsc.
  - intros schema Hs. rewrite Hs in Hsc. cbn [truthy] in Hsc.
    destruct (cleanSchema_object schema) as (cleaned & Hc & Hst & Hk & _).
    rewrite Hc in Hsc. eauto.
Qed.

Lemma checked_keys_of_parameters_witness :
  exists parameters fields,
    getParametersFromConfig
      {| operationId := None; summary := None; description := None;
         tags := None; deprecated := None; requestBody := None;
         requestModels := None; pathParams := None;
         queryParams := Some [fullParameter]; requestHeaders := None;
         cookieParams := None; methodResponses := None; security := None |}
    = inr parameters
    /\ In (VObj fields) parameters
    /\ get "examples" fields = None
    /\ get "content" fields = None
    /\ exists cleaned,
         get "schema" fields = Some (VObj cleaned)
         /\ get "type" cleaned = Some (VStr "integer").
Proof.
  destruct (checked_keys_of_parameters
              {| operationId := None; summary := None; description := None;
                 tags := None; deprecated := None; requestBody := None;
                 requestModels := None; pathParams := None;
                 queryParams := Some [fullParameter];
                 requestHeaders := None;
                 cookieParams := None; methodResponses := None;
                 security := None |}
              "query" [fullParameter] fullParameter eq_refl
              (or_introl eq_refl))
    as (parameters & fields & Hp & Hin & _ & He & Hc & _ & _ & Hs).
  exists parameters, fields. repeat split; auto.
  destruct (Hs _ eq_refl) as (cleaned & Hg & _ & Hk).
  exists cleaned. split; [exact Hg|]. now rewrite Hk by discriminate.
Defined.

(** ** More on operations *)

Lemma headline_keys funcName documentationConfig :
  get "operationId" (headline funcName documentationConfig) =
    Some (VStr funcName)
  /\ get "summary" (headline funcName documentationConfig) =
       match summary documentationConfig with
       | Some s => if s =? "" then None else Some (VStr s)
       | None => None
       end
  /\ get "description" (headline funcName documentationConfig) =
       match description documentationConfig with
       | Some s => if s =? "" then None else Some (VStr s)
       | None => None
       end
  /\ get "tags" (headline funcName documentationConfig) =
       option_map (fun ts => VArr (map VStr ts)) (tags documentationConfig)
  /\ get "deprecated" (headline funcName documentationConfig) =
       (if boolOr (deprecated documentationConfig)
        then Some (VBool true) else None).
Proof.
  unfold headline.
  destruct (summary documentationConfig) as [s|];
    [destruct (s =? "")|];
    (destruct (description documentationConfig) as [d|];
     [destruct (d =? "")|]);
    destruct (tags documentationConfig),
      (boolOr (deprecated documentationConfig));
    repeat split; reflexivity.
Qed.

Lemma get_withAuthorizer cfg config o k :
  k <> "security" -> get k (withAuthorizer cfg config o) = get k o.
Proof.
  intros Hk. unfold withAuthorizer.
  destruct (config_security cfg) as [declared|]; [|reflexivity].
  destruct (truthyAuthorizer _); [|reflexivity].
  destruct (find _ declared); [|reflexivity].
  apply get_set_other. congruence.
Qed.

Lemma withSecurity_frame cfg documentationConfig o operation :
  withSecurity cfg documentationConfig o = inr operation ->
  exists fields,
    operation = VObj fields
    /\ forall k, k <> "security" -> get k fields = get k o.
Proof.
  unfold withSecurity.
  destruct (security documentationConfig) as [names|];
    [|intros [= <-]; eauto].
  destruct (config_security cfg) as [declared|]; [|discriminate].
  destruct (0 <? _)%nat; intros [= <-]; eexists; split; eauto.
  intros k Hk. apply get_set_other. congruence.
Qed.

(** The anatomy of a built operation. *)
Lemma operation_keys cfg funcName config documentationConfig operation :
  documentation config = Some documentationConfig ->
  getOperationFromConfig cfg funcName config = inr operation ->
  exists fields parameters responses,
    operation = VObj fields
    /\ getParametersFromConfig documentationConfig = inr parameters
    /\ getResponsesFromConfig cfg documentationConfig = inr responses
    /\ get "parameters" fields = Some (VArr parameters)
    /\ get "responses" fields = Some responses
    /\ get "requestBody" fields =
         match requestModels documentationConfig with
         | Some _ =>
             match getRequestBodiesFromConfig cfg documentationConfig with
             | inr body => Some body
             | inl _ => None
             end
         | None => None
         end
    /\ forall k,
         k <> "requestBody" -> k <> "parameters" -> k <> "responses" ->
         k <> "security" ->
         get k fields = get k (headline funcName documentationConfig).
Proof.
  intros Hdoc. rewrite getOperationFromConfig_blocks, Hdoc.
  destruct (withRequestBody _ _ _) as [|o] eqn:Ho; cbn [bind];
    [discriminate|].
  destruct (getParametersFromConfig _) as [|parameters];
    cbn [bind]; [discriminate|].
  destruct (getResponsesFromConfig _ _) as [|responses];
    cbn [bind]; [discriminate|].
  intros Hs. apply withSecurity_frame in Hs.
  destruct Hs as (fields & -> & Hframe).
  exists fields, parameters, responses. repeat split.
  - rewrite Hframe, get_withAuthorizer by discriminate.
    rewrite get_set_other by discriminate. apply get_set_same.
  - rewrite Hframe, get_withAuthorizer by discriminate. apply get_set_same.
  - rewrite Hframe, get_withAuthorizer by discriminate.
    rewrite !get_set_other by discriminate.
    unfold withRequestBody in Ho.
    destruct (requestModels documentationConfig).
    + destruct (getRequestBodiesFromConfig _ _) as [|body];
        cbn [bind ok] in Ho; [discriminate|].
      injection Ho as <-. apply get_set_same.
    + injection Ho as <-. apply get_headline; discriminate.
  - intros k H1 H2 H3 H4.
    rewrite Hframe, get_withAuthorizer by assumption.
    rewrite !get_set_other by congruence.
    apply (withRequestBody_frame _ _ _ _ _ Ho H1).
Qed.

(** X6.  The metadata of a built operation: [operationId] is the name it was
    built under; [summary] and [description] are emitted exactly when they
    are non-empty strings; [tags] exactly when declared; [deprecated] only
    as [true], and exactly when the block declares [true]. *)
Theorem operation_metadata
  (cfg : IDefinitionConfig IModel) (funcName : string)
  (config : OperationConfig) (documentationConfig : IEventDocumentation)
  (operation : value) :
  documentation config = Some documentationConfig ->
  getOperationFromConfig cfg funcName config = inr operation ->
  prop "operationId" operation = Some (VStr funcName)
  /\ prop "summary" operation =
       match summary documentationConfig with
       | Some s => if s =? "" then None else Some (VStr s)
       | None => None
       end
  /\ prop "description" operation =
       match description documentationConfig with
       | Some s => if s =? "" then None else Some (VStr s)
       | None => None
       end
  /\ prop "tags" operation =
       option_map (fun ts => VArr (map VStr ts)) (tags documentationConfig)
  /\ prop "deprecated" operation =
       match deprecated documentationConfig with
       | Some true => Some (VBool true)
       | _ => None
       end.
Proof.
  intros Hdoc Hop.
  destruct (operation_keys _ _ _ _ _ Hdoc Hop)
    as (fields & parameters & responses & -> & _ & _ & _ & _ & _ & Hk).
  destruct (headline_keys funcName documentationConfig)
    as (H1 & H2 & H3 & H4 & H5).
  cbn [prop]. rewrite !Hk by discriminate. repeat split; auto.
  rewrite H5. now destruct (deprecated documentationConfig) as [[]|].
Qed.

Lemma operation_metadata_witness :
  exists operation,
    getOperationFromConfig (configOf None None) "handler"
      (eventOf "/pets" "get" None blankDocumentation) = inr operation
    /\ prop "operationId" operation = Some (VStr "handler")
    /\ prop "summary" operation = None
    /\ prop "description" operation = None
    /\ prop "deprecated" operation = None.
Proof.
  eexists. split; [reflexivity|].
  destruct (operation_metadata (configOf None None) "handler"
              (eventOf "/pets" "get" None blankDocumentation)
              blankDocumentation _ eq_refl eq_refl)
    as (H1 & H2 & H3 & _ & H5).
  repeat split; assumption.
Defined.

(** X7.  The parts of a built operation that do not depend on what is
    documented: [parameters] is always there, the array
    [getParametersFromConfig] returns, and [responses] is always there, the
    object [getResponsesFromConfig] returns; [requestBody] is there exactly
    when the block has [requestModels] -- an empty map included -- and is
    then what [getRequestBodiesFromConfig] returns. *)
Theorem operation_parts
  (cfg : IDefinitionConfig IModel) (funcName : string)
  (config : OperationConfig) (documentationConfig : IEventDocumentation)
  (operation : value) :
  documentation config = Some documentationConfig ->
  getOperationFromConfig cfg funcName config = inr operation ->
  (exists parameters,
     getParametersFromConfig documentationConfig = inr parameters
     /\ prop "parameters" operation = Some (VArr parameters))
  /\ (exists responses,
        getResponsesFromConfig cfg documentationConfig = inr (VObj responses)
        /\ prop "responses" operation = Some (VObj responses))
  /\ (requestModels documentationConfig = None ->
      prop "requestBody" operation = None)
  /\ (forall models,
        requestModels documentationConfig = Some models ->
        exists body,
          getRequestBodiesFromConfig cfg documentationConfig
          = inr (VObj body)
          /\ prop "requestBody" operation = Some (VObj body)).
Proof.
  intros Hdoc Hop.
  destruct (operation_keys _ _ _ _ _ Hdoc Hop)
    as (fields & parameters & responses & -> & Hp & Hr & Hgp & Hgr & Hb & _).
  cbn [prop]. repeat split.
  - eauto.
  - pose proof (getResponsesFromConfig_decide cfg documentationConfig) as Hd.
    destruct (match methodResponses documentationConfig with
              | Some declared => forallb _ declared
              | None => true
              end).
    + destruct Hd as (r & Hr' & [o ->]). rewrite Hr in Hr'.
      injection Hr' as ->. eauto.
    + destruct Hd as (e & He & _). congruence.
  - intros Hnone. now rewrite Hnone in Hb.
  - intros models Hm. rewrite Hm in Hb.
    rewrite getOperationFromConfig_blocks, Hdoc in Hop.
    unfold withRequestBody in Hop. rewrite Hm in Hop.
    destruct (getRequestBodiesFromConfig cfg documentationConfig)
      as [|body] eqn:Hbody; cbn [bind] in Hop; [discriminate|].
    pose proof (getRequestBodiesFromConfig_decide cfg _ _ Hm) as Hd.
    destruct (match models with [] => true | _ :: _ => modelsDeclared cfg end).
    + destruct Hd as (b & Hb' & [o ->]). rewrite Hbody in Hb'.
      injection Hb' as ->. eauto.
    + destruct Hd as (e & He & _). congruence.
Qed.

Lemma operation_parts_witness :
  exists operation,
    getOperationFromConfig (configOf None None) "handler"
      (eventOf "/pets" "get" None describedDocumentation) = inr operation
    /\ prop "parameters" operation = Some (VArr [])
    /\ prop "responses" operation = Some (VObj [])
    /\ prop "requestBody" operation = Some (VObj []).
Proof.
  eexists. split; [reflexivity|].
  destruct (operation_parts (configOf None None) "handler"
              (eventOf "/pets" "get" None describedDocumentation)
              describedDocumentation _ eq_refl eq_refl)
    as (_ & _ & _ & Hbody).
  destruct (Hbody [] eq_refl) as (body & _ & _).
  repeat split; reflexivity.
Defined.

(** X8.  Operation construction fails on exactly the inputs that make it
    read a property of [undefined] -- a model name to look up, or a
    documented [security] list, under a configuration without the list it
    is looked up in, or a method response without [responseModels] -- and
    then with a TypeError; on every other documented event it returns an
    object. *)
Theorem operation_construction_fails_only_on_missing_lists
  (cfg : IDefinitionConfig IModel) (funcName : string)
  (config : OperationConfig) (documentationConfig : IEventDocumentation) :
  documentation config = Some documentationConfig ->
  (buildable cfg documentationConfig = true ->
   exists fields,
     getOperationFromConfig cfg funcName config = inr (VObj fields))
  /\ (buildable cfg documentationConfig = false ->
      exists what,
        getOperationFromConfig cfg funcName config = inl (TypeError what)).
Proof.
  intros Hdoc.
  pose proof (getOperationFromConfig_decide cfg funcName _ _ Hdoc) as H.
  split; intros Hb; rewrite Hb in H; [exact H|].
  destruct H as (e & He & what & ->). eauto.
Qed.

Lemma operation_construction_fails_only_on_missing_lists_witness :
  exists what,
    getOperationFromConfig (configOf None None) "handler"
      (eventOf "/pets" "get" None
         (respondingDocumentation
            [ {| statusCode := "204"; responseBody := None;
                 responseModels := None; responseHeaders := None |} ]))
    = inl (TypeError what).
Proof.
  exact (proj2 (operation_construction_fails_only_on_missing_lists
                  (configOf None None) "handler"
                  (eventOf "/pets" "get" None
                     (respondingDocumentation
                        [ {| statusCode := "204"; responseBody := None;
                             responseModels := None;
                             responseHeaders := None |} ]))
                  _ eq_refl)
               eq_refl).
Defined.

(** ** More on security *)

Lemma find_first {A} (f : A -> bool) before x after :
  f x = true -> (forall y, In y before -> f y = false) ->
  find f (before ++ x :: after) = Some x.
Proof.
  intros Hx. induction before as [|y before IH]; intros Hb; simpl.
  - now rewrite Hx.
  - rewrite (Hb y (or_introl eq_refl)). apply IH.
    intros ? ?. apply Hb. now right.
Qed.

(** X9.  When the documented [security] list selects nothing, an event whose
    authorizer is truthy gets the requirement of the first declared
    definition whose [authorizerName] is strictly equal to the authorizer's
    name -- two absent names included, so an authorizer object without a
    [name] selects the first definition without an [authorizerName]. *)
Theorem authorizer_alone_selects_the_first_match
  (cfg : IDefinitionConfig IModel) (funcName : string)
  (config : OperationConfig) (documentationConfig : IEventDocumentation)
  (operation : value) (a : Authorizer)
  (before after : list ISecurity) (s : ISecurity) :
  documentation config = Some documentationConfig ->
  getOperationFromConfig cfg funcName config = inr operation ->
  config_security cfg = Some (before ++ s :: after)%list ->
  authorizer config = Some a ->
  truthyAuthorizer (Some a) = true ->
  security_authorizerName s = authorizerNameOf a ->
  (forall s', In s' before ->
              security_authorizerName s' <> authorizerNameOf a) ->
  (forall s', ~ documentedRule cfg documentationConfig s') ->
  prop "security" operation =
    Some (VArr [VObj [(security_name s, VArr [])]]).
Proof.
  intros Hdoc Hop Hsec Ha Ht Hs Hbefore Hnone.
  rewrite (security_of_operation _ _ _ _ _ Hdoc Hop).
  destruct (documentedMatches cfg documentationConfig) as [|s0 rest] eqn:Hm.
  - unfold authorizerMatch. rewrite Hsec, Ha, Ht.
    rewrite find_first; [reflexivity| |].
    + now apply sameName_eq.
    + intros s' Hin. specialize (Hbefore s' Hin).
      destruct (sameName _ _) eqn:E; [|reflexivity].
      apply sameName_eq in E. contradiction.
  - destruct (Hnone s0). apply documentedMatches_In. rewrite Hm. now left.
Qed.

Lemma authorizer_alone_selects_the_first_match_witness :
  exists operation,
    getOperationFromConfig
      (configOf
         (Some [jwtScheme;
                {| security_authorizerName := None;
                   security_name := "iam"; security_rest := [] |}])
         None)
      "listPets"
      (eventOf "/pets" "get" (Some (AuthorizerObject None))
         plainDocumentation)
    = inr operation
    /\ prop "security" operation = Some (VArr [VObj [("iam", VArr [])]]).
Proof.
  eexists. split; [reflexivity|].
  apply (authorizer_alone_selects_the_first_match
           (configOf
              (Some [jwtScheme;
                     {| security_authorizerName := None;
                        security_name := "iam"; security_rest := [] |}])
              None)
           "listPets"
           (eventOf "/pets" "get" (Some (AuthorizerObject None))
              plainDocumentation)
           plainDocumentation _ (AuthorizerObject None)
           [jwtScheme] []
           {| security_authorizerName := None;
              security_name := "iam"; security_rest := [] |});
    try reflexivity.
  - intros s' [<-|[]]. discriminate.
  - intros s' (declared & names & _ & Hn & _). discriminate Hn.
Defined.

(** ** More on contents *)

Lemma set_fresh {A} k (v : A) o :
  get k o = None -> set k v o = (o ++ [(k, v)])%list.
Proof.
  induction o as [|[k' v'] o IH]; simpl; [reflexivity|].
  destruct (k =? k'); [discriminate|]. intros H. now rewrite IH.
Qed.

Lemma get_not_key {A} k (o : dict A) : ~ In k (keys o) -> get k o = None.
Proof.
  intros H. destruct (get k o) eqn:E; [|reflexivity].
  destruct H. clear - E. induction o as [|[k' v'] o IH]; [discriminate|].
  simpl in *. destruct (k =? k') eqn:Ek.
  - apply String.eqb_eq in Ek. now left.
  - right. auto.
Qed.

Lemma keys_wiredEntries lookup models k :
  In k (keys (wiredEntries lookup models)) -> In k (keys models).
Proof.
  unfold keys, wiredEntries. rewrite !in_map_iff.
  intros ([k' v] & <- & Hin). apply in_flat_map in Hin.
  destruct Hin as ([k0 n] & Hin & Hv). cbn [fst snd] in Hv.
  destruct (lookup n); [|destruct Hv].
  destruct Hv as [[= <- _]|[]]. now exists (k0, n).
Qed.

Lemma wiredEntries_app lookup (models more : dict string) :
  wiredEntries lookup (models ++ more)%list =
    (wiredEntries lookup models ++ wiredEntries lookup more)%list.
Proof. unfold wiredEntries. apply flat_map_app. Qed.

(** The loop of [getResponseContent] on distinct content types: the
    resolved ones are appended one after the other. *)
Lemma responseContent_loop cfg declared :
  config_models cfg = Some declared ->
  forall (remaining processed : dict string),
  NoDup (keys (processed ++ remaining)%list) ->
  forEach
    (fun content (entry : string * string) =>
       let (responseKey, modelName) := entry in
       declared <- configModels cfg ;;
       match find (fun model => model_name model =? modelName) declared with
       | Some responseModel =>
           ok (Utils.merge content
                 (VObj [(responseKey,
                         attachExamples responseModel (schemaRef modelName))]))
       | None => ok content
       end)
    remaining (VObj (wiredEntries (firstNamed declared) processed))
  = inr (VObj (wiredEntries (firstNamed declared)
                 (processed ++ remaining)%list)).
Proof.
  intros Hm. unfold configModels. rewrite Hm.
  induction remaining as [|[k n] remaining IH]; intros processed Hnd;
    cbn [forEach bind ok].
  - now rewrite app_nil_r.
  - assert (Hstep : wiredEntries (firstNamed declared)
                      (processed ++ [(k, n)])%list
                    = match find (fun model => model_name model =? n)
                                 declared with
                      | Some m =>
                          (wiredEntries (firstNamed declared) processed
                           ++ [(k, attachExamples m (schemaRef n))])%list
                      | None => wiredEntries (firstNamed declared) processed
                      end).
    { rewrite wiredEntries_app. unfold wiredEntries at 2. simpl.
      unfold firstNamed, wired.
      destruct (find _ declared); [reflexivity|apply app_nil_r]. }
    assert (Hfresh : get k (wiredEntries (firstNamed declared) processed)
                     = None).
    { apply get_not_key. intros Hin. apply keys_wiredEntries in Hin.
      unfold keys in Hnd. rewrite map_app in Hnd.
      apply NoDup_remove_2 in Hnd. apply Hnd. apply in_app_iff. now left. }
    replace (processed ++ (k, n) :: remaining)%list
      with ((processed ++ [(k, n)]) ++ remaining)%list
      by (now rewrite <- app_assoc).
    rewrite <- IH by (now rewrite <- app_assoc).
    rewrite Hstep.
    destruct (find _ declared) as [m|]; [|reflexivity].
    cbn [bind]. rewrite merge_single, Hfresh, set_fresh by exact Hfresh.
    reflexivity.
Qed.

Lemma wired_keys model name :
  exists entry,
    wired model name = VObj entry
    /\ get "schema" entry =
         Some (VObj [("$ref", VStr ("#/components/schemas/" ++ name))])
    /\ get "examples" entry =
         match model_examples model with
         | Some examples => if truthy examples then Some examples else None
         | None => None
         end.
Proof.
  unfold wired, attachExamples, schemaRef, Utils.clone.
  destruct (model_examples model) as [examples|];
    [destruct (truthy examples)|]; eexists; repeat split; reflexivity.
Qed.

Lemma get_wiredEntries lookup models : forall k name,
  NoDup (keys models) -> In (k, name) models ->
  get k (wiredEntries lookup models) =
    option_map (fun model => wired model name) (lookup name).
Proof.
  induction models as [|[k0 n0] models IH]; intros k name Hnd Hin;
    [destruct Hin|].
  simpl in Hnd. inversion Hnd as [|? ? Hnotin Hnd']; subst.
  change ((k0, n0) :: models) with ([(k0, n0)] ++ models)%list.
  rewrite wiredEntries_app. unfold wiredEntries at 1. simpl.
  destruct Hin as [[= -> ->]|Hin].
  - destruct (lookup name) as [m|]; simpl.
    + now rewrite String.eqb_refl.
    + apply get_not_key. intros H. apply keys_wiredEntries in H.
      contradiction.
  - assert (Hne : (k =? k0) = false).
    { apply String.eqb_neq. intros ->. apply Hnotin.
      unfold keys. apply in_map_iff. now exists (k0, name). }
    destruct (lookup n0); simpl; rewrite ?Hne; now apply IH.
Qed.

(** X10.  The content of a response, for declared models and distinct
    content types: [getResponseContent] returns; a content type whose name
    no model has is left out; the others come out in the order of the map,
    each with [schema.$ref] pointing at [#/components/schemas/<name>] and
    with the truthy [examples] of the first declared model of that name. *)
Theorem response_content_is_wired
  (cfg : IDefinitionConfig IModel) (declared : list IModel)
  (models : dict string) :
  config_models cfg = Some declared ->
  NoDup (keys models) ->
  exists content,
    getResponseContent cfg (Some models) = inr (VObj content)
    /\ keys content =
         keys (filter (fun entry =>
                         existsb (fun model => model_name model =? snd entry)
                                 declared) models)
    /\ forall k name,
         In (k, name) models ->
         match find (fun model => model_name model =? name) declared with
         | None => get k content = None
         | Some model =>
             exists entry,
               get k content = Some (VObj entry)
               /\ get "schema" entry =
                    Some (VObj [("$ref",
                                 VStr ("#/components/schemas/" ++ name))])
               /\ get "examples" entry =
                    match model_examples model with
                    | Some examples =>
                        if truthy examples then Some examples else None
                    | None => None
                    end
         end.
Proof.
  intros Hm Hnd. unfold getResponseContent.
  pose proof (responseContent_loop cfg declared Hm models [] Hnd) as Hloop.
  exists (wiredEntries (firstNamed declared) models).
  split; [exact Hloop|]. split.
  - clear. unfold keys, wiredEntries, firstNamed.
    induction models as [|[k n] models IH]; [reflexivity|]. simpl.
    destruct (find (fun model => model_name model =? n) declared) eqn:Hf.
    + replace (existsb _ declared) with true.
      * simpl. now rewrite IH.
      * symmetry. apply existsb_exists. apply find_some in Hf. eauto.
    + replace (existsb _ declared) with false; [exact IH|].
      symmetry. apply not_true_is_false. intros He.
      apply existsb_exists in He. destruct He as (m & Hin & Hn).
      now rewrite (find_none _ _ Hf m Hin) in Hn.
  - intros k name Hin.
    rewrite (get_wiredEntries _ _ _ _ Hnd Hin). unfold firstNamed.
    destruct (find _ declared) as [model|]; [|reflexivity].
    destruct (wired_keys model name) as (entry & He & Hs & Hx).
    exists entry. cbn [option_map]. rewrite He. auto.
Qed.

Lemma response_content_is_wired_witness :
  getResponseContent (configOf None (Some [firstPet; lastPet]))
    (Some [("application/json", "Pet"); ("text/plain", "Ghost")])
  = inr (VObj [("application/json",
                VObj [("schema",
                       VObj [("$ref", VStr "#/components/schemas/Pet")]);
                      ("examples", VArr [VStr "first"])])]).
Proof.
  destruct (response_content_is_wired
              (configOf None (Some [firstPet; lastPet])) [firstPet; lastPet]
              [("application/json", "Pet"); ("text/plain", "Ghost")]
              eq_refl)
    as (content & Hc & _).
  - repeat constructor; simpl; intuition discriminate.
  - reflexivity.
Defined.

Lemma bodyDescription_shape documentationConfig :
  bodyDescription documentationConfig = []
  \/ exists d, bodyDescription documentationConfig = [("description", VStr d)].
Proof.
  unfold bodyDescription.
  destruct (requestBody documentationConfig) as [body|]; [|now left].
  destruct (body_description body) as [d|]; [right; eauto|now left].
Qed.

(** One resolved content type merged into a request body. *)
Lemma bodyOf_merge entries described k v :
  described = [] \/ (exists d, described = [("description", VStr d)]) ->
  get k entries = None ->
  Utils.merge (VObj (bodyOf entries described))
    (VObj (("content", VObj [(k, v)]) :: described))
  = VObj (bodyOf (entries ++ [(k, v)])%list described).
Proof.
  intros Hd Hfresh. destruct entries as [|e entries].
  - destruct Hd as [->|[d ->]]; reflexivity.
  - rewrite merge_objects. cbn [bodyOf app fold_left].
    assert (Hc : mergeKey (("content", VObj (e :: entries)) :: described)
                   ("content", VObj [(k, v)])
                 = ("content", VObj ((e :: entries) ++ [(k, v)])%list)
                     :: described).
    { unfold mergeKey. cbn [fst snd get]. rewrite String.eqb_refl.
      rewrite merge_single, Hfresh, (set_fresh k _ (e :: entries) Hfresh).
      cbn [set]. now rewrite String.eqb_refl. }
    rewrite Hc. destruct Hd as [->|[d ->]]; reflexivity.
Qed.

(** The loop of [getRequestBodiesFromConfig] on distinct content types. *)
Lemma requestBodies_loop cfg declared documentationConfig :
  config_models cfg = Some declared ->
  forall (remaining processed : dict string),
  NoDup (keys (processed ++ remaining)%list) ->
  forEach
    (fun requestBodies (entry : string * string) =>
       let (requestModelType, modelName) := entry in
       declared <- configModels cfg ;;
       match pop (filter (fun model => model_name model =? modelName)
                         declared) with
       | Some requestModel =>
           let reqModelConfig :=
             attachExamples requestModel (schemaRef modelName) in
           let reqBodyConfig : dict value :=
             [("content", VObj [(requestModelType, reqModelConfig)])] in
           let reqBodyConfig :=
             match requestBody documentationConfig with
             | Some body =>
                 match body_description body with
                 | Some d => set "description" (VStr d) reqBodyConfig
                 | None => reqBodyConfig
                 end
             | None => reqBodyConfig
             end in
           ok (Utils.merge requestBodies (VObj reqBodyConfig))
       | None => ok requestBodies
       end)
    remaining
    (VObj (bodyOf (wiredEntries (lastNamed declared) processed)
             (bodyDescription documentationConfig)))
  = inr (VObj (bodyOf (wiredEntries (lastNamed declared)
                         (processed ++ remaining)%list)
                 (bodyDescription documentationConfig))).
Proof.
  intros Hm. unfold configModels. rewrite Hm.
  induction remaining as [|[k n] remaining IH]; intros processed Hnd;
    cbn [forEach bind ok].
  - now rewrite app_nil_r.
  - assert (Hstep : wiredEntries (lastNamed declared)
                      (processed ++ [(k, n)])%list
                    = match pop (filter (fun model => model_name model =? n)
                                        declared) with
                      | Some m =>
                          (wiredEntries (lastNamed declared) processed
                           ++ [(k, attachExamples m (schemaRef n))])%list
                      | None => wiredEntries (lastNamed declared) processed
                      end).
    { rewrite wiredEntries_app. unfold wiredEntries at 2. simpl.
      unfold lastNamed, wired.
      destruct (pop _); [reflexivity|apply app_nil_r]. }
    assert (Hfresh : get k (wiredEntries (lastNamed declared) processed)
                     = None).
    { apply get_not_key. intros Hin. apply keys_wiredEntries in Hin.
      unfold keys in Hnd. rewrite map_app in Hnd.
      apply NoDup_remove_2 in Hnd. apply Hnd. apply in_app_iff. now left. }
    replace (processed ++ (k, n) :: remaining)%list
      with ((processed ++ [(k, n)]) ++ remaining)%list
      by (now rewrite <- app_assoc).
    rewrite <- IH by (now rewrite <- app_assoc).
    rewrite Hstep.
    destruct (pop _) as [m|]; [|reflexivity].
    cbn [bind].
    unfold bodyDescription.
    destruct (requestBody documentationConfig) as [body|];
      [destruct (body_description body) as [d|]|];
      cbn [set String.eqb Ascii.eqb Bool.eqb];
      (rewrite bodyOf_merge; [reflexivity| |exact Hfresh]);
      [right; eauto|now left|now left].
Qed.

(** X11.  The request body, for declared models and distinct content
    types: the builder returns an object.  When no name resolves it is the
    empty object -- no [content], and no [description] even if one is
    documented.  Otherwise a resolved content type is found under
    [content], with [schema.$ref] pointing at [#/components/schemas/<name>]
    and the truthy [examples] of the last declared model of that name; an
    unresolved one is left out; and [description] is the documented one. *)
Theorem request_body_is_wired
  (cfg : IDefinitionConfig IModel) (declared : list IModel)
  (documentationConfig : IEventDocumentation) (models : dict string) :
  config_models cfg = Some declared ->
  requestModels documentationConfig = Some models ->
  NoDup (keys models) ->
  exists body,
    getRequestBodiesFromConfig cfg documentationConfig = inr (VObj body)
    /\ ((forall k name, In (k, name) models ->
                        lastNamed declared name = None) ->
        body = [])
    /\ (forall k name,
          In (k, name) models ->
          match pop (filter (fun model => model_name model =? name)
                            declared) with
          | None =>
              forall content,
                get "content" body = Some (VObj content) ->
                get k content = None
          | Some model =>
              exists content entry,
                get "content" body = Some (VObj content)
                /\ get k content = Some (VObj entry)
                /\ get "schema" entry =
                     Some (VObj [("$ref",
                                  VStr ("#/components/schemas/" ++ name))])
                /\ get "examples" entry =
                     match model_examples model with
                     | Some examples =>
                         if truthy examples then Some examples else None
                     | None => None
                     end
                /\ get "description" body =
                     match requestBody documentationConfig with
                     | Some described =>
                         option_map VStr (body_description described)
                     | None => None
                     end
          end).
Proof.
  intros Hm Hr Hnd. unfold getRequestBodiesFromConfig. rewrite Hr.
  pose proof (requestBodies_loop cfg declared documentationConfig Hm
                models [] Hnd) as Hloop.
  exists (bodyOf (wiredEntries (lastNamed declared) models)
            (bodyDescription documentationConfig)).
  split; [exact Hloop|]. split.
  - intros Hnone.
    replace (wiredEntries (lastNamed declared) models)
      with (@nil (string * value)); [reflexivity|].
    symmetry. clear - Hnone. unfold wiredEntries.
    induction models as [|[k n] models IH]; [reflexivity|]. simpl.
    rewrite (Hnone k n (or_introl eq_refl)). apply IH.
    intros k' n' Hin. apply (Hnone k' n'). now right.
  - intros k name Hin.
    pose proof (get_wiredEntries (lastNamed declared) _ _ _ Hnd Hin) as Hget.
    unfold lastNamed at 2 in Hget.
    destruct (pop _) as [model|] eqn:Hp; cbn [option_map] in Hget.
    + destruct (wired_keys model name) as (entry & He & Hs & Hx).
      exists (wiredEntries (lastNamed declared) models), entry.
      rewrite Hget, He.
      destruct (wiredEntries (lastNamed declared) models) as [|e entries]
        eqn:Hw; [discriminate Hget|].
      cbn [bodyOf get]. repeat split; auto.
      change ("description" =? "content") with false. cbn iota.
      unfold bodyDescription.
      destruct (requestBody documentationConfig) as [described|];
        [destruct (body_description described)|]; reflexivity.
    + intros content Hc.
      destruct (wiredEntries (lastNamed declared) models) as [|e entries]
        eqn:Hw; [discriminate Hc|].
      cbn [bodyOf get] in Hc. injection Hc as <-. exact Hget.
Qed.

Lemma request_body_is_wired_witness :
  getRequestBodiesFromConfig (configOf None (Some [firstPet; lastPet]))
    (postingDocumentation
       [("application/json", "Pet"); ("text/plain", "Ghost")])
  = inr (VObj [("content",
                VObj [("application/json",
                       VObj [("schema",
                              VObj [("$ref",
                                     VStr "#/components/schemas/Pet")]);
                             ("examples", VArr [VStr "last"])])]);
               ("description", VStr "A pet")])
  /\ getRequestBodiesFromConfig (configOf None (Some [firstPet; lastPet]))
       (postingDocumentation [("text/plain", "Ghost")])
     = inr (VObj []).
Proof.
  split.
  - destruct (request_body_is_wired
                (configOf None (Some [firstPet; lastPet]))
                [firstPet; lastPet]
                (postingDocumentation
                   [("application/json", "Pet"); ("text/plain", "Ghost")])
                _ eq_refl eq_refl)
      as (body & Hb & _).
    + repeat constructor; simpl; intuition discriminate.
    + reflexivity.
  - reflexivity.
Defined.

(** ** More on responses *)


Lemma responseHeadersOf_steps declared :
  responseHeadersOf declared = forEach headerStep declared [].
Proof. reflexivity. Qed.

(** One header of the loop: it returns, and writes the entry of its name. *)
Lemma header_step (headers : dict value) header :
  exists entry,
    headerStep headers header
    = inr (set (header_name header) (VObj entry) headers)
    /\ get "description" entry =
         Some (VStr (strOr (header_description header)
                           (header_name header ++ " header")))
    /\ get "schema" entry =
         match header_schema header with
         | Some schema =>
             if truthy schema
             then match cleanSchema schema with
                  | inr cleaned => Some cleaned
                  | inl _ => None
                  end
             else None
         | None => None
         end.
Proof.
  unfold headerStep. cbv zeta.
  destruct (header_schema header) as [schema|];
    [destruct (truthy schema) eqn:Ht|].
  - destruct (cleanSchema_truthy _ Ht) as [cleaned ->]. cbn [bind ok].
    eexists. split; [reflexivity|]. split; reflexivity.
  - eexists. split; [reflexivity|]. split; reflexivity.
  - eexists. split; [reflexivity|]. split; reflexivity.
Qed.

(** The headers loop never throws and touches only the names it reads. *)
Lemma responseHeaders_frame declared : forall acc,
  exists headers,
    forEach headerStep declared acc = inr headers
    /\ forall name, ~ In name (map header_name declared) ->
                    get name headers = get name acc.
Proof.
  induction declared as [|header declared IH]; intros acc; cbn [forEach].
  - exists acc. split; [reflexivity|auto].
  - destruct (header_step acc header) as (entry & -> & _). cbn [bind].
    destruct (IH (set (header_name header) (VObj entry) acc))
      as (headers & -> & Hframe).
    exists headers. split; [reflexivity|]. intros name Hn. simpl in Hn.
    rewrite Hframe by tauto. apply get_set_other. tauto.
Qed.

(** The entry of a header that no later header of the same name
    overwrites. *)
Lemma responseHeaders_last before header after :
  ~ In (header_name header) (map header_name after) ->
  exists headers entry,
    responseHeadersOf (before ++ header :: after) = inr headers
    /\ get (header_name header) headers = Some (VObj entry)
    /\ get "description" entry =
         Some (VStr (strOr (header_description header)
                           (header_name header ++ " header")))
    /\ get "schema" entry =
         match header_schema header with
         | Some schema =>
             if truthy schema
             then match cleanSchema schema with
                  | inr cleaned => Some cleaned
                  | inl _ => None
                  end
             else None
         | None => None
         end.
Proof.
  intros Hlast. rewrite responseHeadersOf_steps, forEach_app.
  destruct (responseHeaders_frame before []) as (h0 & -> & _). cbn [bind].
  cbn [forEach].
  destruct (header_step h0 header) as (entry & -> & Hd & Hs). cbn [bind].
  destruct (responseHeaders_frame after
              (set (header_name header) (VObj entry) h0))
    as (headers & -> & Hframe).
  exists headers, entry. split; [reflexivity|].
  rewrite (Hframe _ Hlast), get_set_same. auto.
Qed.





(** X13.  The headers of a response: the loop never throws, and a header
    that no later header of the same name follows has its entry -- the
    description it declares, or [<name> header] when it declares none or an
    empty one, and its schema only when truthy, an object schema as
    [cleanSchema] returns it.  A later header of the same name replaces the
    whole entry of an earlier one. *)
Theorem last_header_of_a_name_wins
  (before after : list IResponseHeader) (header : IResponseHeader) :
  ~ In (header_name header) (map header_name after) ->
  exists headers entry,
    responseHeadersOf (before ++ header :: after) = inr headers
    /\ get (header_name header) headers = Some (VObj entry)
    /\ get "description" entry =
         Some (VStr (match header_description header with
                     | Some d => if d =? ""
                                 then header_name header ++ " header"
                                 else d
                     | None => header_name header ++ " header"
                     end))
    /\ (header_schema header = None -> get "schema" entry = None)
    /\ (forall schema,
          header_schema header = Some schema -> truthy schema = false ->
          get "schema" entry = None)
    /\ (forall schema,
          header_schema header = Some (VObj schema) ->
          exists cleaned,
            get "schema" entry = Some (VObj cleaned)
            /\ stripped (VObj cleaned)
            /\ forall k, k <> "$schema" -> get k cleaned = get k schema).
Proof.
  intros Hlast.
  destruct (responseHeaders_last before header after Hlast)
    as (headers & entry & Hh & Hget & Hd & Hs).
  exists headers, entry. repeat split; auto.
  - intros Hnone. now rewrite Hnone in Hs.
  - intros schema Hsome Ht. now rewrite Hsome, Ht in Hs.
  - intros schema Hsome. rewrite Hsome in Hs. cbn [truthy] in Hs.
    destruct (cleanSchema_object schema) as (cleaned & Hc & Hst & Hk & _).
    rewrite Hc in Hs. eauto.
Qed.

Lemma last_header_of_a_name_wins_witness :
  responseHeadersOf [retryHeader; overridingHeader]
  = inr [("Retry-After", VObj [("description", VStr "Seconds to wait")])]
  /\ responseHeadersOf [retryHeader]
     = inr [("Retry-After",
             VObj [("description", VStr "Retry-After header");
                   ("schema", VObj [("type", VStr "integer")])])].
Proof.
  split.
  - destruct (last_header_of_a_name_wins [retryHeader] [] overridingHeader)
      as (headers & entry & Hh & _); [intros []|].
    reflexivity.
  - reflexivity.
Defined.

(** ** More on [readFunctions] *)

(** X14.  Events that are not documented contribute nothing: when the event
    configuration [readFunctions] reads -- [http], or [httpApi] when there
    is no [http] -- has no [documentation] for every event of every
    function, the definition is returned as it was.  In particular the
    documentation of an [httpApi] block is not read when the event also has
    an [http] block. *)
Theorem undocumented_events_are_skipped
  (cfg : IDefinitionConfig IModel) (definition : value)
  (functions : list IServerlessFunctionConfig) :
  (forall funcConfig httpEvent config,
     In funcConfig functions ->
     In httpEvent (events funcConfig) ->
     orElse (http httpEvent) (httpApi httpEvent) = Some config ->
     documentation config = None) ->
  readFunctions cfg definition functions = inr definition.
Proof.
  intros Hnone. rewrite readFunctions_contribute.
  destruct (documented functions) as [|[[funcConfig config] doc] rest] eqn:Hd;
    [reflexivity|].
  assert (Hin : In (funcConfig, config, doc) (documented functions))
    by (rewrite Hd; now left).
  apply in_documented in Hin.
  destruct Hin as (Hf & httpEvent & He & Hc & Hdoc).
  rewrite (Hnone _ _ _ Hf He Hc) in Hdoc. discriminate.
Qed.

Lemma undocumented_events_are_skipped_witness :
  readFunctions (configOf None None) emptyPaths [scheduled] = inr emptyPaths.
Proof.
  apply undocumented_events_are_skipped.
  intros funcConfig httpEvent config [<-|[]] [<-|[<-|[]]]; cbn.
  - discriminate.
  - now intros [= <-].
Defined.

Lemma contributions_decide cfg functions definition :
  if forallb (fun c : contribution => buildable cfg (snd c))
             (documented functions)
  then exists definition',
      readFunctions cfg definition functions = inr definition'
  else exists e,
      readFunctions cfg definition functions = inl e /\ isTypeError e.
Proof.
  rewrite readFunctions_contribute.
  pose proof (forEach_decide (contribute cfg)
                (fun c : contribution => buildable cfg (snd c))
                (fun _ => True) isTypeError (documented functions)) as H.
  assert (Hbody : forall acc (c : contribution),
             In c (documented functions) -> True ->
             if buildable cfg (snd c)
             then exists acc', contribute cfg acc c = inr acc' /\ True
             else exists e, contribute cfg acc c = inl e /\ isTypeError e).
  { intros acc [[funcConfig config] doc] Hin _. cbn [snd].
    apply in_documented in Hin. destruct Hin as (_ & _ & _ & _ & Hdoc).
    pose proof (getOperationFromConfig_decide cfg
                  (operationName funcConfig doc) _ _ Hdoc) as Hop.
    unfold contribute, built. cbn [fst snd].
    destruct (buildable cfg doc).
    - destruct Hop as [fields ->]. cbn [bind ok]. eauto.
    - destruct Hop as (e & -> & He). cbn [bind]. eauto. }
  specialize (H Hbody definition I).
  destruct (forallb _ (documented functions)).
  - destruct H as (d & Hd & _). eauto.
  - exact H.
Qed.

(** X15.  Generation fails only through an event that cannot be built:
    [readFunctions] returns a definition when every documented event is
    buildable, and throws a TypeError -- never the "Required requestModels"
    error -- as soon as one is not. *)
Theorem generation_fails_only_on_unbuildable_events
  (cfg : IDefinitionConfig IModel) (definition : value)
  (functions : list IServerlessFunctionConfig) :
  ((forall funcConfig httpEvent config doc,
      In funcConfig functions ->
      In httpEvent (events funcConfig) ->
      orElse (http httpEvent) (httpApi httpEvent) = Some config ->
      documentation config = Some doc ->
      buildable cfg doc = true) ->
   exists definition',
     readFunctions cfg definition functions = inr definition')
  /\ (forall funcConfig httpEvent config doc,
        In funcConfig functions ->
        In httpEvent (events funcConfig) ->
        orElse (http httpEvent) (httpApi httpEvent) = Some config ->
        documentation config = Some doc ->
        buildable cfg doc = false ->
        exists what,
          readFunctions cfg definition functions = inl (TypeError what)).
Proof.
  pose proof (contributions_decide cfg functions definition) as H. split.
  - intros Hall.
    replace (forallb _ (documented functions)) with true in H; [exact H|].
    symmetry. apply forallb_forall. intros [[funcConfig config] doc] Hin.
    apply in_documented in Hin.
    destruct Hin as (Hf & httpEvent & He & Hc & Hd). cbn [snd]. eauto.
  - intros funcConfig httpEvent config doc Hf He Hc Hd Hb.
    replace (forallb _ (documented functions)) with false in H.
    + destruct H as (e & Hr & what & ->). eauto.
    + symmetry. apply not_true_is_false. intros Hall.
      rewrite forallb_forall in Hall.
      specialize (Hall (funcConfig, config, doc)). cbn [snd] in Hall.
      rewrite Hall in Hb; [discriminate|].
      apply in_documented. eauto.
Qed.

Lemma generation_fails_only_on_unbuildable_events_witness :
  (exists definition',
     readFunctions (configOf None None) emptyPaths [getPet; createPet]
     = inr definition')
  /\ (exists what,
        readFunctions (configOf None None) emptyPaths [getPet; unbuildable]
        = inl (TypeError what)).
Proof.
  split.
  - apply (proj1 (generation_fails_only_on_unbuildable_events
                    (configOf None None) emptyPaths [getPet; createPet])).
    intros funcConfig httpEvent config doc [<-|[<-|[]]] [<-|[]];
      cbn; intros [= <-]; cbn; intros [= <-]; reflexivity.
  - apply (proj2 (generation_fails_only_on_unbuildable_events
                    (configOf None None) emptyPaths [getPet; unbuildable])
             unbuildable
             {| http := Some (eventOf "/pets" "get" None
                                (securedDocumentation ["jwt"]));
                httpApi := None |}
             (eventOf "/pets" "get" None (securedDocumentation ["jwt"]))
             (securedDocumentation ["jwt"]));
      try reflexivity; simpl; auto.
Defined.

Lemma mergePaths_frame definition pathConfig k :
  k <> "paths" -> prop k (mergePaths definition pathConfig) = prop k definition.
Proof.
  intros Hk. unfold mergePaths.
  destruct definition as [| | | | |fields]; try reflexivity.
  destruct (get "paths" fields); [|reflexivity].
  cbn [prop]. apply get_set_other. congruence.
Qed.

(** X16.  [readFunctions] writes to [paths] only: every other key of the
    definition -- [info], [servers], the schema and security-scheme
    registries under [components] -- is the same after as before. *)
Theorem readFunctions_writes_paths_only
  (cfg : IDefinitionConfig IModel) (definition definition' : value)
  (functions : list IServerlessFunctionConfig) :
  readFunctions cfg definition functions = inr definition' ->
  forall k, k <> "paths" -> prop k definition' = prop k definition.
Proof.
  rewrite readFunctions_contribute. intros Hread k Hk.
  apply (forEach_invariant (contribute cfg)
           (fun d => prop k d = prop k definition)
           (documented functions)) with (acc := definition);
    [|reflexivity|exact Hread].
  intros acc c acc' _ Hacc. unfold contribute.
  destruct (built cfg c) as [|operation]; cbn [bind ok]; [discriminate|].
  intros [= <-]. now rewrite mergePaths_frame.
Qed.

Lemma readFunctions_writes_paths_only_witness :
  exists definition',
    readFunctions (configOf None None)
      (VObj [("info", VObj [("title", VStr "api")]); ("paths", VObj [])])
      [getPet] = inr definition'
    /\ prop "info" definition' = Some (VObj [("title", VStr "api")]).
Proof.
  eexists. split; [reflexivity|].
  apply (readFunctions_writes_paths_only (configOf None None)
           (VObj [("info", VObj [("title", VStr "api")]);
                  ("paths", VObj [])]) _ [getPet] eq_refl).
  discriminate.
Defined.

(** X17.  Reading functions in two batches is reading them in one: the
    second batch starts from the definition the first one left, and a throw
    in the first batch is the throw of the whole. *)
Theorem readFunctions_in_batches
  (cfg : IDefinitionConfig IModel) (definition : value)
  (first second : list IServerlessFunctionConfig) :
  readFunctions cfg definition (first ++ second) =
    match readFunctions cfg definition first with
    | inr definition' => readFunctions cfg definition' second
    | inl e => inl e
    end.
Proof. unfold readFunctions. apply forEach_app. Qed.

(** X18.  Two declared paths land on the same key of [paths] exactly when
    they are the same or one is the other with a leading slash added to a
    path that had none: [pets] and [/pets] share an entry, [/pets] and
    [//pets] do not. *)
Theorem paths_collide_on_a_leading_slash (p q : string) :
  pathKey p = pathKey q <->
  p = q
  \/ (startsWith "/" p = false /\ q = "/" ++ p)
  \/ (startsWith "/" q = false /\ p = "/" ++ q).
Proof.
  assert (Hrooted : forall s, startsWith "/" ("/" ++ s) = true).
  { intros s. unfold startsWith. simpl. now destruct s. }
  unfold pathKey.
  destruct (startsWith "/" p) eqn:Hp, (startsWith "/" q) eqn:Hq; split.
  - auto.
  - intros [H|[[H _]|[H _]]]; [exact H|discriminate..].
  - intros ->. auto.
  - intros [->|[[H _]|[_ H]]]; [congruence|discriminate|exact H].
  - intros <-. auto.
  - intros [->|[[_ H]|[H _]]]; [congruence|now symmetry|discriminate].
  - intros [= ->]. auto.
  - intros [->|[[_ ->]|[_ ->]]]; [reflexivity|..].
    + now rewrite Hrooted in Hq.
    + now rewrite Hrooted in Hp.
Qed.
(** ** More on [parse] *)

Lemma pop_cons {A} (x : A) xs :
  pop (x :: xs) = match pop xs with
                  | Some y => Some y
                  | None => Some x
                  end.
Proof.
  destruct xs as [|y xs]; [reflexivity|].
  change (pop (x :: y :: xs)) with (pop (y :: xs)).
  revert y. induction xs as [|z xs IH]; intros y; [reflexivity|].
  change (pop (y :: z :: xs)) with (pop (z :: xs)).
  now destruct (IH z).
Qed.

Lemma schemes_fold declared : forall acc name,
  get name (fold_left
              (fun result s => set (security_name s) (schemeEntry s) result)
              declared acc)
  = match lastScheme declared name with
    | Some s => Some (schemeEntry s)
    | None => get name acc
    end.
Proof.
  unfold lastScheme.
  induction declared as [|s declared IH]; intros acc name; [reflexivity|].
  cbn [fold_left filter]. rewrite IH.
  destruct (security_name s =? name) eqn:E.
  - rewrite pop_cons. destruct (pop _); [reflexivity|].
    apply String.eqb_eq in E. subst name. apply get_set_same.
  - destruct (pop _); [reflexivity|].
    apply get_set_other. intros <-. now rewrite String.eqb_refl in E.
Qed.

Lemma setSchema_keeps_schemes name schema definition definition' :
  setSchema name schema definition = inr definition' ->
  forall n, securitySchemeOf definition' n = securitySchemeOf definition n.
Proof.
  unfold setSchema, securitySchemeOf.
  destruct definition as [| | | | |fields]; try discriminate.
  cbn [prop].
  destruct (get "components" fields) as [[| | | | |components]|] eqn:Hc;
    try discriminate.
  destruct (get "schemas" components) as [[| | | | |schemas]|] eqn:Hs;
    try discriminate.
  intros [= <-] n. cbn [prop]. rewrite get_set_same. cbn [prop].
  now rewrite get_set_other by discriminate.
Qed.

Lemma setSchema_registry name schema definition :
  hasRegistry definition ->
  exists definition',
    setSchema name schema definition = inr definition'
    /\ hasRegistry definition'.
Proof.
  intros (fields & components & schemas & -> & Hc & Hs).
  unfold setSchema. rewrite Hc, Hs. eexists. split; [reflexivity|].
  do 3 eexists. split; [reflexivity|].
  rewrite get_set_same. split; [reflexivity|]. apply get_set_same.
Qed.

Lemma update_same {A} (xs : list A) : forall n x,
  nth_error xs n = Some x -> update n x xs = xs.
Proof.
  induction xs as [|y xs IH]; intros [|n] x; simpl; try discriminate.
  - now intros [= ->].
  - intros H. now rewrite IH.
Qed.

Lemma nth_error_update_same {A} (xs : list A) : forall n x y,
  nth_error xs n = Some y -> nth_error (update n x xs) n = Some x.
Proof.
  induction xs as [|z xs IH]; intros [|n] x y; simpl; try discriminate; eauto.
Qed.

Section Engine.
Variable generateSchema : string -> string -> value.
Variable dereference : value -> value.
Variable uuid_v4 : string.

(** One model of the loop, once the object at its address is known. *)
Lemma parseModel_pure definition l h model :
  nth_error h l = Some model ->
  parseModel generateSchema dereference definition l h
  = (update l (derived generateSchema model) h,
     registerModel generateSchema dereference definition model).
Proof.
  intros Hl.
  unfold parseModel, bindM, readModel, writeModel, liftM, retM,
    registerModel, sourceSchema, derived.
  rewrite Hl. unfold ok. cbn iota beta.
  destruct (model_tsSchema model) as [tsSchema|]; cbn iota beta;
    [reflexivity|].
  rewrite (update_same _ _ _ Hl).
  destruct (model_schema model) as [schema|]; [|reflexivity].
  now destruct (truthy schema).
Qed.

(** The loop over models at consecutive addresses. *)
Lemma parseModels_pure copies : forall start h definition,
  (forall i model, nth_error copies i = Some model ->
                   nth_error h (start + i) = Some model) ->
  exists h',
    forEachM (parseModel generateSchema dereference)
             (seq start (List.length copies)) definition h
    = (h', forEach (registerModel generateSchema dereference)
                   copies definition)
    /\ (forall l, l < start -> nth_error h' l = nth_error h l)
    /\ (forall definition',
          forEach (registerModel generateSchema dereference)
                  copies definition = inr definition' ->
          forall i model,
            nth_error copies i = Some model ->
            nth_error h' (start + i)
            = Some (derived generateSchema model)).
Proof.
  induction copies as [|m copies IH]; intros start h definition Hat.
  - exists h. repeat split; auto.
    intros ? _ [|i] model; discriminate.
  - cbn [List.length seq forEachM forEach]. unfold bindM at 1.
    assert (H0 : nth_error h start = Some m).
    { specialize (Hat 0 m eq_refl). now rewrite Nat.add_0_r in Hat. }
    rewrite (parseModel_pure definition start h m H0).
    set (h1 := update start (derived generateSchema m) h).
    destruct (registerModel generateSchema dereference definition m)
      as [e|d1]; cbn [bind].
    + exists h1. repeat split; [|discriminate].
      intros l Hl. apply nth_error_update_other. lia.
    + destruct (IH (S start) h1 d1) as (h' & Hrun & Hframe & Hderived).
      { intros i model Hi. unfold h1.
        rewrite nth_error_update_other by lia.
        rewrite <- (Hat (S i) model Hi). f_equal. lia. }
      exists h'. split; [exact Hrun|]. split.
      * intros l Hl. rewrite Hframe by lia.
        apply nth_error_update_other. lia.
      * intros definition' Hloop [|i] model Hi.
        -- cbn in Hi. injection Hi as <-. rewrite Nat.add_0_r.
           rewrite Hframe by lia. unfold h1.
           eapply nth_error_update_same; eauto.
        -- cbn in Hi. rewrite <- (Hderived _ Hloop i model Hi).
           f_equal. lia.
Qed.

Lemma deref_seq {B} (f : B -> IModel) (h : store) (xs : list B) :
  forall start,
  (forall i x, nth_error xs i = Some x ->
               nth_error h (start + i) = Some (f x)) ->
  deref h (seq start (List.length xs)) = map f xs.
Proof.
  unfold deref.
  induction xs as [|x xs IH]; intros start Hat; [reflexivity|].
  cbn [List.length seq flat_map map].
  pose proof (Hat 0 x eq_refl) as H0. rewrite Nat.add_0_r in H0.
  rewrite H0. cbn [app]. f_equal. apply IH.
  intros i y Hi. rewrite <- (Hat (S i) y Hi). f_equal. lia.
Qed.

(** [parse] on a new engine: the seeded document, then the models the
    caller handed over, read off the engine's copies of them. *)
Lemma parse_new supplied h h1 this :
  constructor supplied h = (h1, this) ->
  exists h2,
    parse generateSchema dereference uuid_v4 this h1
    = (h2,
       definition' <-
         forEach (registerModel generateSchema dereference)
                 (orEmpty (config_models (loadConfig h supplied)))
                 (seeded uuid_v4 supplied) ;;
       ok (withDefinition this definition'))
    /\ (forall definition',
          forEach (registerModel generateSchema dereference)
                  (orEmpty (config_models (loadConfig h supplied)))
                  (seeded uuid_v4 supplied) = inr definition' ->
          config_models (loadConfig h2 (config this))
          = option_map (map (derived generateSchema))
                       (config_models (loadConfig h supplied))).
Proof.
  unfold constructor, cloneConfig, loadConfig.
  destruct (config_models supplied) as [models|] eqn:Hm;
    cbn iota beta; intros Heq; injection Heq as H1 H2; subst h1 this;
    unfold parse;
    cbn [config definition version config_models config_title
         config_description config_version config_servers config_security
         withModels option_map orEmpty].
  - set (copies := deref h models).
    destruct (parseModels_pure copies (List.length h) (h ++ copies)%list
                (seeded uuid_v4 supplied)) as (h2 & Hrun & _ & Hderived).
    { intros i model Hi. rewrite nth_error_app2 by lia.
      rewrite <- Hi. f_equal. lia. }
    exists h2. split.
    + unfold bindM.
      change (Utils.merge _ _) with (seeded uuid_v4 supplied).
      rewrite Hrun.
      now destruct (forEach _ copies (seeded uuid_v4 supplied)).
    + intros definition' Hloop. f_equal.
      apply deref_seq. exact (Hderived _ Hloop).
  - rewrite ?Hm. exists h. split; [reflexivity|].
    intros definition' _. now rewrite ?Hm.
Qed.

Lemma registerModel_frame definition model definition' :
  registerModel generateSchema dereference definition model
  = inr definition' ->
  (forall k, k <> "components" -> prop k definition' = prop k definition)
  /\ (forall n, securitySchemeOf definition' n
                = securitySchemeOf definition n)
  /\ (forall n, schemaOf definition' n =
                  if (model_name model =? n)
                     && isSourced generateSchema model
                  then registered generateSchema dereference model
                  else schemaOf definition n).
Proof.
  unfold registerModel, registered, isSourced.
  destruct (sourceSchema generateSchema model) as [schema|].
  - destruct (cleanSchema (dereference schema)) as [e|cleaned];
      cbn [bind]; [discriminate|].
    intros Hset. destruct (setSchema_sets _ _ _ _ Hset) as [Hk Hn].
    repeat split;
      [exact Hk|exact (setSchema_keeps_schemes _ _ _ _ Hset)|].
    intros n. rewrite Hn, andb_true_r, (String.eqb_sym n). reflexivity.
  - intros [= <-]. repeat split. intros n. now rewrite andb_false_r.
Qed.

Lemma registered_last copies : forall definition definition',
  forEach (registerModel generateSchema dereference) copies definition
  = inr definition' ->
  forall n,
    schemaOf definition' n =
      match lastSourced generateSchema copies n with
      | Some model => registered generateSchema dereference model
      | None => schemaOf definition n
      end.
Proof.
  unfold lastSourced.
  induction copies as [|m copies IH]; intros definition definition';
    cbn [forEach filter].
  - now intros [= <-].
  - destruct (registerModel _ _ definition m) as [e|d1] eqn:H1;
      cbn [bind]; [discriminate|].
    intros Hrest n. rewrite (IH _ _ Hrest n).
    destruct (registerModel_frame _ _ _ H1) as (_ & _ & Hn).
    destruct ((model_name m =? n) && isSourced generateSchema m) eqn:E.
    + rewrite pop_cons. destruct (pop _); [reflexivity|].
      now rewrite Hn, E.
    + destruct (pop _); [reflexivity|]. now rewrite Hn, E.
Qed.

Lemma registerModel_decide definition model :
  hasRegistry definition ->
  if registrable generateSchema dereference model
  then exists definition',
      registerModel generateSchema dereference definition model
      = inr definition' /\ hasRegistry definition'
  else exists e,
      registerModel generateSchema dereference definition model = inl e
      /\ isTypeError e.
Proof.
  intros Hreg. unfold registrable, registerModel.
  destruct (sourceSchema generateSchema model) as [schema|]; [|eauto].
  assert (Hclean : forall v, v <> VNull ->
                             exists cleaned, cleanSchema v = inr cleaned).
  { intros [| | | | |fields] Hv; try (eexists; reflexivity);
      [congruence|].
    destruct (cleanSchema_strips fields) as (c & -> & _). eauto. }
  destruct (dereference schema) as [| | | | |fields] eqn:Hd;
    try (destruct (Hclean (dereference schema)) as [cleaned Hc];
         [rewrite Hd; discriminate|];
         rewrite <- Hd, Hc; cbn [bind];
         now apply setSchema_registry).
  eexists. split; [reflexivity|]. eexists. reflexivity.
Qed.

Lemma parse_new_returns supplied h h1 this h2 this' :
  constructor supplied h = (h1, this) ->
  parse generateSchema dereference uuid_v4 this h1 = (h2, inr this') ->
  forEach (registerModel generateSchema dereference)
          (orEmpty (config_models (loadConfig h supplied)))
          (seeded uuid_v4 supplied) = inr (definition this')
  /\ config_models (loadConfig h2 (config this'))
     = option_map (map (derived generateSchema))
                  (config_models (loadConfig h supplied)).
Proof.
  intros Hnew Hparse.
  destruct (parse_new _ _ _ _ Hnew) as (h2' & Hrun & Hderived).
  rewrite Hrun in Hparse.
  destruct (forEach _ _ (seeded uuid_v4 supplied)) as [e|d] eqn:Hloop;
    cbn [bind ok] in Hparse; [discriminate|].
  injection Hparse as <- <-. cbn [definition config withDefinition].
  split; [reflexivity|]. exact (Hderived d eq_refl).
Qed.

Lemma registered_frame copies (I : value -> Prop) :
  (forall definition model definition',
     registerModel generateSchema dereference definition model
     = inr definition' -> I definition -> I definition') ->
  forall definition definition',
    forEach (registerModel generateSchema dereference) copies definition
    = inr definition' -> I definition -> I definition'.
Proof.
  intros Hstep definition definition' Hloop Hd.
  apply (forEach_invariant (registerModel generateSchema dereference) I
           copies) with (acc := definition); auto.
  intros acc x acc' _ Hacc Hx. eapply Hstep; eauto.
Qed.

End Engine.

(** X18.  [parse] on a new engine seeds the document: the fixed OpenAPI
    version, an [info] object whose title and description default to the
    empty string and whose version defaults to a generated identifier (an
    empty version string is kept), the declared servers or an empty list,
    and an empty [paths] object.  The model loop does not disturb them. *)
Theorem parse_seeds_the_document
  (generateSchema : string -> string -> value)
  (dereference : value -> value) (uuid_v4 : string)
  (supplied : IDefinitionConfig loc)
  (h h1 h2 : store) (this this' : DefinitionGenerator) :
  constructor supplied h = (h1, this) ->
  parse generateSchema dereference uuid_v4 this h1 = (h2, inr this') ->
  prop "openapi" (definition this') = Some (VStr "3.0.0")
  /\ prop "info" (definition this')
     = Some (VObj [("title", VStr (orDefault (config_title supplied) ""));
                   ("description",
                    VStr (orDefault (config_description supplied) ""));
                   ("version",
                    VStr (orDefault (config_version supplied) uuid_v4))])
  /\ prop "servers" (definition this')
     = Some (match config_servers supplied with
             | Some servers => servers
             | None => VArr []
             end)
  /\ prop "paths" (definition this') = Some (VObj []).
Proof.
  intros Hnew Hparse.
  destruct (parse_new_returns _ _ _ _ _ _ _ _ _ Hnew Hparse) as [Hloop _].
  assert (Hframe : forall k, k <> "components" ->
            prop k (definition this') = prop k (seeded uuid_v4 supplied)).
  { intros k Hk.
    apply (registered_frame generateSchema dereference _
             (fun d => prop k d = prop k (seeded uuid_v4 supplied))
             ltac:(intros d m d' Hm Hd;
                   destruct (registerModel_frame _ _ _ _ _ Hm) as (Hf & _);
                   now rewrite Hf)
             _ _ Hloop eq_refl). }
  repeat split; rewrite Hframe by discriminate; reflexivity.
Qed.

Lemma parse_seeds_the_document_witness :
  exists h2 this',
    (let (h1, this) := constructor (securedConfig [jwtScheme]) [] in
     parse derive inlineNothing "generated" this h1) = (h2, inr this')
    /\ prop "info" (definition this')
       = Some (VObj [("title", VStr ""); ("description", VStr "Pets");
                     ("version", VStr "generated")])
    /\ prop "servers" (definition this') = Some (VArr []).
Proof.
  do 2 eexists. split; [reflexivity|].
  destruct (parse_seeds_the_document derive inlineNothing "generated"
              (securedConfig [jwtScheme]) [] _ _ _ _ eq_refl eq_refl)
    as (_ & Hinfo & Hservers & _).
  split; [exact Hinfo|exact Hservers].
Defined.

(** X19.  The security schemes are registered by name: after [parse] on a
    new engine the entry of a name is [{ name, ...rest }] of the last
    security definition of that name -- its [authorizerName] is left out --
    and a name no definition has is not registered.  Registering the
    models does not disturb the entries. *)
Theorem security_schemes_are_keyed_by_name
  (generateSchema : string -> string -> value)
  (dereference : value -> value) (uuid_v4 : string)
  (supplied : IDefinitionConfig loc)
  (h h1 h2 : store) (this this' : DefinitionGenerator) (name : string) :
  constructor supplied h = (h1, this) ->
  parse generateSchema dereference uuid_v4 this h1 = (h2, inr this') ->
  securitySchemeOf (definition this') name
  = option_map schemeEntry
      (lastScheme (orEmpty (config_security supplied)) name).
Proof.
  intros Hnew Hparse.
  destruct (parse_new_returns _ _ _ _ _ _ _ _ _ Hnew Hparse) as [Hloop _].
  rewrite (registered_frame generateSchema dereference _
             (fun d => securitySchemeOf d name
                       = securitySchemeOf (seeded uuid_v4 supplied) name)
             ltac:(intros d m d' Hm Hd;
                   destruct (registerModel_frame _ _ _ _ _ Hm)
                     as (_ & Hf & _);
                   now rewrite Hf)
             _ _ Hloop eq_refl).
  change (securitySchemeOf (seeded uuid_v4 supplied) name)
    with (get name (securitySchemesOf (orEmpty (config_security supplied)))).
  etransitivity; [exact (schemes_fold _ [] name)|].
  now destruct (lastScheme _ name).
Qed.

Lemma security_schemes_are_keyed_by_name_witness :
  exists h2 this',
    (let (h1, this) :=
       constructor (securedConfig [jwtScheme; apiKeyScheme; renamedScheme])
                   [] in
     parse derive inlineNothing "generated" this h1) = (h2, inr this')
    /\ securitySchemeOf (definition this') "jwt"
       = Some (VObj [("name", VStr "jwt"); ("type", VStr "apiKey");
                     ("in", VStr "header")]).
Proof.
  do 2 eexists. split; [reflexivity|].
  exact (security_schemes_are_keyed_by_name derive inlineNothing "generated"
           (securedConfig [jwtScheme; apiKeyScheme; renamedScheme])
           [] _ _ _ _ "jwt" eq_refl eq_refl).
Defined.

(** X20.  The schema registry after [parse] on a new engine: a name holds
    the cleaned, dereferenced schema of the last model of that name the
    loop did not skip -- derived from [tsSchema] when the model has one,
    whatever [schema] it also has -- and a name with no such model holds
    nothing. *)
Theorem last_sourced_model_is_registered
  (generateSchema : string -> string -> value)
  (dereference : value -> value) (uuid_v4 : string)
  (supplied : IDefinitionConfig loc)
  (h h1 h2 : store) (this this' : DefinitionGenerator) (name : string) :
  constructor supplied h = (h1, this) ->
  parse generateSchema dereference uuid_v4 this h1 = (h2, inr this') ->
  schemaOf (definition this') name
  = match lastSourced generateSchema
            (orEmpty (config_models (loadConfig h supplied))) name with
    | Some model => registered generateSchema dereference model
    | None => None
    end.
Proof.
  intros Hnew Hparse.
  destruct (parse_new_returns _ _ _ _ _ _ _ _ _ Hnew Hparse) as [Hloop _].
  exact (registered_last generateSchema dereference _ _ _ Hloop name).
Qed.

Lemma last_sourced_model_is_registered_witness :
  exists h2 this',
    (let (h1, this) :=
       constructor (callerConfig [0; 1; 2]) [typedPet; petModel; skippedPet]
     in parse derive inlineNothing "generated" this h1) = (h2, inr this')
    /\ schemaOf (definition this') "Pet"
       = Some (VObj [("type", VStr "object")])
    /\ schemaOf (definition this') "Owner" = None.
Proof.
  do 2 eexists. split; [reflexivity|]. split.
  - exact (last_sourced_model_is_registered derive inlineNothing "generated"
             (callerConfig [0; 1; 2]) [typedPet; petModel; skippedPet]
             _ _ _ _ "Pet" eq_refl eq_refl).
  - reflexivity.
Defined.

(** X21.  What [parse] leaves in the engine's models: after a [parse] that
    returns, the engine's configuration reads as the caller's did at
    construction with every model that had a [tsSchema] holding the
    derived schema in [schema] and no [tsSchema] any more; the other
    models, the skipped ones included, are as they were. *)
Theorem parse_derives_the_typed_models
  (generateSchema : string -> string -> value)
  (dereference : value -> value) (uuid_v4 : string)
  (supplied : IDefinitionConfig loc)
  (h h1 h2 : store) (this this' : DefinitionGenerator) :
  constructor supplied h = (h1, this) ->
  parse generateSchema dereference uuid_v4 this h1 = (h2, inr this') ->
  config_models (loadConfig h2 (config this'))
  = option_map (map (derived generateSchema))
               (config_models (loadConfig h supplied)).
Proof.
  intros Hnew Hparse.
  exact (proj2 (parse_new_returns _ _ _ _ _ _ _ _ _ Hnew Hparse)).
Qed.

Lemma parse_derives_the_typed_models_witness :
  exists h2 this',
    (let (h1, this) :=
       constructor (callerConfig [0; 1]) [typedPet; skippedPet]
     in parse derive inlineNothing "generated" this h1) = (h2, inr this')
    /\ config_models (loadConfig h2 (config this'))
       = Some [ {| model_name := "Pet";
                   model_schema := Some (derive "pet.ts" "Pet");
                   model_tsSchema := None; model_examples := None |};
                skippedPet ].
Proof.
  do 2 eexists. split; [reflexivity|].
  exact (parse_derives_the_typed_models derive inlineNothing "generated"
           (callerConfig [0; 1]) [typedPet; skippedPet]
           _ _ _ _ eq_refl eq_refl).
Defined.

(** X22.  [parse] on a new engine fails only on a [null] schema: it
    returns when, for every model the loop does not skip, the dereferenced
    schema is not [null], and throws a TypeError otherwise (the
    collaborators taken to return). *)
Theorem parse_fails_only_on_null_schemas
  (generateSchema : string -> string -> value)
  (dereference : value -> value) (uuid_v4 : string)
  (supplied : IDefinitionConfig loc)
  (h h1 : store) (this : DefinitionGenerator) :
  constructor supplied h = (h1, this) ->
  if forallb (registrable generateSchema dereference)
             (orEmpty (config_models (loadConfig h supplied)))
  then exists this',
      snd (parse generateSchema dereference uuid_v4 this h1) = inr this'
  else exists what,
      snd (parse generateSchema dereference uuid_v4 this h1)
      = inl (TypeError what).
Proof.
  intros Hnew.
  destruct (parse_new generateSchema dereference uuid_v4 _ _ _ _ Hnew)
    as (h2 & -> & _). cbn [snd].
  pose proof (forEach_decide (registerModel generateSchema dereference)
                (registrable generateSchema dereference)
                hasRegistry isTypeError
                (orEmpty (config_models (loadConfig h supplied)))
                ltac:(intros acc x _ Hacc;
                      now apply registerModel_decide)
                (seeded uuid_v4 supplied)) as H.
  assert (Hseed : hasRegistry (seeded uuid_v4 supplied))
    by (do 3 eexists; split; [reflexivity|split; reflexivity]).
  specialize (H Hseed).
  destruct (forallb _ _).
  - destruct H as (d & -> & _). cbn [bind ok]. eauto.
  - destruct H as (e & -> & what & ->). cbn [bind]. eauto.
Qed.

Lemma parse_fails_only_on_null_schemas_witness :
  (exists this',
     snd (let (h1, this) := constructor (callerConfig [0]) [typedModel] in
          parse derive inlineNothing "generated" this h1) = inr this')
  /\ (exists what,
        snd (let (h1, this) := constructor (callerConfig [0]) [typedModel] in
             parse deriveNothing inlineNothing "generated" this h1)
        = inl (TypeError what)).
Proof.
  split.
  - exact (parse_fails_only_on_null_schemas derive inlineNothing "generated"
             (callerConfig [0]) [typedModel] _ _ eq_refl).
  - exact (parse_fails_only_on_null_schemas deriveNothing inlineNothing
             "generated" (callerConfig [0]) [typedModel] _ _ eq_refl).
Defined.
